(** * NewsLearner: allocation of news and ads into page slots

    A shallow embedding of [OnlineArticleRecommendation/Core/news_learner.py].
    Python floats are rationals ([Q]), exact but where rounding decides
    the outcome (see "Double precision"); Python lists are [list];
    News and Ad objects live in a store and are handled through references,
    so that an object placed twice in a pool is one object; exceptions are
    values of [exn]; the draws of [numpy.random] come from an explicit
    oracle. *)

From Stdlib Require Import ZArith QArith Qabs Qround Lqa Lia.
From Stdlib Require Import String Ascii Bool DecimalString Sorted.
From stdpp Require Import base list strings.

Local Open Scope Q_scope.
Local Open Scope string_scope.
Local Open Scope list_scope.

(* ===================================================================== *)
(** ** Exceptions and results *)
(* ===================================================================== *)

Inductive exn : Type :=
| RuntimeError
| RuntimeWarning
| ValueError
| IndexError
| AttributeError
| UnboundLocalError
| SystemExit.

Inductive res (A : Type) : Type :=
| Ok (a : A)
| Raise (e : exn).
Arguments Ok {A} a.
Arguments Raise {A} e.

#[global] Instance res_bind : MBind res := fun A B (k : A -> res B) (m : res A) =>
  match m with
  | Ok a => k a
  | Raise e => Raise e
  end.

#[global] Instance res_ret : MRet res := fun A (a : A) => Ok a.

#[global] Instance res_fmap : FMap res := fun A B (f : A -> B) (m : res A) =>
  match m with
  | Ok a => Ok (f a)
  | Raise e => Raise e
  end.

Definition is_error {A} (r : res A) : Prop :=
  match r with Ok _ => False | Raise _ => True end.

Definition from_option {A} (e : exn) (o : option A) : res A :=
  match o with Some a => Ok a | None => Raise e end.

(* ===================================================================== *)
(** ** Numbers and the list primitives of Python and NumPy *)
(* ===================================================================== *)

Definition Qltb (x y : Q) : bool := negb (Qle_bool y x).
Definition Qleb (x y : Q) : bool := Qle_bool x y.
Definition Qeqb (x y : Q) : bool := Qeq_bool x y.

(** [sum(l)]; in exact arithmetic the order of the additions is immaterial. *)
Definition Qsum (l : list Q) : Q := fold_right Qplus 0 l.

(** [np.argmax(l)]: the first position of the largest entry. *)
Fixpoint argmax_from (best : Q) (besti i : nat) (l : list Q) : nat :=
  match l with
  | [] => besti
  | x :: l' =>
      if Qltb best x then argmax_from x i (S i) l'
      else argmax_from best besti (S i) l'
  end.

Definition argmax (l : list Q) : res nat :=
  match l with
  | [] => Raise ValueError
  | x :: l' => Ok (argmax_from x 0%nat 1%nat l')
  end.

(** [l.index(x)]: the first position holding [x]. *)
Fixpoint index_of {A} (eqb : A -> A -> bool) (x : A) (l : list A) : option nat :=
  match l with
  | [] => None
  | y :: l' => if eqb y x then Some 0%nat else S <$> index_of eqb x l'
  end.

(** [l[i]] for a non-negative [i]. *)
Definition getitem {A} (l : list A) (i : nat) : res A :=
  from_option IndexError (l !! i).

(** [l[-1]]. *)
Definition last_item {A} (l : list A) : res A :=
  from_option IndexError (last l).

(** [l[i] = x] for a non-negative [i]. *)
Definition setitem {A} (i : nat) (x : A) (l : list A) : res (list A) :=
  if decide (i < length l)%nat then Ok (<[i:=x]> l) else Raise IndexError.

(** [l.insert(i, x)] for a non-negative [i]. *)
Definition list_insert_at {A} (i : nat) (x : A) (l : list A) : list A :=
  take i l ++ x :: drop i l.

(** [l.__delitem__(i)] for a non-negative [i]. *)
Definition delitem {A} (i : nat) (l : list A) : res (list A) :=
  if decide (i < length l)%nat then Ok (delete i l) else Raise IndexError.

(** [x in l] under a decidable equality. *)
Definition contains {A} `{EqDecision A} (x : A) (l : list A) : bool :=
  bool_decide (x ∈ l).

(** [list.sort(key=..., reverse=...)]: stable; [precedes y x] says that
    the key of [y] is strictly before the key of [x] in the wanted order.
    An element is inserted in front of the sorted rest and moves right only
    past elements that strictly precede it, so equal keys keep their
    order. *)
Fixpoint insert_sorted {A} (precedes : A -> A -> bool) (x : A) (l : list A) : list A :=
  match l with
  | [] => [x]
  | y :: l' => if precedes y x then y :: insert_sorted precedes x l' else x :: l
  end.

Definition py_sort {A} (precedes : A -> A -> bool) (l : list A) : list A :=
  fold_right (insert_sorted precedes) [] l.

(** The order of [str]: code point by code point. *)
Definition str_ltb (s t : string) : bool :=
  match String.compare s t with Lt => true | _ => false end.

(** ** The oracle behind [numpy.random] *)

(** The [n]-th draw of the generator, a number in [[0,1)]. *)
Definition oracle := nat -> Q.

Definition oracle_ok (rng : oracle) : Prop := forall n, 0 <= rng n /\ rng n < 1.

(** The inverse-CDF search of [np.random.choice(a, p=p)]: the first
    position whose cumulative probability exceeds the draw. *)
Fixpoint cdf_search (u acc : Q) (p : list Q) : option nat :=
  match p with
  | [] => None
  | x :: p' =>
      if Qltb u (acc + x) then Some 0%nat
      else S <$> cdf_search u (acc + x) p'
  end.

(** [np.random.choice(a, p=p)]: rejects an empty [a], a [p] of another
    length, a negative probability and probabilities that do not sum to
    one. *)
Definition choice_p {A} (u : Q) (a : list A) (p : list Q) : res A :=
  match a with
  | [] => Raise ValueError
  | _ =>
      if negb (length a =? length p)%nat then Raise ValueError
      else if negb (forallb (Qleb 0) p) then Raise ValueError
      else if negb (Qeqb (Qsum p) 1) then Raise ValueError
      else
        i ← from_option ValueError (cdf_search u 0 p);
        getitem a i
  end.

(** [np.random.choice(a)]: a uniform draw, [ValueError] on an empty [a]. *)
Definition choice {A} (u : Q) (a : list A) : res A :=
  match a with
  | [] => Raise ValueError
  | _ => getitem a (Z.to_nat (Qfloor (u * inject_Z (Z.of_nat (length a)))))
  end.

(** [np.array(v) / sum(v)]: with a zero sum NumPy yields NaN entries (or
    an empty array) without raising; [None] stands for that array, which
    every later [np.random.choice] rejects with [ValueError]. *)
Definition normalize (v : list Q) : option (list Q) :=
  let s := Qsum v in
  if Qeqb s 0 then None else Some (map (fun x => x / s) v).

(** [np.array(a) * np.array(b)] on one-dimensional arrays, with NumPy's
    broadcasting of a one-element array. *)
Definition np_mul (a b : list Q) : res (list Q) :=
  if (length a =? length b)%nat then Ok (zip_with Qmult a b)
  else match a, b with
       | [x], _ => Ok (map (Qmult x) b)
       | _, [y] => Ok (map (fun x => x * y) a)
       | _, _ => Raise ValueError
       end.

(** ** Double precision

    Where the outcome of the code depends on the rounding of a float
    operation (the two sums compared at construction, the products of the
    damping of "rand_3"), the operation is rounded as IEEE 754 binary64
    does: to the nearest double, ties to the even significand, with
    gradual underflow below [2^-1022]. The operations round their
    arguments first, which changes nothing for a double and reads any
    other rational as the double nearest to it, as the source reads a
    decimal literal. The exponent is not bounded above: the overflow to
    [inf] beyond the largest double is outside the range of the model. *)

Definition pow2 (k : Z) : Q :=
  if (0 <=? k)%Z then inject_Z (2 ^ k) else 1 # Z.to_pos (2 ^ (- k)).

(** The exponent [e] with [2^e <= x < 2^(e+1)], for a positive [x]. *)
Definition binade (x : Q) : Z :=
  let e := (Z.log2 (Qnum x) - Z.log2 (Zpos (Qden x)))%Z in
  if Qle_bool (pow2 e) x then e else (e - 1)%Z.

Definition round_half_even (q : Q) : Z :=
  let f := Qfloor q in
  match Qcompare (q - inject_Z f) (1 # 2) with
  | Lt => f
  | Gt => (f + 1)%Z
  | Eq => if Z.even f then f else (f + 1)%Z
  end.

(** A positive number rounded to 53 significant bits, or to a multiple of
    [2^-1074] when it is below [2^-1022]. *)
Definition round64_positive (x : Q) : Q :=
  let quantum := pow2 (Z.max (binade x) (-1022) - 52) in
  inject_Z (round_half_even (x / quantum)) * quantum.

Definition round64 (x : Q) : Q :=
  let x := Qred x in
  match Qnum x with
  | Z0 => 0
  | Zpos _ => round64_positive x
  | Zneg _ => - round64_positive (- x)
  end.

Definition float_add (x y : Q) : Q := round64 (round64 x + round64 y).
Definition float_sub (x y : Q) : Q := round64 (round64 x - round64 y).
Definition float_mul (x y : Q) : Q := round64 (round64 x * round64 y).

(** [sum(l)] on floats, and a running [total += x]: the additions are made
    from the left, each one rounded (from Python 3.12 on, [sum] corrects
    the rounding errors of the partial sums; the running total does not). *)
Definition float_sum (l : list Q) : Q := fold_left float_add l 0.

Arguments round64 : simpl never.
Arguments float_add : simpl never.
Arguments float_sub : simpl never.
Arguments float_mul : simpl never.

(** [np.array(a) * np.array(b)] with each product rounded, for the
    damping of "rand_3", where a product of positive weights can round to
    zero. *)
Definition np_mul_rounded (a b : list Q) : res (list Q) :=
  if (length a =? length b)%nat then Ok (zip_with float_mul a b)
  else match a, b with
       | [x], _ => Ok (map (float_mul x) b)
       | _, [y] => Ok (map (fun x => float_mul x y) a)
       | _, _ => Raise ValueError
       end.

(** [row[i:j] = vals] for non-negative bounds: the slice is cut to the
    list and replaced, whatever the length of [vals]. *)
Definition slice_assign {A} (i j : nat) (vals row : list A) : list A :=
  take i row ++ vals ++ drop (Nat.max i j) row.

(** [row[t] = x; t += stride] while [t < len(row)]. *)
Fixpoint stride_fill {A} (fuel t stride : nat) (x : A) (row : list A) : list A :=
  match fuel with
  | O => row
  | S fuel' =>
      if decide (t < length row)%nat
      then stride_fill fuel' (t + stride) stride x (<[t:=x]> row)
      else row
  end.

(* ===================================================================== *)
(** ** Data model *)
(* ===================================================================== *)

(** Objects are held by reference. *)
Definition ref := nat.

Record News : Type := mkNews {
  news_id : Z;
  news_category : string;
  sampled_quality : Q;
  doubled_news_indexes : option (nat * nat)
}.

Record Ad : Type := mkAd {
  ad_id : Z;
  ad_category : string;
  ad_sampled_quality : Q;
  bid : Q;
  buyer : bool;
  exclude_competitors : bool
}.

(** What a caller may hand over where a News is expected. *)
Inductive content : Type :=
| ANews (r : ref)
| AnAd (r : ref).

Record Store : Type := mkStore {
  news_at : ref -> News;
  ad_at : ref -> Ad
}.

Definition set_sampled_quality (h : Store) (r : ref) (value : Q) : Store :=
  {| news_at := fun r' =>
       if decide (r' = r)
       then {| news_id := news_id (news_at h r);
               news_category := news_category (news_at h r);
               sampled_quality := value;
               doubled_news_indexes := doubled_news_indexes (news_at h r) |}
       else news_at h r';
     ad_at := ad_at h |}.

Definition set_doubled_news_indexes (h : Store) (r : ref) (pos : nat * nat) : Store :=
  {| news_at := fun r' =>
       if decide (r' = r)
       then {| news_id := news_id (news_at h r);
               news_category := news_category (news_at h r);
               sampled_quality := sampled_quality (news_at h r);
               doubled_news_indexes := Some pos |}
       else news_at h r';
     ad_at := ad_at h |}.

(** Modelled from the spec: SyntheticUser, whose class is not among the
    sources. The learner reads two per-item counters of a user, the
    cumulative observed prominence and the number of clicks; each table
    row is [[news_id, committed value, pending value]], as the learner's
    own updates of [last_news_in_allocation] and [last_news_clicked]
    use them. *)
Record SyntheticUser : Type := mkUser {
  last_news_in_allocation : list (Z * Q * Q);
  last_news_clicked : list (Z * Q * Q)
}.

Fixpoint counter_of (table : list (Z * Q * Q)) (id : Z) : Q :=
  match table with
  | [] => 0
  | (id', committed, _) :: rest =>
      if (id' =? id)%Z then committed else counter_of rest id
  end.

Definition get_promenance_cumsum (user : SyntheticUser) (news : News) : Q :=
  counter_of (last_news_in_allocation user) (news_id news).

Definition get_amount_of_clicks (user : SyntheticUser) (news : News) : Q :=
  counter_of (last_news_clicked user) (news_id news).

(** Modelled from the spec: WeightedBetaDistribution, whose class is not
    among the sources: the two count matrices, rows by category and
    columns by slot; [allocation] adds one to the assignment count of the
    item's category at the slot, [sample] returns a draw. *)
Record WeightedBetaDistribution : Type := mkBeta {
  category_per_slot_assignment_count : list (list Q);
  category_per_slot_reward_count : list (list Q)
}.

Definition new_beta (n_categories layout_slots : nat) : WeightedBetaDistribution :=
  {| category_per_slot_assignment_count := replicate n_categories (replicate layout_slots 0);
     category_per_slot_reward_count := replicate n_categories (replicate layout_slots 0) |}.

Definition bump (row col : nat) (m : list (list Q)) : list (list Q) :=
  match m !! row with
  | Some r =>
      match r !! col with
      | Some v => <[row := <[col := v + 1]> r]> m
      | None => m
      end
  | None => m
  end.

Definition beta_allocation (categories : list string) (w : WeightedBetaDistribution)
    (category : string) (slot : nat) : WeightedBetaDistribution :=
  match index_of String.eqb category categories with
  | Some c =>
      {| category_per_slot_assignment_count :=
           bump c slot (category_per_slot_assignment_count w);
         category_per_slot_reward_count := category_per_slot_reward_count w |}
  | None => w
  end.

(** The attributes of a learner that the operations below read or write. *)
Record NewsLearner : Type := mkLearner {
  categories : list string;
  real_slot_promenances : list Q;
  ads_real_slot_promenances : list Q;
  news_column_pivots : list Q;
  news_row_pivots : list Q;
  allocation_approach : string;
  lp_rand_tech : string;
  ads_allocation_approach : string;
  ads_allocation_technique : string;
  layout_slots : nat;
  ads_slots : nat;
  news_pool : list ref;
  ads_pool : list ref;
  ads_per_category : list (list ref * list ref);
  news_per_category : list nat;
  weighted_betas_matrix : list (list WeightedBetaDistribution);
  ads_weighted_beta : WeightedBetaDistribution;
  total_ads_clicks_and_displays : list (nat * nat);
  B : list Q;
  alt_B : list Q;
  full_B : list Q;
  full_lambdas : list Q;
  full_A : list (list Q);
  M : Q;
  res_A : list (list Q);
  res_B : list Q;
  res_lambdas : list Q
}.

(* ===================================================================== *)
(** ** The grid cell of a user and an item *)
(* ===================================================================== *)

(** [k = 0; while value >= pivots[k]: k += 1]. *)
Fixpoint scan_pivots (value : Q) (pivots : list Q) (k : nat) : res nat :=
  match pivots with
  | [] => Raise IndexError
  | p :: rest => if Qleb p value then scan_pivots value rest (S k) else Ok k
  end.

Definition position_along (pivots : list Q) (value : Q) : res nat :=
  top ← last_item pivots;
  if Qltb value top then scan_pivots value pivots 0%nat
  else Ok (length pivots).

Definition compute_position_in_learning_matrix (self : NewsLearner)
    (user : SyntheticUser) (news : News) : res (nat * nat) :=
  let slot_promenance_cumsum := get_promenance_cumsum user news in
  let total_num_of_clicks := get_amount_of_clicks user news in
  weighted_beta_matrix_posy ← position_along (news_column_pivots self) slot_promenance_cumsum;
  weighted_beta_matrix_posx ← position_along (news_row_pivots self) total_num_of_clicks;
  Ok (weighted_beta_matrix_posx, weighted_beta_matrix_posy).

(** The two readings of "thresholds passed". *)
Definition thresholds_reached (pivots : list Q) (value : Q) : nat :=
  length (filter (fun p => Qleb p value = true) pivots).

Definition thresholds_strictly_exceeded (pivots : list Q) (value : Q) : nat :=
  length (filter (fun p => Qltb p value = true) pivots).

(* ===================================================================== *)
(** ** Construction *)
(* ===================================================================== *)

(** The arguments of [NewsLearner.__init__] that the modelled attributes
    depend on. *)
Record init_args : Type := mkArgs {
  arg_categories : list string;
  arg_real_slot_promenances : list Q;
  arg_news_column_pivot : list Q;
  arg_news_row_pivot : list Q;
  arg_allocation_approach : string;
  arg_allocation_diversity_bounds : list Q;
  arg_lp_rand_technique : string;
  arg_ads_real_slot_promenances : list Q;
  arg_ads_allocation_approach : string;
  arg_ads_allocation_technique : string
}.

(** The defaults of the signature, for a given list of categories. *)
Definition default_args (cats : list string) : init_args :=
  {| arg_categories := cats;
     arg_real_slot_promenances := [1; 1; 1; 1; 1];
     arg_news_column_pivot := [1 # 100; 1];
     arg_news_row_pivot := [1];
     arg_allocation_approach := "standard";
     arg_allocation_diversity_bounds :=
       [1 # 10; 1 # 10; 1 # 10; 1 # 10; 1 # 10; 1 # 10];
     arg_lp_rand_technique := "rand_1";
     arg_ads_real_slot_promenances := [1; 1];
     arg_ads_allocation_approach := "wpdda";
     arg_ads_allocation_technique := "LP" |}.

Inductive warning : Type :=
| BoundsDoNotMatchCategories.

(** The first loop: reject a negative bound, add up the others in a
    running float total. *)
Fixpoint sum_of_bounds (total : Q) (bounds : list Q) : res Q :=
  match bounds with
  | [] => Ok total
  | bound :: rest =>
      if Qltb bound 0 then Raise RuntimeError
      else sum_of_bounds (float_add total bound) rest
  end.

(** Extension or truncation of the bounds to the number of categories. *)
Definition fit_bounds (bounds : list Q) (n_categories : nat)
    : res (list Q * list warning) :=
  if negb (length bounds =? n_categories)%nat then
    if (length bounds <? n_categories)%nat then
      let gap := (n_categories - length bounds)%nat in
      final ← last_item bounds;
      Ok (bounds ++ replicate gap final, [BoundsDoNotMatchCategories])
    else Ok (take n_categories bounds, [BoundsDoNotMatchCategories])
  else Ok (bounds, []).

Fixpoint check_prominences (proms : list Q) : res unit :=
  match proms with
  | [] => Ok tt
  | prominence :: rest =>
      if Qltb 1 prominence || Qltb prominence 0 then Raise RuntimeError
      else check_prominences rest
  end.

Definition big_M : Q := 1000.

(** The rows of [res_A]: slot capacities, bin capacities, then the
    competitor exclusion of each category. *)
Definition res_slot_rows (n_cat slots : nat) : list (list Q) :=
  map (fun i =>
         let row := replicate (2 * (n_cat * slots)) 0 in
         stride_fill (length row) i slots 1 row)
      (seq 0 slots).

Definition res_bin_rows (n_cat slots : nat) : list (list Q) :=
  map (fun b =>
         let initial_index := (b * slots)%nat in
         slice_assign initial_index (initial_index + slots) (replicate slots 1)
           (replicate (2 * (n_cat * slots)) 0))
      (seq 0 (2 * n_cat)).

Definition res_exclusion_rows (n_cat slots : nat) (m : Q) : list (list Q) :=
  map (fun c =>
         let initial_index := (c * (2 * slots))%nat in
         let var_initial_index := (slots + c * (2 * slots))%nat in
         let row := replicate (2 * n_cat * slots) 0 in
         let row := slice_assign initial_index (initial_index + 2 * slots)
                      (replicate (2 * slots) 1) row in
         slice_assign var_initial_index (var_initial_index + slots)
           (replicate slots (1 + m)) row)
      (seq 0 n_cat).

Definition init (args : init_args) : res (NewsLearner * list warning) :=
  let cats := arg_categories args in
  let proms := arg_real_slot_promenances args in
  let ads_proms := arg_ads_real_slot_promenances args in
  total_sum_of_bounds ← sum_of_bounds 0 (arg_allocation_diversity_bounds args);
  if Qltb (float_sum proms) total_sum_of_bounds then Raise RuntimeError else
  fitted ← fit_bounds (arg_allocation_diversity_bounds args) (length cats);
  let '(allocation_diversity_bounds, warnings) := fitted in
  _ ← check_prominences (proms ++ ads_proms);
  let n := length cats in
  let slots := length proms in
  let a_slots := length ads_proms in
  let rows := S (length (arg_news_row_pivot args)) in
  let cols := S (length (arg_news_column_pivot args)) in
  let num_of_bins := (rows * cols - (rows - 1))%nat in
  Ok ({| categories := cats;
         real_slot_promenances := proms;
         ads_real_slot_promenances := ads_proms;
         news_column_pivots := arg_news_column_pivot args;
         news_row_pivots := arg_news_row_pivot args;
         allocation_approach := arg_allocation_approach args;
         lp_rand_tech := arg_lp_rand_technique args;
         ads_allocation_approach := arg_ads_allocation_approach args;
         ads_allocation_technique := arg_ads_allocation_technique args;
         layout_slots := slots;
         ads_slots := a_slots;
         news_pool := [];
         ads_pool := [];
         ads_per_category := replicate n ([], []);
         news_per_category := replicate n 0%nat;
         weighted_betas_matrix := replicate rows (replicate cols (new_beta n slots));
         ads_weighted_beta := new_beta n a_slots;
         total_ads_clicks_and_displays := [];
         B := map Qopp allocation_diversity_bounds ++ replicate (slots + n * slots) 1;
         alt_B := replicate (num_of_bins * n) 0 ++ replicate slots 1
                    ++ map Qopp allocation_diversity_bounds;
         full_B := map Qopp allocation_diversity_bounds ++ replicate slots 1;
         full_lambdas := [];
         full_A := [];
         M := big_M;
         res_A := res_slot_rows n a_slots ++ res_bin_rows n a_slots
                    ++ res_exclusion_rows n a_slots big_M;
         res_B := replicate a_slots 1
                    ++ replicate (2 * n) (inject_Z (Z.of_nat a_slots))
                    ++ replicate n (1 + big_M);
         res_lambdas := concat (replicate (2 * n) ads_proms) |},
      warnings).

(** The diversity bounds a learner works with, read back from [B]. *)
Definition diversity_bounds (self : NewsLearner) : list Q :=
  map Qopp (take (length (categories self)) (B self)).

(* ===================================================================== *)
(** ** Attribute updates *)
(* ===================================================================== *)

Definition with_news_pool (pool : list ref) (s : NewsLearner) : NewsLearner :=
  mkLearner (categories s) (real_slot_promenances s)
    (ads_real_slot_promenances s) (news_column_pivots s) (news_row_pivots s)
    (allocation_approach s) (lp_rand_tech s) (ads_allocation_approach s)
    (ads_allocation_technique s) (layout_slots s) (ads_slots s) pool
    (ads_pool s) (ads_per_category s) (news_per_category s)
    (weighted_betas_matrix s) (ads_weighted_beta s)
    (total_ads_clicks_and_displays s) (B s) (alt_B s) (full_B s)
    (full_lambdas s) (full_A s) (M s) (res_A s) (res_B s) (res_lambdas s).

Definition with_ads_pool (pool : list ref) (s : NewsLearner) : NewsLearner :=
  mkLearner (categories s) (real_slot_promenances s)
    (ads_real_slot_promenances s) (news_column_pivots s) (news_row_pivots s)
    (allocation_approach s) (lp_rand_tech s) (ads_allocation_approach s)
    (ads_allocation_technique s) (layout_slots s) (ads_slots s) (news_pool s)
    pool (ads_per_category s) (news_per_category s) (weighted_betas_matrix s)
    (ads_weighted_beta s) (total_ads_clicks_and_displays s) (B s) (alt_B s)
    (full_B s) (full_lambdas s) (full_A s) (M s) (res_A s) (res_B s)
    (res_lambdas s).

Definition with_ads_per_category (buffers : list (list ref * list ref))
    (s : NewsLearner) : NewsLearner :=
  mkLearner (categories s) (real_slot_promenances s)
    (ads_real_slot_promenances s) (news_column_pivots s) (news_row_pivots s)
    (allocation_approach s) (lp_rand_tech s) (ads_allocation_approach s)
    (ads_allocation_technique s) (layout_slots s) (ads_slots s) (news_pool s)
    (ads_pool s) buffers (news_per_category s) (weighted_betas_matrix s)
    (ads_weighted_beta s) (total_ads_clicks_and_displays s) (B s) (alt_B s)
    (full_B s) (full_lambdas s) (full_A s) (M s) (res_A s) (res_B s)
    (res_lambdas s).

Definition with_news_per_category (counts : list nat) (s : NewsLearner) : NewsLearner :=
  mkLearner (categories s) (real_slot_promenances s)
    (ads_real_slot_promenances s) (news_column_pivots s) (news_row_pivots s)
    (allocation_approach s) (lp_rand_tech s) (ads_allocation_approach s)
    (ads_allocation_technique s) (layout_slots s) (ads_slots s) (news_pool s)
    (ads_pool s) (ads_per_category s) counts (weighted_betas_matrix s)
    (ads_weighted_beta s) (total_ads_clicks_and_displays s) (B s) (alt_B s)
    (full_B s) (full_lambdas s) (full_A s) (M s) (res_A s) (res_B s)
    (res_lambdas s).

Definition with_weighted_betas_matrix (grid : list (list WeightedBetaDistribution))
    (s : NewsLearner) : NewsLearner :=
  mkLearner (categories s) (real_slot_promenances s)
    (ads_real_slot_promenances s) (news_column_pivots s) (news_row_pivots s)
    (allocation_approach s) (lp_rand_tech s) (ads_allocation_approach s)
    (ads_allocation_technique s) (layout_slots s) (ads_slots s) (news_pool s)
    (ads_pool s) (ads_per_category s) (news_per_category s) grid
    (ads_weighted_beta s) (total_ads_clicks_and_displays s) (B s) (alt_B s)
    (full_B s) (full_lambdas s) (full_A s) (M s) (res_A s) (res_B s)
    (res_lambdas s).

Definition with_ads_weighted_beta (w : WeightedBetaDistribution)
    (s : NewsLearner) : NewsLearner :=
  mkLearner (categories s) (real_slot_promenances s)
    (ads_real_slot_promenances s) (news_column_pivots s) (news_row_pivots s)
    (allocation_approach s) (lp_rand_tech s) (ads_allocation_approach s)
    (ads_allocation_technique s) (layout_slots s) (ads_slots s) (news_pool s)
    (ads_pool s) (ads_per_category s) (news_per_category s)
    (weighted_betas_matrix s) w (total_ads_clicks_and_displays s) (B s)
    (alt_B s) (full_B s) (full_lambdas s) (full_A s) (M s) (res_A s) (res_B s)
    (res_lambdas s).

Definition with_total_ads_clicks_and_displays (log : list (nat * nat))
    (s : NewsLearner) : NewsLearner :=
  mkLearner (categories s) (real_slot_promenances s)
    (ads_real_slot_promenances s) (news_column_pivots s) (news_row_pivots s)
    (allocation_approach s) (lp_rand_tech s) (ads_allocation_approach s)
    (ads_allocation_technique s) (layout_slots s) (ads_slots s) (news_pool s)
    (ads_pool s) (ads_per_category s) (news_per_category s)
    (weighted_betas_matrix s) (ads_weighted_beta s) log (B s) (alt_B s)
    (full_B s) (full_lambdas s) (full_A s) (M s) (res_A s) (res_B s)
    (res_lambdas s).

Definition with_full_problem (b lambdas : list Q) (a : list (list Q))
    (s : NewsLearner) : NewsLearner :=
  mkLearner (categories s) (real_slot_promenances s)
    (ads_real_slot_promenances s) (news_column_pivots s) (news_row_pivots s)
    (allocation_approach s) (lp_rand_tech s) (ads_allocation_approach s)
    (ads_allocation_technique s) (layout_slots s) (ads_slots s) (news_pool s)
    (ads_pool s) (ads_per_category s) (news_per_category s)
    (weighted_betas_matrix s) (ads_weighted_beta s)
    (total_ads_clicks_and_displays s) (B s) (alt_B s) b lambdas a (M s)
    (res_A s) (res_B s) (res_lambdas s).

(* ===================================================================== *)
(** ** The news pool *)
(* ===================================================================== *)

(** The list object handed to [fill_news_pool] or [fill_ads_pool]: a list
    of the caller, or the very list that the learner holds as its pool.
    The methods themselves bring the second case about: with
    [append=False] they store the list they are given and no copy of it,
    so that the caller's list is the pool from then on. *)
Inductive passed_list : Type :=
| a_list (items : list content)
| the_pool.

(** The elements of the list that was passed. *)
Definition contents (wrap : ref -> content) (pool : list ref) (l : passed_list)
    : list content :=
  match l with
  | a_list items => items
  | the_pool => wrap <$> pool
  end.

(** [for x in l: l.append(x)] on one list object: the iterator reads
    position [i] of the list as it has grown by then. [None]: not over
    within [fuel] turns. *)
Fixpoint append_to_itself {A} (fuel i : nat) (l : list A) : option (list A) :=
  match fuel with
  | O => None
  | S fuel' =>
      match l !! i with
      | Some x => append_to_itself fuel' (S i) (l ++ [x])
      | None => Some l
      end
  end.

(** [for x in l: pool.append(x)], [refs] being the elements of another
    list. *)
Definition extend_pool (fuel : nat) (pool refs : list ref) (l : passed_list)
    : option (list ref) :=
  match l with
  | a_list _ => Some (pool ++ refs)
  | the_pool => append_to_itself fuel 0 pool
  end.

(** The validation loop of [fill_news_pool]; the references of the list
    when every element passes. *)
Fixpoint validate_news_list (h : Store) (cats : list string)
    (news_list : list content) : res (list ref) :=
  match news_list with
  | [] => Ok []
  | AnAd _ :: _ => Raise RuntimeError
  | ANews r :: rest =>
      if negb (contains (news_category (news_at h r)) cats) then Raise RuntimeError
      else refs ← validate_news_list h cats rest; Ok (r :: refs)
  end.

(** [for news in pool: index = categories.index(category);
    news_per_category[index] += 1], stopping at the first unknown
    category with the counts reached so far. *)
Fixpoint count_per_category (h : Store) (cats : list string) (pool : list ref)
    (counts : list nat) : res unit * list nat :=
  match pool with
  | [] => (Ok tt, counts)
  | r :: rest =>
      match index_of String.eqb (news_category (news_at h r)) cats with
      | None => (Raise ValueError, counts)
      | Some index =>
          count_per_category h cats rest
            (match counts !! index with
             | Some c => <[index := S c]> counts
             | None => counts
             end)
      end
  end.

Definition by_category (h : Store) (x y : ref) : bool :=
  str_ltb (news_category (news_at h x)) (news_category (news_at h y)).

(** The growth of the "full" problem at the end of [fill_news_pool]. *)
Definition grow_full_problem (self : NewsLearner) : NewsLearner :=
  let slots := layout_slots self in
  let num_of_active_news := fold_right Nat.add 0%nat (news_per_category self) in
  let negated := map (fun p => p * -1) (real_slot_promenances self) in
  let width := (num_of_active_news * slots)%nat in
  let category_rows :=
    map (fun cat_index =>
           let count := default 0%nat (news_per_category self !! cat_index) in
           let initial_index :=
             (fold_right Nat.add 0 (take cat_index (news_per_category self)) * slots)%nat in
           slice_assign initial_index (initial_index + count * slots)
             (concat (replicate count negated)) (replicate width 0))
        (seq 0 (length (categories self))) in
  let slot_rows :=
    map (fun i => stride_fill width i slots 1 (replicate width 0)) (seq 0 slots) in
  let news_rows :=
    map (fun k => slice_assign (k * slots) (k * slots + slots) (replicate slots 1)
                    (replicate width 0))
        (seq 0 num_of_active_news) in
  with_full_problem
    (full_B self ++ replicate num_of_active_news 1)
    (full_lambdas self ++ concat (replicate num_of_active_news negated))
    (full_A self ++ category_rows ++ slot_rows ++ news_rows)
    self.

(** [fill_news_pool] once the pool holds the new items: under "full" the
    whole pool is counted again and sorted by category; then the "full"
    problem grows. *)
Definition recount_and_grow (h : Store) (self : NewsLearner) : res unit * NewsLearner :=
  if String.eqb (allocation_approach self) "full" then
    match count_per_category h (categories self) (news_pool self)
            (news_per_category self) with
    | (Raise e, counts) => (Raise e, with_news_per_category counts self)
    | (Ok _, counts) =>
        let self := with_news_per_category counts self in
        let self := with_news_pool (py_sort (by_category h) (news_pool self)) self in
        (Ok tt, grow_full_problem self)
    end
  else (Ok tt, grow_full_problem self).

(** [fill_news_pool]. With [append=False] the pool becomes the list
    object that was passed; with [append=True] the elements of that
    object are appended to the pool one by one. [None]: the call has not
    returned within [fuel] turns of the appending loop. *)
Definition fill_news_pool (fuel : nat) (h : Store) (self : NewsLearner)
    (news_list : passed_list) (append : bool) : option (res unit * NewsLearner) :=
  match validate_news_list h (categories self)
          (contents ANews (news_pool self) news_list) with
  | Raise e => Some (Raise e, self)
  | Ok refs =>
      pool ← (if append then extend_pool fuel (news_pool self) refs news_list
              else Some refs);
      Some (recount_and_grow h (with_news_pool pool self))
  end.

Definition insert_into_news_pool (self : NewsLearner) (news : ref) : NewsLearner :=
  with_news_pool (news_pool self ++ [news]) self.

(* ===================================================================== *)
(** ** The ads pool *)
(* ===================================================================== *)

Fixpoint validate_ads_list (h : Store) (cats : list string)
    (ads_list : list content) : res (list ref) :=
  match ads_list with
  | [] => Ok []
  | ANews _ :: _ => Raise RuntimeError
  | AnAd r :: rest =>
      if negb (contains (ad_category (ad_at h r)) cats) then Raise RuntimeError
      else refs ← validate_ads_list h cats rest; Ok (r :: refs)
  end.

(** [ads_per_category[cat_index][ex_index].append(ad)] for every ad. *)
Fixpoint buffer_ads (h : Store) (cats : list string) (ads : list ref)
    (buffers : list (list ref * list ref)) : res unit * list (list ref * list ref) :=
  match ads with
  | [] => (Ok tt, buffers)
  | ad :: rest =>
      match index_of String.eqb (ad_category (ad_at h ad)) cats with
      | None => (Raise ValueError, buffers)
      | Some cat_index =>
          match buffers !! cat_index with
          | None => (Raise IndexError, buffers)
          | Some (open, exclusive) =>
              buffer_ads h cats rest
                (<[cat_index :=
                     if exclude_competitors (ad_at h ad)
                     then (open, exclusive ++ [ad])
                     else (open ++ [ad], exclusive)]> buffers)
          end
      end
  end.

(** [fill_ads_pool]. The pool is made as in [fill_news_pool]; the last
    loop walks the list object that was passed, which is the pool itself
    when the pool was passed. *)
Definition fill_ads_pool (fuel : nat) (h : Store) (self : NewsLearner)
    (ads_list : passed_list) (append : bool) : option (res unit * NewsLearner) :=
  match validate_ads_list h (categories self)
          (contents AnAd (ads_pool self) ads_list) with
  | Raise e => Some (Raise e, self)
  | Ok refs =>
      pool ← (if append then extend_pool fuel (ads_pool self) refs ads_list
              else Some refs);
      let self := with_ads_pool pool self in
      let walked := match ads_list with a_list _ => refs | the_pool => pool end in
      let '(r, buffers) := buffer_ads h (categories self) walked (ads_per_category self) in
      Some (r, with_ads_per_category buffers self)
  end.

(** [l[i]] and [del l[i]] for a negative [i]. *)
Definition from_end {A} (l : list A) (i : Z) : res nat :=
  if (0 <=? Z.of_nat (length l) + i)%Z
  then Ok (Z.to_nat (Z.of_nat (length l) + i))
  else Raise IndexError.

(** [for i in range(-len(pool), 0): if pool[i] in ads_list: del pool[i]],
    the range being fixed before the first deletion. *)
Fixpoint remove_loop (ads_list : list ref) (indices : list Z) (pool : list ref)
    : res unit * list ref :=
  match indices with
  | [] => (Ok tt, pool)
  | i :: rest =>
      match (k ← from_end pool i; x ← getitem pool k; Ok (k, x)) with
      | Raise e => (Raise e, pool)
      | Ok (k, x) =>
          if contains x ads_list
          then remove_loop ads_list rest (delete k pool)
          else remove_loop ads_list rest pool
      end
  end.

Definition negative_range (n : nat) : list Z :=
  map (fun t => (Z.of_nat t - Z.of_nat n)%Z) (seq 0 n).

(** [l.remove(x)]: drops the first occurrence, [ValueError] without one. *)
Definition list_remove (x : ref) (l : list ref) : res (list ref) :=
  match index_of Nat.eqb x l with
  | Some k => Ok (delete k l)
  | None => Raise ValueError
  end.

(** The purge of the per-category buffers. *)
Fixpoint purge_buffers (h : Store) (cats : list string) (ads_list : list ref)
    (buffers : list (list ref * list ref)) : res unit * list (list ref * list ref) :=
  match ads_list with
  | [] => (Ok tt, buffers)
  | ad :: rest =>
      match index_of String.eqb (ad_category (ad_at h ad)) cats with
      | None => (Raise ValueError, buffers)
      | Some cat_index =>
          match buffers !! cat_index with
          | None => (Raise IndexError, buffers)
          | Some (open, exclusive) =>
              let removed :=
                if exclude_competitors (ad_at h ad)
                then (fun l => (open, l)) <$> list_remove ad exclusive
                else (fun l => (l, exclusive)) <$> list_remove ad open in
              match removed with
              | Raise e => (Raise e, buffers)
              | Ok both => purge_buffers h cats rest (<[cat_index := both]> buffers)
              end
          end
      end
  end.

Definition remove_ad_from_pool (h : Store) (self : NewsLearner) (ads_list : list ref)
    : res unit * NewsLearner :=
  match remove_loop ads_list (negative_range (length (ads_pool self))) (ads_pool self) with
  | (Raise e, pool) => (Raise e, with_ads_pool pool self)
  | (Ok _, pool) =>
      let self := with_ads_pool pool self in
      if String.eqb (ads_allocation_technique self) "resLP" then
        let '(r, buffers) :=
          purge_buffers h (categories self) ads_list (ads_per_category self) in
        (r, with_ads_per_category buffers self)
      else (Ok tt, self)
  end.

(* ===================================================================== *)
(** ** Sampling and the allocation of a page *)
(* ===================================================================== *)

(** Modelled from the spec: [WeightedBetaDistribution.sample], a number
    of [[0,1]] drawn for a category; the draw is the oracle's. *)
Definition beta_sample (rng : oracle) (n : nat) (w : WeightedBetaDistribution)
    (category : string) : Q := rng n.

(** What one visit reads and writes: the learner, the objects, the
    visiting user and the number of draws taken from the oracle. *)
Record Sys : Type := mkSys {
  learner : NewsLearner;
  store : Store;
  visitor : SyntheticUser;
  draws : nat
}.

Definition grid_cell (self : NewsLearner) (posx posy : nat) : res WeightedBetaDistribution :=
  row ← getitem (weighted_betas_matrix self) posx;
  getitem row posy.

(** [sample_quality] on a News of the pool. *)
Definition sample_quality (rng : oracle) (st : Sys) (r : ref) (interest_decay : bool)
    : res unit * Sys :=
  let news := news_at (store st) r in
  let cell :=
    if interest_decay then
      pos ← compute_position_in_learning_matrix (learner st) (visitor st) news;
      grid_cell (learner st) pos.1 pos.2
    else grid_cell (learner st) 0 0 in
  match cell with
  | Raise e => (Raise e, st)
  | Ok w =>
      (Ok tt,
       mkSys (learner st)
         (set_sampled_quality (store st) r
            (beta_sample rng (draws st) w (news_category news)))
         (visitor st) (S (draws st)))
  end.

Fixpoint sample_pool (rng : oracle) (st : Sys) (pool : list ref) (interest_decay : bool)
    : res unit * Sys :=
  match pool with
  | [] => (Ok tt, st)
  | r :: rest =>
      match sample_quality rng st r interest_decay with
      | (Raise e, st') => (Raise e, st')
      | (Ok _, st') => sample_pool rng st' rest interest_decay
      end
  end.

(** [key=lambda x: x.sampled_quality, reverse=True]. *)
Definition by_quality_desc (h : Store) (x y : ref) : bool :=
  Qltb (sampled_quality (news_at h y)) (sampled_quality (news_at h x)).

(** The loop of the standard approach: the best remaining slot takes the
    head of the sorted pool. *)
Fixpoint standard_loop (count : nat) (tmp_news_pool : list ref)
    (slot_promenances : list Q) (result : list (option ref))
    : res (list (option ref)) :=
  match count with
  | O => Ok result
  | S count' =>
      target_slot_index ← argmax slot_promenances;
      match tmp_news_pool with
      | [] => Raise IndexError
      | assigning_news :: rest =>
          result ← setitem target_slot_index (Some assigning_news) result;
          slot_promenances ← setitem target_slot_index (-1) slot_promenances;
          standard_loop count' rest slot_promenances result
      end
  end.

(** Modelled from the spec: the position of an item in a user's table,
    [-1] without one ([get_only_index=True]). *)
Fixpoint index_in_table (table : list (Z * Q * Q)) (id : Z) : option nat :=
  match table with
  | [] => None
  | row :: rest =>
      if (row.1.1 =? id)%Z then Some 0%nat else S <$> index_in_table rest id
  end.

(** The scan for the place of a new row between two neighbours. *)
Fixpoint insert_between (ks : list nat) (id : Z) (prom : Q)
    (table : list (Z * Q * Q)) (inserted : bool) : res (list (Z * Q * Q) * bool) :=
  match ks with
  | [] => Ok (table, inserted)
  | k :: rest =>
      below ← getitem table k;
      above ← getitem table (S k);
      if (below.1.1 <? id)%Z && (id <? above.1.1)%Z
      then insert_between rest id prom (list_insert_at (S k) (id, 0, prom) table) true
      else insert_between rest id prom table inserted
  end.

(** The record, in the user's table, that an item was shown in a slot of
    prominence [prom]. *)
Definition note_allocation (user : SyntheticUser) (id : Z) (prom : Q) : res SyntheticUser :=
  let table := last_news_in_allocation user in
  table' ←
    match index_in_table table id with
    | None =>
        let len := length table in
        scanned ←
          (if (2 <=? len)%nat then
             scanned ← insert_between (seq 0 (len - 1)) id prom table false;
             let '(table, inserted) := scanned in
             if negb inserted then
               first ← getitem table 0;
               if (id <? first.1.1)%Z then Ok ((id, 0, prom) :: table, true)
               else Ok (table, inserted)
             else Ok (table, inserted)
           else if (len =? 1)%nat then
             first ← getitem table 0;
             if (id <? first.1.1)%Z then Ok ((id, 0, prom) :: table, true)
             else Ok (table, false)
           else Ok (table, false));
        let '(table, inserted) := scanned in
        Ok (if negb inserted then table ++ [(id, 0, prom)] else table)
    | Some index =>
        row ← getitem table index;
        Ok (<[index := (row.1.1, row.1.2, row.2 + prom)]> table)
    end;
  Ok (mkUser table' (last_news_clicked user)).

Definition put_grid_cell (self : NewsLearner) (posx posy : nat)
    (w : WeightedBetaDistribution) : NewsLearner :=
  with_weighted_betas_matrix
    (match weighted_betas_matrix self !! posx with
     | Some row => <[posx := <[posy := w]> row]> (weighted_betas_matrix self)
     | None => weighted_betas_matrix self
     end) self.

(** One turn of the loop that reports the page to the reward model. *)
Definition update_slot (st : Sys) (result : list (option ref)) (i : nat)
    (interest_decay : bool) : res unit * Sys :=
  match result !! i with
  | None => (Raise IndexError, st)
  | Some None => (Raise AttributeError, st)
  | Some (Some r) =>
      let self := learner st in
      let news := news_at (store st) r in
      if interest_decay then
        match (pos ← compute_position_in_learning_matrix self (visitor st) news;
               w ← grid_cell self pos.1 pos.2; Ok (pos, w)) with
        | Raise e => (Raise e, st)
        | Ok (pos, w) =>
            let self :=
              put_grid_cell self pos.1 pos.2
                (beta_allocation (categories self) w (news_category news) i) in
            let h :=
              if String.eqb (allocation_approach self) "alt_LP"
                 && (1 <? length (filter (fun x => x = Some r) result))%nat
              then set_doubled_news_indexes (store st) r pos
              else store st in
            match (assigned_slot_promenance ← getitem (real_slot_promenances self) i;
                   note_allocation (visitor st) (news_id news) assigned_slot_promenance) with
            | Raise e => (Raise e, mkSys self h (visitor st) (draws st))
            | Ok user => (Ok tt, mkSys self h user (draws st))
            end
        end
      else
        match grid_cell self 0 0 with
        | Raise e => (Raise e, st)
        | Ok w =>
            (Ok tt,
             mkSys (put_grid_cell self 0 0
                      (beta_allocation (categories self) w (news_category news) i))
                   (store st) (visitor st) (draws st))
        end
  end.

Fixpoint update_slots (st : Sys) (result : list (option ref)) (slots : list nat)
    (interest_decay : bool) : res unit * Sys :=
  match slots with
  | [] => (Ok tt, st)
  | i :: rest =>
      match update_slot st result i interest_decay with
      | (Raise e, st') => (Raise e, st')
      | (Ok _, st') => update_slots st' result rest interest_decay
      end
  end.

Section FindBestAllocation.

(** The strategies "LP", "alt_LP" and "full" end in a call of
    [scipy.optimize.linprog] or of PuLP; what they return and how they
    leave the system is taken as given. *)
Variable solver_strategy : string -> Sys -> res (list (option ref)) * Sys.

Definition find_best_allocation (rng : oracle) (st : Sys)
    (interest_decay update_assignment_matrices : bool)
    : res (list (option ref)) * Sys :=
  let self := learner st in
  if (length (news_pool self) <? layout_slots self)%nat then (Raise RuntimeError, st)
  else
    let result_news_allocation := replicate (layout_slots self) (@None ref) in
    let sampled :=
      if negb (String.eqb (allocation_approach self) "alt_LP")
      then sample_pool rng st (news_pool self) interest_decay
      else (Ok tt, st) in
    match sampled with
    | (Raise e, st) => (Raise e, st)
    | (Ok _, st) =>
        let self := learner st in
        let allocated :=
          if String.eqb (allocation_approach self) "standard" then
            let pool := py_sort (by_quality_desc (store st)) (news_pool self) in
            let st := mkSys (with_news_pool pool self) (store st) (visitor st) (draws st) in
            (standard_loop (length (real_slot_promenances self)) pool
               (real_slot_promenances self) result_news_allocation, st)
          else if String.eqb (allocation_approach self) "LP"
                  || String.eqb (allocation_approach self) "alt_LP"
                  || String.eqb (allocation_approach self) "full"
          then solver_strategy (allocation_approach self) st
          else (Raise RuntimeError, st) in
        match allocated with
        | (Raise e, st) => (Raise e, st)
        | (Ok result_news_allocation, st) =>
            if update_assignment_matrices then
              match update_slots st result_news_allocation
                      (seq 0 (length result_news_allocation)) interest_decay with
              | (Raise e, st) => (Raise e, st)
              | (Ok _, st) => (Ok result_news_allocation, st)
              end
            else (Ok result_news_allocation, st)
        end
    end.

End FindBestAllocation.

(* ===================================================================== *)
(** ** The candidates of the linear problem *)
(* ===================================================================== *)

(** [key=lambda x: (x.news_category, x.sampled_quality), reverse=True]:
    [y] strictly precedes [x] when its key is the greater one. *)
Definition by_category_quality_desc (h : Store) (y x : ref) : bool :=
  let cy := news_category (news_at h y) in
  let cx := news_category (news_at h x) in
  str_ltb cx cy
  || (String.eqb cx cy
      && Qltb (sampled_quality (news_at h x)) (sampled_quality (news_at h y))).

(** The scan of the sorted pool: the first [layout_slots] items of each
    category; a change of category after fewer items raises. *)
Fixpoint take_per_category (h : Store) (slots : nat) (pool : list ref)
    (prev_category : string) (category_count : nat) (done_for_category : bool)
    (LP_news_pool : list ref) : res (list ref) :=
  match pool with
  | [] => Ok LP_news_pool
  | news :: rest =>
      let category := news_category (news_at h news) in
      let changed := negb (String.eqb prev_category category) in
      if changed && (category_count <? slots)%nat then Raise RuntimeWarning
      else
        let category_count := if changed then 0%nat else category_count in
        let done_for_category := if changed then false else done_for_category in
        let prev_category := if changed then category else prev_category in
        let LP_news_pool :=
          if done_for_category then LP_news_pool else LP_news_pool ++ [news] in
        let category_count :=
          if done_for_category then category_count else S category_count in
        let done_for_category :=
          if (category_count =? slots)%nat then true else done_for_category in
        take_per_category h slots rest prev_category category_count
          done_for_category LP_news_pool
  end.

(** The padding loop; it has no bound of its own, [fuel] counts its
    turns and [None] says that they did not suffice. *)
Fixpoint pad_at_random (fuel : nat) (rng : oracle) (n : nat) (pool : list ref)
    (wanted : nat) (LP_news_pool : list ref) : option (res (list ref * nat)) :=
  if (length LP_news_pool <? wanted)%nat then
    match fuel with
    | O => None
    | S fuel' =>
        match choice (rng n) pool with
        | Raise e => Some (Raise e)
        | Ok random_news =>
            pad_at_random fuel' rng (S n) pool wanted
              (if contains random_news LP_news_pool then LP_news_pool
               else LP_news_pool ++ [random_news])
        end
    end
  else Some (Ok (LP_news_pool, n)).

(** The first phase of [__solve_linear_problem]: the sorted pool and the
    candidates handed to the solver. *)
Definition select_candidates (fuel : nat) (rng : oracle) (n : nat) (h : Store)
    (self : NewsLearner) : option (res (list ref * nat)) * NewsLearner :=
  let pool := py_sort (by_category_quality_desc h) (news_pool self) in
  let self := with_news_pool pool self in
  match pool with
  | [] => (Some (Raise IndexError), self)
  | first :: _ =>
      match take_per_category h (layout_slots self) pool
              (news_category (news_at h first)) 0 false [] with
      | Raise e => (Some (Raise e), self)
      | Ok LP_news_pool =>
          (match pad_at_random fuel rng n pool
                   (length (categories self) * layout_slots self) LP_news_pool with
           | Some (Ok (padded, n')) => Some (Ok (py_sort (by_category h) padded, n'))
           | other => other
           end, self)
      end
  end.

(* ===================================================================== *)
(** ** De-randomization of a fractional solution *)
(* ===================================================================== *)

Record dr_state : Type := mkDr {
  dr_result : list (option ref);
  tmp_slot_promenances : list Q;
  feasible_news : list nat;
  slot_probabilities : list (list Q);
  allocated_slots : list nat;
  dr_draws : nat
}.

Fixpoint res_mapM {A B} (f : A -> res B) (l : list A) : res (list B) :=
  match l with
  | [] => Ok []
  | x :: rest => y ← f x; ys ← res_mapM f rest; Ok (y :: ys)
  end.

(** The damping of "rand_3": the weights of the target slot times one
    minus the weights of every other slot not yet served, each difference
    and each product a float operation. *)
Fixpoint dampen (ps : list nat) (probs : list (list Q)) (allocated : list nat)
    (target_slot : nat) (weights : list Q) : res (list Q) :=
  match ps with
  | [] => Ok weights
  | p :: rest =>
      if negb (contains p allocated) && negb (p =? target_slot)%nat then
        other ← getitem probs p;
        weights ← np_mul_rounded weights (map (float_sub 1) other);
        dampen rest probs allocated target_slot weights
      else dampen rest probs allocated target_slot weights
  end.

Definition is_rand_1_or_3 (tech : string) : bool :=
  String.eqb tech "rand_1" || String.eqb tech "rand_3".

(** The slot served next: the first of largest remaining prominence, or,
    for "rand_2", one drawn with probability proportional to its
    remaining prominence; with it, the number of draws taken so far. *)
Definition pick_slot (rng : oracle) (tech : string) (st : dr_state) : res (nat * nat) :=
  let n := dr_draws st in
  if is_rand_1_or_3 tech then
    target_slot ← argmax (tmp_slot_promenances st); Ok (target_slot, n)
  else
    norm ← from_option ValueError (normalize (tmp_slot_promenances st));
    target_slot_promenance ← choice_p (rng n) (tmp_slot_promenances st) norm;
    target_slot ← from_option ValueError
                    (index_of Qeqb target_slot_promenance (tmp_slot_promenances st));
    Ok (target_slot, S n).

(** The weights of the candidates for the target slot, damped under
    "rand_3", and the slots recorded as allocated. *)
Definition slot_weights (tech : string) (st : dr_state) (target_slot : nat)
    : res (list Q * list nat) :=
  weights ← getitem (slot_probabilities st) target_slot;
  if String.eqb tech "rand_3" then
    weights ← dampen (seq 0 (length (slot_probabilities st)))
                (slot_probabilities st) (allocated_slots st) target_slot weights;
    Ok (weights, allocated_slots st ++ [target_slot])
  else Ok (weights, allocated_slots st).

(** One turn of the loop of [__de_randomize_LP]. *)
Definition de_randomize_step (rng : oracle) (LP_news_pool : list ref)
    (tech : string) (st : dr_state) : res dr_state :=
  chosen ← pick_slot rng tech st;
  let '(target_slot, n) := chosen in
  damped ← slot_weights tech st target_slot;
  let '(weights, allocated) := damped in
  norm ← from_option ValueError (normalize weights);
  selected_news ← choice_p (rng n) (feasible_news st) (map Qabs norm);
  item ← getitem LP_news_pool selected_news;
  result ← setitem target_slot (Some item) (dr_result st);
  deletion_index ← from_option ValueError
                     (index_of Nat.eqb selected_news (feasible_news st));
  feasible ← delitem deletion_index (feasible_news st);
  probs ← res_mapM (delitem deletion_index) (slot_probabilities st);
  promenances ← setitem target_slot 0 (tmp_slot_promenances st);
  Ok (mkDr result promenances feasible probs allocated (S n)).

Fixpoint de_randomize_loop (count : nat) (rng : oracle) (LP_news_pool : list ref)
    (tech : string) (st : dr_state) : res dr_state :=
  match count with
  | O => Ok st
  | S count' =>
      st' ← de_randomize_step rng LP_news_pool tech st;
      de_randomize_loop count' rng LP_news_pool tech st'
  end.

(** [__de_randomize_LP]: the page and the number of draws consumed. *)
Definition de_randomize_LP (rng : oracle) (n : nat) (self : NewsLearner)
    (LP_news_pool : list ref) (tmp_slots_assignation_probabilities : list (list Q))
    (de_rand_technique : string) : res (list (option ref) * nat) :=
  st ← de_randomize_loop (layout_slots self) rng LP_news_pool de_rand_technique
         (mkDr (replicate (layout_slots self) None)
               (real_slot_promenances self)
               (seq 0 (length LP_news_pool))
               tmp_slots_assignation_probabilities [] n);
  Ok (dr_result st, dr_draws st).

(* ===================================================================== *)
(** ** The allocation of the ads *)
(* ===================================================================== *)

Definition set_ad (h : Store) (r : ref) (a : Ad) : Store :=
  {| news_at := news_at h;
     ad_at := fun r' => if decide (r' = r) then a else ad_at h r' |}.

Definition set_ad_sampled_quality (h : Store) (r : ref) (value : Q) : Store :=
  let a := ad_at h r in
  set_ad h r (mkAd (ad_id a) (ad_category a) value (bid a) (buyer a)
                   (exclude_competitors a)).

Definition set_as_buyer (h : Store) (r : ref) : Store :=
  let a := ad_at h r in
  set_ad h r (mkAd (ad_id a) (ad_category a) (ad_sampled_quality a) (bid a) true
                   (exclude_competitors a)).

(** An integer program [maximise objective . x] under [row . x <= rhs]
    for every constraint and [0 <= x_j <= upper_bound]. *)
Record ilp : Type := mkIlp {
  objective : list Q;
  constraints : list (list Q * Q);
  upper_bound : Z
}.

Definition dot (row : list Q) (x : list Z) : Q :=
  Qsum (zip_with (fun a v => a * inject_Z v) row x).

Definition feasible (p : ilp) (x : list Z) : Prop :=
  length x = length (objective p)
  /\ Forall (fun v => (0 <= v <= upper_bound p)%Z) x
  /\ Forall (fun c => dot c.1 x <= c.2) (constraints p).

Definition optimal (p : ilp) (x : list Z) : Prop :=
  feasible p x
  /\ forall y, feasible p y -> dot (objective p) y <= dot (objective p) x.

(** The sampled quality of one bin: a draw for one of its ads taken at
    random, [1] for an empty bin. *)
Definition bin_sample (rng : oracle) (n : nat) (bin : list ref) : Q * nat :=
  match choice (rng n) bin with
  | Raise _ => (1, n)
  | Ok _ => (rng (S n), S (S n))
  end.

Fixpoint category_samples (rng : oracle) (n : nat)
    (buffers : list (list ref * list ref)) : list Q * nat :=
  match buffers with
  | [] => ([], n)
  | (open, exclusive) :: rest =>
      let '(s0, n) := bin_sample rng n open in
      let '(s1, n) := bin_sample rng n exclusive in
      let '(samples, n) := category_samples rng n rest in
      (s0 :: s1 :: samples, n)
  end.

(** [lpSum([LP_variables[j] * row[j] for j in range(len(res_C))])]. *)
Definition cut_row (width : nat) (row : list Q) : res (list Q) :=
  if (width <=? length row)%nat then Ok (take width row) else Raise IndexError.

Definition bin_size (self : NewsLearner) (x y : nat) : res nat :=
  bins ← getitem (ads_per_category self) x;
  Ok (length (if (y =? 0)%nat then bins.1 else bins.2)).

(** The restricted program of the ads, built from [res_A] and [res_B]. *)
Definition restricted_problem (self : NewsLearner) (res_C : list Q) : res ilp :=
  let n := length (categories self) in
  let s := ads_slots self in
  let width := length res_C in
  let plain i :=
    row ← getitem (res_A self) i;
    row ← cut_row width row;
    b ← getitem (res_B self) i;
    Ok (row, b) in
  let capped i :=
    rb ← plain i;
    size ← bin_size self ((i - s) / 2) ((i - s) mod 2);
    let size := inject_Z (Z.of_nat size) in
    Ok (rb.1, if Qltb size rb.2 then size else rb.2) in
  slot_rows ← res_mapM plain (seq 0 s);
  bin_rows ← res_mapM capped (seq s (2 * n));
  exclusion_rows ← res_mapM plain (seq (s + 2 * n) n);
  Ok (mkIlp res_C (slot_rows ++ bin_rows ++ exclusion_rows) (Z.of_nat s)).

Record lp_variable : Type := mkVar {
  var_category : nat;
  var_exclusive : nat;
  var_slot : nat;
  varValue : option Z
}.

Definition decimal (n : nat) : string := NilEmpty.string_of_uint (Nat.to_uint n).

Definition var_name (v : lp_variable) : string :=
  decimal (var_category v) ++ "_" ++ decimal (var_exclusive v) ++ "_"
    ++ decimal (var_slot v).

(** The variables in the order of their creation, with the values of the
    solver. *)
Definition created_variables (n_cat slots : nat) (values : list (option Z))
    : list lp_variable :=
  imap (fun idx '(i, j, k) => mkVar i j k (mjoin (values !! idx)))
       (i ← seq 0 n_cat; j ← [0; 1]%nat; k ← seq 0 slots; [(i, j, k)]).

(** [LP.variables()]: sorted by name. *)
Definition by_name (y x : lp_variable) : bool := str_ltb (var_name y) (var_name x).

(** The entries [i], [i + stride], ... of a list. *)
Fixpoint strided {A} (fuel i stride : nat) (l : list A) : list A :=
  match fuel with
  | O => []
  | S fuel' =>
      match l !! i with
      | Some x => x :: strided fuel' (i + stride) stride l
      | None => []
      end
  end.

(** The first variable with a positive value; a variable without a
    value is passed over. *)
Fixpoint first_positive (vars : list lp_variable) : option lp_variable :=
  match vars with
  | [] => None
  | v :: rest =>
      match varValue v with
      | Some value => if (0 <? value)%Z then Some v else first_positive rest
      | None => first_positive rest
      end
  end.

(** The loop that turns the solution into ads, slot by slot; [var_name]
    keeps the name found for an earlier slot when the current slot has no
    positive variable. *)
Fixpoint place_ads (rng : oracle) (n : nat) (self : NewsLearner)
    (slots : list (nat * list lp_variable)) (name : option lp_variable)
    (result : list (option ref)) : res (list (option ref) * nat) :=
  match slots with
  | [] => Ok (result, n)
  | (i, vars) :: rest =>
      let name :=
        match first_positive vars with Some v => Some v | None => name end in
      match name with
      | None => Raise SystemExit
      | Some v =>
          bins ← getitem (ads_per_category self) (var_category v);
          bin ← getitem [bins.1; bins.2] (var_exclusive v);
          assigning_news ← choice (rng n) bin;
          result ←
            (if contains (Some assigning_news) result then Ok result
             else setitem i (Some assigning_news) result);
          place_ads rng (S n) self rest name result
      end
  end.

Fixpoint resample_ads (rng : oracle) (n : nat) (h : Store) (ads : list ref)
    : Store * nat :=
  match ads with
  | [] => (h, n)
  | ad :: rest => resample_ads rng (S n) (set_ad_sampled_quality h ad (rng n)) rest
  end.

(** The first half of [__solve_ads_restricted_linear_problem]: the
    sampled quality of every bin and the program handed to the solver,
    with the number of draws taken. *)
Definition restricted_program (rng : oracle) (st : Sys) : res ilp * nat :=
  let self := learner st in
  let '(samples, n) := category_samples rng (draws st) (ads_per_category self) in
  let C := concat (map (fun sample => replicate (ads_slots self) (sample * 1)) samples) in
  (res_C ← np_mul C (res_lambdas self); restricted_problem self res_C, n).

(** The second half, for a learner without sibling learners: the values
    of the solver turned into ads, whose quality is then sampled anew. *)
Definition place_solution (rng : oracle) (st : Sys) (n : nat)
    (values : list (option Z)) : res (list ref) * Sys :=
  let self := learner st in
  let variables :=
    py_sort by_name
      (created_variables (length (categories self)) (ads_slots self) values) in
  match place_ads rng n self
          (map (fun i => (i, strided (length variables) i (ads_slots self) variables))
               (seq 0 (ads_slots self)))
          None (replicate (ads_slots self) None) with
  | Raise e => (Raise e, mkSys self (store st) (visitor st) n)
  | Ok (result, n) =>
      let final_result := omap id result in
      let '(h, n) := resample_ads rng n (store st) final_result in
      (Ok final_result, mkSys self h (visitor st) n)
  end.

Section AdsAllocation.

(** The answer of the PuLP solver: the value of each variable, in the
    order of their creation. *)
Variable lp_solve : ilp -> list (option Z).

(** The program of "LP", solved by PuLP as well, is taken as given. *)
Variable solve_ads_integer_linear_problem : Sys -> res (list ref) * Sys.

Definition solve_ads_restricted_linear_problem (rng : oracle) (st : Sys)
    : res (list ref) * Sys :=
  match restricted_program rng st with
  | (Raise e, n) => (Raise e, mkSys (learner st) (store st) (visitor st) n)
  | (Ok problem, n) => place_solution rng st n (lp_solve problem)
  end.

(** The display filter of "pdda" and "wpdda". *)
Fixpoint display_filter (rng : oracle) (weighted : bool) (st : Sys)
    (ads_allocation final_ads_allocation : list ref) : res (list ref) * Sys :=
  match ads_allocation with
  | [] => (Ok final_ads_allocation, st)
  | ad :: rest =>
      let a := ad_at (store st) ad in
      let shown :=
        if buyer a then (true, st)
        else
          let p := if weighted then ad_sampled_quality a else 1 # 2 in
          (Qltb (rng (draws st)) p,
           mkSys (learner st) (store st) (visitor st) (S (draws st))) in
      let '(outcome, st) := shown in
      if outcome then
        match remove_ad_from_pool (store st) (learner st) [ad] with
        | (Raise e, self) => (Raise e, mkSys self (store st) (visitor st) (draws st))
        | (Ok _, self) =>
            display_filter rng weighted
              (mkSys self (store st) (visitor st) (draws st))
              rest (final_ads_allocation ++ [ad])
        end
      else
        display_filter rng weighted
          (mkSys (learner st) (set_as_buyer (store st) ad) (visitor st) (draws st))
          rest final_ads_allocation
  end.

Definition record_ads (st : Sys) (final_ads_allocation : list ref) : Sys :=
  let self := learner st in
  let w :=
    fold_left (fun w '(i, ad) =>
                 beta_allocation (categories self) w
                   (ad_category (ad_at (store st) ad)) i)
              (imap (fun i ad => (i, ad)) final_ads_allocation)
              (ads_weighted_beta self) in
  let self := with_ads_weighted_beta w self in
  let self :=
    with_total_ads_clicks_and_displays
      (total_ads_clicks_and_displays self ++ [(0%nat, length final_ads_allocation)])
      self in
  mkSys self (store st) (visitor st) (draws st).

Definition find_ads_best_allocation (rng : oracle) (st : Sys)
    : res (list ref) * Sys :=
  let self := learner st in
  if (length (ads_pool self) <? ads_slots self)%nat then (Raise RuntimeError, st)
  else
    let solved :=
      if String.eqb (ads_allocation_technique self) "LP"
      then solve_ads_integer_linear_problem st
      else if String.eqb (ads_allocation_technique self) "res_LP"
      then solve_ads_restricted_linear_problem rng st
      else (Raise RuntimeError, st) in
    match solved with
    | (Raise e, st) => (Raise e, st)
    | (Ok ads_allocation, st) =>
        let self := learner st in
        let filtered :=
          if String.eqb (ads_allocation_approach self) "pdda"
          then display_filter rng false st ads_allocation []
          else if String.eqb (ads_allocation_approach self) "greedy" then
            match remove_ad_from_pool (store st) self ads_allocation with
            | (Raise e, self) => (Raise e, mkSys self (store st) (visitor st) (draws st))
            | (Ok _, self) =>
                (Ok ads_allocation, mkSys self (store st) (visitor st) (draws st))
            end
          else if String.eqb (ads_allocation_approach self) "wpdda"
          then display_filter rng true st ads_allocation []
          else (Raise RuntimeError, st) in
        match filtered with
        | (Raise e, st) => (Raise e, st)
        | (Ok final_ads_allocation, st) =>
            (Ok final_ads_allocation, record_ads st final_ads_allocation)
        end
    end.

End AdsAllocation.

(** An element that [fill_news_pool] accepts: a News whose category the
    learner handles. *)
Definition acceptable_news (h : Store) (cats : list string) (c : content) : Prop :=
  match c with
  | ANews r => news_category (news_at h r) ∈ cats
  | AnAd _ => False
  end.

Definition references (l : list content) : list ref :=
  map (fun c => match c with ANews r => r | AnAd r => r end) l.

Definition known_category (h : Store) (cats : list string) (r : ref) : Prop :=
  news_category (news_at h r) ∈ cats.

(** The slots of a page under construction that hold no item yet. *)
Definition free_slots (result : list (option ref)) : nat :=
  length (filter (fun r => r = None) result).

(** A page under construction and the working copy of the prominences:
    a served slot has been given the mark [mark], a free one still has
    its own prominence, which is at least [floor]. *)
Definition slots_agree (mark floor : Q) (result : list (option ref))
    (promenances : list Q) : Prop :=
  Forall2 (fun r p => match r with
                      | None => floor <= p /\ ~ p == mark
                      | Some _ => p = mark
                      end) result promenances.

(** What the constructor guarantees and every operation keeps: one
    prominence in [0,1] per slot, pivots along both axes, and a grid of
    reward models with one cell more than pivots along each axis. *)
Definition valid_configuration (self : NewsLearner) : Prop :=
  layout_slots self = length (real_slot_promenances self)
  /\ Forall (fun p => 0 <= p /\ p <= 1) (real_slot_promenances self)
  /\ news_column_pivots self <> []
  /\ news_row_pivots self <> []
  /\ length (weighted_betas_matrix self) = S (length (news_row_pivots self))
  /\ Forall (fun row => length row = S (length (news_column_pivots self)))
       (weighted_betas_matrix self).

(** The order of the standard approach for given qualities: [x] before
    [y] when its quality is strictly the greater. *)
Definition better (quality : ref -> Q) (x y : ref) : bool :=
  Qltb (quality y) (quality x).

(** The page of the standard approach as a function of the qualities,
    the pool and the prominences alone. *)
Definition greedy_layout (quality : ref -> Q) (pool : list ref) (proms : list Q)
    : res (list (option ref)) :=
  standard_loop (length proms) (py_sort (better quality) pool)
    proms (replicate (length proms) None).

(** The qualities held by the store. *)
Definition quality_in (h : Store) (r : ref) : Q := sampled_quality (news_at h r).

(** A fractional weight, and one strictly inside the unit interval. *)
Definition weight_ok (w : Q) : Prop := 0 <= w /\ w <= 1.
Definition weight_inside (w : Q) : Prop := 0 < w /\ w < 1.

(** The item at a position of the candidates, if a position is given. *)
Definition item_at (pool : list ref) (o : option nat) : option ref :=
  match o with
  | Some i => pool !! i
  | None => None
  end.

(** The state of the de-randomization loop with [free] slots still to
    serve, [placed] giving for each slot the position of its candidate:
    the served slots have prominence zero and candidates at different
    positions, none of which is feasible any more; every weight vector
    runs over the feasible candidates, of which enough are left. *)
Record dr_invariant (pool : list ref) (free : nat) (placed : list (option nat))
    (st : dr_state) : Prop := mkInv {
  inv_result : dr_result st = item_at pool <$> placed;
  inv_agree : slots_agree 0 0 placed (tmp_slot_promenances st);
  inv_free : free_slots placed = free;
  inv_probs : length (slot_probabilities st) = length placed;
  inv_weights :
    Forall (fun v => length v = length (feasible_news st) /\ Forall weight_ok v)
      (slot_probabilities st);
  inv_nodup : NoDup (feasible_news st);
  inv_range : Forall (fun i => i < length pool)%nat (feasible_news st);
  inv_enough : (free <= length (feasible_news st))%nat;
  inv_placed_nodup : NoDup (omap id placed);
  inv_placed :
    Forall (fun i => (i < length pool)%nat /\ i ∉ feasible_news st) (omap id placed)
}.

(** Feasibility, decided. *)
Definition feasibleb (p : ilp) (x : list Z) : bool :=
  (length x =? length (objective p))%nat
  && forallb (fun v => (0 <=? v)%Z && (v <=? upper_bound p)%Z) x
  && forallb (fun c => Qleb (dot c.1 x) c.2) (constraints p).

(** Two different ads of one category that both exclude competitors. *)
Definition competitors (h : Store) (a b : ref) : Prop :=
  a <> b
  /\ ad_category (ad_at h a) = ad_category (ad_at h b)
  /\ exclude_competitors (ad_at h a) = true
  /\ exclude_competitors (ad_at h b) = true.

(** A page on which a slot of strictly greater prominence never holds an
    item of lower quality. *)
Definition page_ordered (quality : ref -> Q) (promenances : list Q)
    (page : list (option ref)) : Prop :=
  forall s t a b ps pt,
    page !! s = Some (Some a) -> page !! t = Some (Some b) ->
    promenances !! s = Some ps -> promenances !! t = Some pt ->
    pt < ps -> quality b <= quality a.

(** The state of the loop of the standard approach: the working copy of
    the prominences still holds the prominence of every free slot; the
    items still to place are in decreasing quality and none is better
    than a placed one; no free slot is more prominent than a served
    one. *)
Record page_invariant (quality : ref -> Q) (promenances : list Q) (count : nat)
    (tmp : list ref) (work : list Q) (result : list (option ref)) : Prop := mkPageInv {
  pi_agree : slots_agree (-1) 0 result work;
  pi_free : free_slots result = count;
  pi_work : forall j, result !! j = Some None -> work !! j = promenances !! j;
  pi_sorted : StronglySorted (fun a b => quality b <= quality a) tmp;
  pi_rest : forall s a x, result !! s = Some (Some a) -> x ∈ tmp -> quality x <= quality a;
  pi_slots : forall s a t ps pt,
      result !! s = Some (Some a) -> result !! t = Some None ->
      promenances !! s = Some ps -> promenances !! t = Some pt -> pt <= ps;
  pi_ordered : page_ordered quality promenances result
}.

(** A pool cut into its runs of one category: no run is empty, the items
    of a run share the category of its first item, and a run starts with
    another category than [prev], the category of the run before it. *)
Fixpoint category_blocks (h : Store) (prev : option string)
    (blocks : list (list ref)) : Prop :=
  match blocks with
  | [] => True
  | block :: rest =>
      match block with
      | [] => False
      | first :: _ =>
          let category := news_category (news_at h first) in
          prev <> Some category
          /\ Forall (fun r => news_category (news_at h r) = category) block
          /\ category_blocks h (Some category) rest
      end
  end.

(** Every run but the last holds at least [slots] items. *)
Fixpoint all_but_last_hold (slots : nat) (blocks : list (list ref)) : Prop :=
  match blocks with
  | [] => True
  | block :: rest =>
      match rest with
      | [] => True
      | _ :: _ => (slots <= length block)%nat /\ all_but_last_hold slots rest
      end
  end.

(** An element that [fill_ads_pool] accepts: an Ad whose category the
    learner handles. *)
Definition acceptable_ad (h : Store) (cats : list string) (c : content) : Prop :=
  match c with
  | AnAd r => ad_category (ad_at h r) ∈ cats
  | ANews _ => False
  end.

(** The number of ads that a point of the restricted program takes from
    one bin, the open one ([exclusive = 0]) or the exclusive one
    ([exclusive = 1]) of the category of index [c]: the sum of the
    variables of that bin, one per ad slot. *)
Definition bin_total (x : list Z) (slots c exclusive : nat) : Z :=
  fold_right Z.add 0%Z (take slots (drop ((2 * c + exclusive) * slots) x)).

(** The matrix and the right-hand sides of the restricted program as the
    constructor builds them; no operation changes them afterwards. *)
Definition restricted_rows_built (self : NewsLearner) : Prop :=
  let n := length (categories self) in
  let s := ads_slots self in
  res_A self = res_slot_rows n s ++ res_bin_rows n s ++ res_exclusion_rows n s big_M
  /\ res_B self = replicate s 1 ++ replicate (2 * n) (inject_Z (Z.of_nat s))
                    ++ replicate n (1 + big_M).

(** The number of items of a pool whose category has index [c] in the
    list of categories. *)
Definition census (h : Store) (cats : list string) (c : nat) (pool : list ref) : nat :=
  length (filter (fun r => index_of String.eqb (news_category (news_at h r)) cats = Some c)
            pool).

(** The number of ads that a point of the restricted program puts in the
    ad slot [i]: the sum of the variables of that slot, one per bin. *)
Definition slot_total (x : list Z) (slots bins i : nat) : Z :=
  fold_right Z.add 0%Z
    (map (fun b => default 0%Z (x !! (b * slots + i)%nat)) (seq 0 bins)).


(** The weights of an integral solution: all the weight of a slot is on
    one candidate, the one at position [a]. *)
Definition indicator (a : nat) (candidates : list nat) : list Q :=
  map (fun i => if decide (i = a) then 1 else 0) candidates.

Definition integral_solution (candidates : nat) (assignment : list nat) : list (list Q) :=
  map (fun a => indicator a (seq 0 candidates)) assignment.

(** The state of the de-randomization of an integral solution with
    [free] slots still to serve: every slot still puts all its weight on
    its own candidate, the served slots hold theirs, and the candidates of
    the others are still feasible. *)
Record integral_invariant (pool : list ref) (assignment : list nat) (free : nat)
    (placed : list (option nat)) (st : dr_state) : Prop := mkIntegral {
  j_result : dr_result st = item_at pool <$> placed;
  j_agree : slots_agree 0 0 placed (tmp_slot_promenances st);
  j_free : free_slots placed = free;
  j_length : length placed = length assignment;
  j_rows_length : length (slot_probabilities st) = length assignment;
  j_rows : forall s a,
      assignment !! s = Some a ->
      slot_probabilities st !! s = Some (indicator a (feasible_news st));
  j_nodup : NoDup (feasible_news st);
  j_served : forall s p, placed !! s = Some (Some p) -> assignment !! s = Some p;
  j_waiting : forall s a,
      placed !! s = Some None -> assignment !! s = Some a -> a ∈ feasible_news st
}.

(** These predicates are decidable. *)
#[local] Instance acceptable_news_dec h cats c : Decision (acceptable_news h cats c).
Proof. destruct c; simpl; apply _. Defined.

#[local] Instance known_category_dec h cats r : Decision (known_category h cats r).
Proof. unfold known_category. apply _. Defined.

#[local] Instance same_quality_dec (quality : ref -> Q) (q : Q) (r : ref) :
  Decision (quality r == q).
Proof. destruct (Qeq_dec (quality r) q); [by left | by right]. Defined.

#[local] Instance acceptable_ad_dec h cats c : Decision (acceptable_ad h cats c).
Proof. destruct c; simpl; apply _. Defined.

(** A slot prominence that the constructor refuses. *)
Definition out_of_range (p : Q) : Prop := p < 0 \/ 1 < p.

(* ===================================================================== *)
(** ** Learners, users and items of the examples *)
(* ===================================================================== *)

Definition empty_learner : NewsLearner :=
  mkLearner [] [] [] [] [] "" "" "" "" 0 0 [] [] [] [] [] (mkBeta [] []) []
    [] [] [] [] [] 0 [] [] [].

Definition learner_of (args : init_args) : NewsLearner :=
  match init args with
  | Ok (self, _) => self
  | Raise _ => empty_learner
  end.

(** The learner that a call leaves behind. *)
Definition learner_after (o : option (res unit * NewsLearner)) : NewsLearner :=
  match o with
  | Some (_, self) => self
  | None => empty_learner
  end.

Definition six_categories : list string :=
  ["cibo"; "gossip"; "politic"; "scienza"; "sport"; "tech"].

(** A learner with every default of the signature. *)
Definition default_learner : NewsLearner := learner_of (default_args six_categories).

(** A user whose observed prominence of item 7 is exactly the first
    column pivot, with no click on it. *)
Definition user_at_pivot : SyntheticUser := mkUser [(7%Z, 1 # 100, 1 # 100)] [].

Definition item_seven : News := mkNews 7 "cibo" 0 None.

(** One category, no diversity bound at all. *)
Definition args_without_bounds : init_args :=
  mkArgs ["cibo"] [1] [1 # 100; 1] [1] "standard" [] "rand_1" [1; 1] "wpdda" "LP".

(** Four categories with the bounds 0.1, 0.2 and 0.3, two slots of
    prominence 0.1 and 0.5. *)
Definition args_rounded_sums : init_args :=
  mkArgs ["cibo"; "gossip"; "politic"; "sport"] [1 # 10; 5 # 10] [1 # 100; 1] [1]
    "standard" [1 # 10; 2 # 10; 3 # 10] "rand_1" [1; 1] "wpdda" "LP".

(** Six categories with bounds of 0.4, three slots of prominence
    [2.4 / 3], which is the double 0.7999999999999999. *)
Definition args_rounded_down : init_args :=
  mkArgs ["cibo"; "gossip"; "politic"; "sport"; "tech"; "meteo"]
    (replicate 3 (Qred (round64 (round64 (24 # 10) / 3)))) [1 # 100; 1] [1]
    "standard" (replicate 6 (4 # 10)) "rand_1" [1; 1] "wpdda" "LP".

(** Three categories, one bound of a half, one slot of prominence one. *)
Definition args_one_bound : init_args :=
  mkArgs ["cibo"; "gossip"; "politic"] [1] [1 # 100; 1] [1] "standard" [1 # 2]
    "rand_1" [1; 1] "wpdda" "LP".

(** The objects of the examples: News 0 and 1 of "cibo", 2 and 3 of
    "gossip", 5 of a category that no learner below handles; every ad is
    of "cibo" and excludes its competitors. *)
Definition example_store : Store :=
  {| news_at := fun r =>
       match r with
       | 0%nat => mkNews 0 "cibo" (9 # 10) None
       | 1%nat => mkNews 1 "cibo" (8 # 10) None
       | 2%nat => mkNews 2 "gossip" (2 # 10) None
       | 3%nat => mkNews 3 "gossip" (1 # 10) None
       | r => mkNews (Z.of_nat r) "meteo" 0 None
       end;
     ad_at := fun r => mkAd (Z.of_nat r) "cibo" 0 0 false true |}.

Definition two_categories : list string := ["cibo"; "gossip"].

(** Two slots of prominence 0.9 and 0.5, no diversity pressure. *)
Definition args_two_slots (approach : string) : init_args :=
  mkArgs two_categories [9 # 10; 5 # 10] [1 # 100; 1] [1] approach [0; 0]
    "rand_1" [1; 1 # 2] "greedy" "res_LP".

(** A solver that is never reached by the standard approach. *)
Definition no_solver (approach : string) (st : Sys) : res (list (option ref)) * Sys :=
  (Raise RuntimeError, st).

Definition fair_oracle : oracle := fun _ => 1 # 2.

(** The four items of the scenario in a pool, given in any order, and a
    first visit. *)
Definition scenario (pool : list ref) : Sys :=
  mkSys (with_news_pool pool (learner_of (args_two_slots "standard")))
        example_store (mkUser [] []) 0.

(** The qualities 0.9, 0.8, 0.2 and 0.1 drawn for the items 0, 1, 2 and 3
    of a pool given as [pool]. *)
Definition scenario_oracle (pool : list ref) : oracle :=
  fun n => sampled_quality (news_at example_store (default 0%nat (pool !! n))).

(** A learner of the "LP" approach with two slots whose pool holds one
    item of "gossip" and two of "cibo". *)
Definition lp_learner_short_of_gossip : NewsLearner :=
  with_news_pool [2; 0; 1]%nat (learner_of (args_two_slots "LP")).

(** The number of pooled items of a category. *)
Definition items_of_category (h : Store) (category : string) (pool : list ref) : nat :=
  length (filter (fun r => news_category (news_at h r) = category) pool).



(** The smallest positive double, 5e-324, as the weight of both
    candidates for the first slot; one half each for the second. *)
Definition tiny_weights : list (list Q) :=
  [[pow2 (-1074); pow2 (-1074)]; [1 # 2; 1 # 2]].

(** One category, two ad slots of prominence 1 and 0.5, the restricted
    program and the "greedy" display of every winner. *)
Definition args_ads : init_args :=
  mkArgs ["cibo"] [1] [1 # 100; 1] [1] "standard" [0] "rand_1" [1; 1 # 2]
    "greedy" "res_LP".

(** The visit of a user to that learner once the ads 0 and 1, both of
    "cibo" and both excluding competitors, have been pooled. *)
Definition ads_visit : Sys :=
  mkSys (learner_after
           (fill_ads_pool 0 example_store (learner_of args_ads)
              (a_list [AnAd 0%nat; AnAd 1%nat]) true))
        example_store (mkUser [] []) 0.

(** A learner of the standard approach that pools the item 0 and the ad
    0, as after [fill_news_pool] and [fill_ads_pool] with lists of one
    element and [append=False], which made those lists its pools. *)
Definition learner_with_shared_pools : NewsLearner :=
  with_ads_pool [0%nat] (with_news_pool [0%nat] (learner_of args_ads)).

(** Draws of a quarter, but for the fourth, a half. *)
Definition split_oracle : oracle :=
  fun n => match n with 3%nat => 1 # 2 | _ => 1 # 4 end.

(** The program of that visit under these draws: the variables are, in
    this order, open bin in slot 0 and 1, exclusive bin in slot 0 and
    1. *)
Definition exclusion_problem : ilp :=
  {| objective := [1; 1 # 2; 1 # 4; 1 # 8];
     constraints :=
       [([1; 0; 1; 0], 1); ([0; 1; 0; 1], 1);
        ([1; 1; 0; 0], 0); ([0; 0; 1; 1], 2);
        ([1; 1; 1001; 1001], 1001)];
     upper_bound := 2 |}.

Definition no_integer_solver (st : Sys) : res (list ref) * Sys := (Raise RuntimeError, st).

Definition one_exclusive_in_first_slot (p : ilp) : list (option Z) :=
  [Some 0%Z; Some 0%Z; Some 1%Z; Some 0%Z].

(* ===================================================================== *)
(** ** The site: one learner per pair of user features *)
(* ===================================================================== *)

(** [PageCreator], of [OnlineArticleRecommendation/Core/page_creator.py]:
    the features of the users and the matrix of learners. The list of
    sibling learners that the constructor hands to each learner is not
    part of the modelled learner. *)
Record PageCreator : Type := mkSite {
  attribute_1 : list string;
  attribute_2 : list string;
  learner_matrix : list (list NewsLearner)
}.

(** The arguments with which [PageCreator.__init__] builds every
    learner: six diversity bounds of 0.4 whatever the categories. *)
Definition page_creator_args (real_slot_promenances : list Q)
    (allocation_approach : string) (categories : list string) : init_args :=
  mkArgs categories real_slot_promenances [1 # 100; 2] [1] allocation_approach
    (replicate 6 (4 # 10)) "rand_1" [9 # 10; 8 # 10] "wpdda" "res_LP".

(** [PageCreator.__init__]: a row of learners per feature of the first
    kind, a learner per feature of the second kind, then
    [learners_list[-1]], which needs one learner at least. *)
Definition init_page_creator (attributes_1 attributes_2 : list string)
    (real_slot_promenances : list Q) (allocation_approach : string)
    (categories : list string) : res PageCreator :=
  let new_learner :=
    fst <$> init (page_creator_args real_slot_promenances allocation_approach categories) in
  learner_matrix ← res_mapM (fun _ => res_mapM (fun _ => new_learner) attributes_2)
                     attributes_1;
  _ ← last_item (concat learner_matrix);
  Ok (mkSite attributes_1 attributes_2 learner_matrix).

(* ===================================================================== *)
(** ** Further operations on the pools *)
(* ===================================================================== *)

(** [for i in range(-len(news_pool), 0): if news_pool[i] in news_list:
    del news_pool[i]]. *)
Definition remove_news_from_pool (self : NewsLearner) (news_list : list ref)
    : res unit * NewsLearner :=
  let '(r, pool) :=
    remove_loop news_list (negative_range (length (news_pool self))) (news_pool self) in
  (r, with_news_pool pool self).

(** [refresh_ads_buffer]: the buffering of [fill_ads_pool] without its
    validation and without the pool. *)
Definition refresh_ads_buffer (h : Store) (self : NewsLearner) (ads_list : list ref)
    : res unit * NewsLearner :=
  let '(r, buffers) := buffer_ads h (categories self) ads_list (ads_per_category self) in
  (r, with_ads_per_category buffers self).

(** The reading of a solution of the news program, slot by slot:
    [while slot_counter < layout_slots: i = slot_counter;
    while i < len(x): tmp.append(np.abs(x[i])); i += layout_slots]. *)
Definition slots_assegnation_probabilities (slots : nat) (x : list Q) : list (list Q) :=
  map (fun slot_counter => map Qabs (strided (length x) slot_counter slots x))
      (seq 0 slots).

(** The coefficients [lambdas] and the matrix [A] of the news program,
    as [__init__] builds them from the number of categories and the slot
    prominences: one row per category, one per slot, one per candidate.
    A category row starts one entry short and is completed by the slice
    assignment, which puts [layout_slots ** 2] entries in the place of
    one fewer. *)
Definition news_lambdas (n_cat : nat) (proms : list Q) : list Q :=
  concat (replicate (n_cat * length proms) (map (fun p => p * -1) proms)).

Definition news_category_rows (n_cat : nat) (proms : list Q) : list (list Q) :=
  let slots := length proms in
  map (fun i =>
         let category_count := (i * (slots * slots))%nat in
         let row := replicate (n_cat * slots * slots - 1) 0 in
         let row_slot_promenances := concat (replicate slots proms) in
         let tmp_row :=
           zip_with Qmult row_slot_promenances (replicate (slots * slots) (-1)) in
         slice_assign category_count (category_count + slots * slots - 1) tmp_row row)
      (seq 0 n_cat).

Definition news_slot_rows (n_cat slots : nat) : list (list Q) :=
  map (fun i =>
         let row := replicate (n_cat * slots * slots) 0 in
         stride_fill (length row) i slots 1 row)
      (seq 0 slots).

Definition news_variable_rows (n_cat slots : nat) : list (list Q) :=
  map (fun k =>
         let initial_index := (k * slots)%nat in
         slice_assign initial_index (initial_index + slots) (replicate slots 1)
           (replicate (n_cat * slots * slots) 0))
      (seq 0 (n_cat * slots)).

Definition news_A (n_cat : nat) (proms : list Q) : list (list Q) :=
  news_category_rows n_cat proms ++ news_slot_rows n_cat (length proms)
    ++ news_variable_rows n_cat (length proms).

(** The product of a row with a fractional point. *)
Definition Qdot (row x : list Q) : Q := Qsum (zip_with Qmult row x).

(** The prominence that a point of the news program gives to the
    candidates of the category of index [c]: the variable of candidate
    [k] of that category and slot [s] is entry [c * L * L + k * L + s]
    and counts with the prominence of slot [s]. *)
Definition category_promenance (proms : list Q) (c : nat) (x : list Q) : Q :=
  let slots := length proms in
  Qdot (concat (replicate slots proms))
       (take (slots * slots) (drop (c * (slots * slots)) x)).

(** The ads of a list that [buffer_ads] files under the category of
    index [c], in the open bin or in the exclusive one. *)
Definition filed_under (h : Store) (cats : list string) (c : nat) (exclusive : bool)
    (ads : list ref) : list ref :=
  filter (fun ad => index_of String.eqb (ad_category (ad_at h ad)) cats = Some c
                    /\ exclude_competitors (ad_at h ad) = exclusive) ads.

(* ===================================================================== *)
(** ** The "full" approach *)
(* ===================================================================== *)

Section FullProgram.

(** [scipy.optimize.linprog(A_ub=..., b_ub=..., c=...).x]: the point that
    the solver returns is taken as given. *)
Variable linprog : list (list Q) -> list Q -> list Q -> list Q.

(** [__solve_full_linear_problem]: the program over the whole pool, its
    solution read slot by slot and de-randomized. The draws of a failed
    de-randomization are not accounted for. *)
Definition solve_full_linear_problem (rng : oracle) (st : Sys)
    : res (list (option ref)) * Sys :=
  let self := learner st in
  let samples :=
    concat (map (fun news => replicate (layout_slots self)
                               (sampled_quality (news_at (store st) news)))
                (news_pool self)) in
  match np_mul samples (full_lambdas self) with
  | Raise e => (Raise e, st)
  | Ok full_C =>
      let x := linprog (full_A self) (full_B self) full_C in
      let slots_probabilities :=
        slots_assegnation_probabilities (layout_slots self) x in
      match de_randomize_LP rng (draws st) self (news_pool self) slots_probabilities
              (lp_rand_tech self) with
      | Raise e => (Raise e, st)
      | Ok (result, n) => (Ok result, mkSys self (store st) (visitor st) n)
      end
  end.

End FullProgram.

(** A solver that gives every variable the value one half. *)
Definition half_solver (A_ub : list (list Q)) (b_ub c : list Q) : list Q :=
  map (fun _ => 1 # 2) c.

(** The visit of a user to a learner of the "full" approach whose pool
    was filled once, with the items 2 and 0. *)
Definition full_visit : Sys :=
  mkSys (learner_after
           (fill_news_pool 0 example_store (learner_of (args_two_slots "full"))
              (a_list [ANews 2%nat; ANews 0%nat]) true))
        example_store (mkUser [] []) 0.

(** The objects of the examples, but for the ad 1, whose category no
    learner of the examples handles. *)
Definition store_with_a_stray_ad : Store :=
  {| news_at := news_at example_store;
     ad_at := fun r => mkAd (Z.of_nat r) (if (r =? 1)%nat then "meteo" else "cibo")
                         0 0 false true |}.

(* ===================================================================== *)
(** * Properties *)
(* ===================================================================== *)


(** ** Rounding to the nearest double *)

Lemma pow2_pos (k : Z) : 0 < pow2 k.
Proof.
  unfold pow2. destruct (0 <=? k)%Z eqn:Hk; [|reflexivity].
  apply Z.leb_le in Hk. change 0 with (inject_Z 0). rewrite <- Zlt_Qlt.
  by apply Z.pow_pos_nonneg.
Qed.

Lemma round_half_even_nonneg (q : Q) : 0 <= q -> (0 <= round_half_even q)%Z.
Proof.
  intros Hq. unfold round_half_even.
  assert (0 <= Qfloor q)%Z as Hf.
  { change 0%Z with (Qfloor 0). by apply Qfloor_resp_le. }
  repeat case_match; lia.
Qed.

Lemma round_half_even_le (q : Q) (n : Z) :
  q <= inject_Z n -> (round_half_even q <= n)%Z.
Proof.
  intros Hq. unfold round_half_even.
  pose proof (Qfloor_le q) as Hlo.
  assert (Qfloor q <= n)%Z as Hf by (rewrite Zle_Qle; lra).
  destruct (Qcompare (q - inject_Z (Qfloor q)) (1 # 2)) eqn:Hc; [|done|].
  - apply Qeq_alt in Hc. destruct (Z.even (Qfloor q)); [done|].
    destruct (decide (Qfloor q = n)) as [Heq|Hne]; [|lia].
    rewrite Heq in Hc. lra.
  - apply Qgt_alt in Hc.
    destruct (decide (Qfloor q = n)) as [Heq|Hne]; [|lia].
    rewrite Heq in Hc. lra.
Qed.

Lemma round64_positive_nonneg (x : Q) : 0 <= x -> 0 <= round64_positive x.
Proof.
  intros Hx. unfold round64_positive.
  set (quantum := pow2 _). pose proof (pow2_pos (Z.max (binade x) (-1022) - 52)) as Hq.
  fold quantum in Hq.
  apply Qmult_le_0_compat; [|lra].
  change 0 with (inject_Z 0). rewrite <- Zle_Qle.
  apply round_half_even_nonneg. apply Qle_shift_div_l; [done | lra].
Qed.

Lemma binade_le_0 (x : Q) : (0 < Qnum x)%Z -> x <= 1 -> (binade x <= 0)%Z.
Proof.
  intros Hpos Hx. unfold binade.
  assert (Qnum x <= Zpos (Qden x))%Z as Hle.
  { unfold Qle in Hx. simpl in Hx. lia. }
  pose proof (Z.log2_le_mono _ _ Hle).
  destruct (Qle_bool _ x); lia.
Qed.

Lemma round64_positive_le_1 (x : Q) :
  (0 < Qnum x)%Z -> x <= 1 -> round64_positive x <= 1.
Proof.
  intros Hpos Hx. unfold round64_positive.
  pose proof (binade_le_0 x Hpos Hx) as He.
  set (k := (Z.max (binade x) (-1022) - 52)%Z).
  assert (k < 0)%Z as Hk by lia.
  unfold pow2. assert ((0 <=? k)%Z = false) as -> by (apply Z.leb_gt; lia).
  set (n := (2 ^ (- k))%Z).
  assert (0 < n)%Z as Hn by (apply Z.pow_pos_nonneg; lia).
  assert (inject_Z n == Zpos (Z.to_pos n) # 1) as Hinj.
  { unfold inject_Z. by rewrite Z2Pos.id. }
  assert (x / (1 # Z.to_pos n) <= inject_Z n) as Hscaled.
  { unfold Qdiv. change (/ (1 # Z.to_pos n)) with (Zpos (Z.to_pos n) # 1).
    rewrite <- Hinj.
    assert (0 < inject_Z n) by (change 0 with (inject_Z 0); by rewrite <- Zlt_Qlt).
    rewrite <- (Qmult_1_l (inject_Z n)) at 2.
    apply Qmult_le_compat_r; [done | lra]. }
  apply round_half_even_le in Hscaled.
  rewrite Zle_Qle in Hscaled.
  assert (inject_Z n * (1 # Z.to_pos n) == 1) as Hone.
  { rewrite Hinj. unfold Qeq, Qmult. simpl. lia. }
  rewrite <- Hone. apply Qmult_le_compat_r; [done | done].
Qed.

Lemma round64_wd (x y : Q) : x == y -> round64 x = round64 y.
Proof. intros Hxy. unfold round64. by rewrite (Qred_complete x y Hxy). Qed.

#[global] Instance round64_proper : Proper (Qeq ==> Qeq) round64.
Proof. intros x y Hxy. by rewrite (round64_wd x y Hxy). Qed.

Lemma round64_nonneg (x : Q) : 0 <= x -> 0 <= round64 x.
Proof.
  intros Hx. unfold round64.
  assert (0 <= Qred x) as Hr by (by rewrite Qred_correct).
  destruct (Qnum (Qred x)) eqn:Hnum; [done | by apply round64_positive_nonneg |].
  unfold Qle in Hr. simpl in Hr. lia.
Qed.

Lemma round64_le_1 (x : Q) : x <= 1 -> round64 x <= 1.
Proof.
  intros Hx. unfold round64.
  assert (Qred x <= 1) as Hr by (by rewrite Qred_correct).
  destruct (Qnum (Qred x)) eqn:Hnum; [done | |].
  - apply round64_positive_le_1; [lia | done].
  - pose proof (round64_positive_nonneg (- Qred x)) as Hnn.
    assert (0 <= - Qred x) as Hneg.
    { unfold Qle, Qopp. simpl. lia. }
    specialize (Hnn Hneg). lra.
Qed.

Lemma round64_1 : round64 1 == 1.
Proof. vm_compute. reflexivity. Qed.

Lemma float_mul_nonneg (x y : Q) : 0 <= x -> 0 <= y -> 0 <= float_mul x y.
Proof.
  intros Hx Hy. unfold float_mul.
  apply round64_nonneg, Qmult_le_0_compat; by apply round64_nonneg.
Qed.

Lemma float_sub_from_1_nonneg (w : Q) : w <= 1 -> 0 <= float_sub 1 w.
Proof.
  intros Hw. unfold float_sub. apply round64_nonneg.
  pose proof (round64_le_1 w Hw). rewrite round64_1. lra.
Qed.

#[global] Instance float_mul_proper : Proper (Qeq ==> Qeq ==> Qeq) float_mul.
Proof. intros x x' Hx y y' Hy. unfold float_mul. by rewrite Hx, Hy. Qed.

#[global] Instance float_sub_proper : Proper (Qeq ==> Qeq ==> Qeq) float_sub.
Proof. intros x x' Hx y y' Hy. unfold float_sub. by rewrite Hx, Hy. Qed.

(** ** Comparisons and sums of rationals *)

Lemma Qltb_lt (x y : Q) : Qltb x y = true <-> x < y.
Proof.
  unfold Qltb. rewrite negb_true_iff, <- not_true_iff_false, Qle_bool_iff.
  split; [apply Qnot_le_lt | apply Qlt_not_le].
Qed.

Lemma Qltb_ge (x y : Q) : Qltb x y = false <-> y <= x.
Proof.
  unfold Qltb. rewrite negb_false_iff. apply Qle_bool_iff.
Qed.

Lemma Qleb_le (x y : Q) : Qleb x y = true <-> x <= y.
Proof. apply Qle_bool_iff. Qed.

Lemma Qleb_gt (x y : Q) : Qleb x y = false <-> y < x.
Proof.
  unfold Qleb. rewrite <- not_true_iff_false, Qle_bool_iff.
  split; [apply Qnot_le_lt | apply Qlt_not_le].
Qed.

Lemma Qeqb_eq (x y : Q) : Qeqb x y = true <-> x == y.
Proof. apply Qeq_bool_iff. Qed.

Lemma Qeqb_neq (x y : Q) : Qeqb x y = false <-> ~ x == y.
Proof. unfold Qeqb. rewrite <- not_true_iff_false, Qeq_bool_iff. tauto. Qed.

Lemma Qopp_twice (x : Q) : Qopp (Qopp x) = x.
Proof. destruct x as [a b]. unfold Qopp. simpl. f_equal. lia. Qed.

Lemma Qsum_app (l k : list Q) : Qsum (l ++ k) == Qsum l + Qsum k.
Proof.
  induction l as [|x l IH]; simpl.
  - lra.
  - rewrite IH. lra.
Qed.

Lemma Qsum_nonneg (l : list Q) : Forall (fun x => 0 <= x) l -> 0 <= Qsum l.
Proof.
  induction 1 as [|x l Hx _ IH]; simpl; lra.
Qed.

Lemma filter_none {A} (P : A -> Prop) `{forall x, Decision (P x)} (l : list A) :
  Forall (fun x => ~ P x) l -> filter P l = [].
Proof.
  induction 1 as [|x l Hx _ IH]; [done|].
  by rewrite filter_cons_False.
Qed.

Lemma filter_all {A} (P : A -> Prop) `{forall x, Decision (P x)} (l : list A) :
  Forall P l -> filter P l = l.
Proof.
  induction 1 as [|x l Hx _ IH]; [done|].
  rewrite filter_cons_True by done. by rewrite IH.
Qed.

(** ** The grid cell *)

Lemma scan_pivots_counts (value : Q) (pivots : list Q) (k : nat) :
  StronglySorted Qle pivots ->
  Exists (fun p => value < p) pivots ->
  scan_pivots value pivots k = Ok (k + thresholds_reached pivots value)%nat.
Proof.
  unfold thresholds_reached.
  revert k. induction pivots as [|p rest IH]; intros k Hs Hex.
  - inversion Hex.
  - apply StronglySorted_inv in Hs as [Hs Hall]. simpl.
    destruct (Qleb p value) eqn:Hp.
    + rewrite filter_cons_True by done. simpl.
      rewrite IH; [f_equal; lia | done |].
      apply Exists_cons in Hex as [Hlt | Hex]; [|done].
      apply Qleb_le in Hp. lra.
    + rewrite filter_cons_False by (rewrite Hp; done).
      apply Qleb_gt in Hp.
      assert (filter (fun q => Qleb q value = true) rest = []) as ->.
      { apply filter_none. eapply Forall_impl; [exact Hall|].
        intros q Hq Hle. apply Qleb_le in Hle. simpl in Hq. lra. }
      simpl. f_equal. lia.
Qed.

Lemma sorted_last_is_greatest (pivots : list Q) (top : Q) :
  StronglySorted Qle pivots -> last pivots = Some top ->
  Forall (fun p => p <= top) pivots.
Proof.
  induction pivots as [|p rest IH]; intros Hs Hl; [constructor|].
  apply StronglySorted_inv in Hs as [Hs Hall].
  destruct rest as [|q rest'].
  - simpl in Hl. injection Hl as ->. constructor; [lra | constructor].
  - assert (last (q :: rest') = Some top) as Hl' by exact Hl.
    constructor; [|by apply IH].
    rewrite Forall_forall in Hall. apply Hall.
    apply last_Some_elem_of, Hl'.
Qed.

Lemma position_along_counts (pivots : list Q) (value : Q) :
  pivots <> [] -> StronglySorted Qle pivots ->
  position_along pivots value = Ok (thresholds_reached pivots value).
Proof.
  intros Hne Hs. unfold position_along, last_item.
  destruct (last pivots) as [top|] eqn:Hl.
  2:{ apply last_None in Hl. done. }
  simpl. destruct (Qltb value top) eqn:Hv.
  - apply Qltb_lt in Hv.
    rewrite scan_pivots_counts; [done | done |].
    apply Exists_exists. exists top. split; [|done].
    apply last_Some_elem_of, Hl.
  - apply Qltb_ge in Hv. f_equal. unfold thresholds_reached.
    rewrite filter_all; [done|].
    eapply Forall_impl; [exact (sorted_last_is_greatest _ _ Hs Hl)|].
    intros q Hq. apply Qleb_le. simpl in Hq. lra.
Qed.

(** C5 (as amended). With non-empty pivot lists in increasing order, the
    cell of a user and an item is (row, column) where the column is the
    number of column pivots that the user's cumulative observed
    prominence of the item reaches ([pivot <= value]) and the row is the
    number of row pivots that the user's click count of the item reaches:
    a value equal to a pivot counts that pivot. *)
Theorem position_counts_thresholds_reached
    (self : NewsLearner) (user : SyntheticUser) (news : News) :
  news_column_pivots self <> [] ->
  news_row_pivots self <> [] ->
  StronglySorted Qle (news_column_pivots self) ->
  StronglySorted Qle (news_row_pivots self) ->
  compute_position_in_learning_matrix self user news =
    Ok (thresholds_reached (news_row_pivots self) (get_amount_of_clicks user news),
        thresholds_reached (news_column_pivots self) (get_promenance_cumsum user news)).
Proof.
  intros Hc Hr Hsc Hsr. unfold compute_position_in_learning_matrix.
  rewrite (position_along_counts _ _ Hc Hsc). simpl.
  rewrite (position_along_counts _ _ Hr Hsr). reflexivity.
Qed.

Lemma position_counts_thresholds_reached_witness :
  compute_position_in_learning_matrix default_learner user_at_pivot item_seven =
    Ok (thresholds_reached (news_row_pivots default_learner)
          (get_amount_of_clicks user_at_pivot item_seven),
        thresholds_reached (news_column_pivots default_learner)
          (get_promenance_cumsum user_at_pivot item_seven)).
Proof.
  apply (position_counts_thresholds_reached default_learner user_at_pivot item_seven).
  - vm_compute. discriminate.
  - vm_compute. discriminate.
  - vm_compute. repeat constructor; discriminate.
  - vm_compute. repeat constructor.
Defined.

(** C5 (as stated) fails: a cumulative prominence equal to the first
    column pivot puts the item in column 1, although it strictly exceeds
    no pivot. *)
Lemma position_counts_a_pivot_that_is_met :
  compute_position_in_learning_matrix default_learner user_at_pivot item_seven
    = Ok (0%nat, 1%nat)
  /\ thresholds_strictly_exceeded (news_column_pivots default_learner)
       (get_promenance_cumsum user_at_pivot item_seven) = 0%nat
  /\ thresholds_strictly_exceeded (news_row_pivots default_learner)
       (get_amount_of_clicks user_at_pivot item_seven) = 0%nat.
Proof. repeat split; vm_compute; reflexivity. Qed.

(** ** Construction *)

Lemma sum_of_bounds_negative (total : Q) (bounds : list Q) :
  Exists (fun b => b < 0) bounds -> sum_of_bounds total bounds = Raise RuntimeError.
Proof.
  intros Hex. revert total. induction Hex as [b rest Hb | b rest _ IH]; intros total; simpl.
  - apply Qltb_lt in Hb. by rewrite Hb.
  - destruct (Qltb b 0); [done | apply IH].
Qed.

(** Without a negative bound the loop ends with the running float total. *)
Lemma sum_of_bounds_total (total : Q) (bounds : list Q) :
  Forall (fun b => 0 <= b) bounds ->
  sum_of_bounds total bounds = Ok (fold_left float_add bounds total).
Proof.
  intros Hall. revert total. induction Hall as [|b rest Hb _ IH]; intros total; simpl.
  - done.
  - apply Qltb_ge in Hb. rewrite Hb. apply IH.
Qed.

Lemma sum_of_bounds_cases (total : Q) (bounds : list Q) :
  sum_of_bounds total bounds = Raise RuntimeError
  \/ sum_of_bounds total bounds = Ok (fold_left float_add bounds total).
Proof.
  revert total. induction bounds as [|b rest IH]; intros total; simpl.
  - by right.
  - destruct (Qltb b 0); [by left | apply IH].
Qed.

Lemma check_prominences_refuses (proms : list Q) :
  Exists out_of_range proms -> check_prominences proms = Raise RuntimeError.
Proof.
  induction 1 as [p rest [Hp | Hp] | p rest _ IH]; simpl.
  - apply Qltb_lt in Hp. rewrite Hp. by rewrite orb_true_r.
  - apply Qltb_lt in Hp. by rewrite Hp.
  - destruct (Qltb 1 p || Qltb p 0); done.
Qed.

Lemma check_prominences_accepts (proms : list Q) :
  Forall (fun p => 0 <= p /\ p <= 1) proms -> check_prominences proms = Ok tt.
Proof.
  induction 1 as [|p rest [H0 H1] _ IH]; simpl; [done|].
  apply Qltb_ge in H0, H1. by rewrite H0, H1.
Qed.

Lemma fit_bounds_length (bounds : list Q) (n : nat) (fitted : list Q) (w : list warning) :
  fit_bounds bounds n = Ok (fitted, w) -> length fitted = n.
Proof.
  unfold fit_bounds.
  destruct (length bounds =? n)%nat eqn:He; simpl.
  - intros [= <- _]. by apply Nat.eqb_eq.
  - destruct (length bounds <? n)%nat eqn:Hl.
    + apply Nat.ltb_lt in Hl. unfold last_item.
      destruct (last bounds); simpl; [|done].
      intros [= <- _]. rewrite length_app, length_replicate. lia.
    + apply Nat.ltb_ge in Hl. intros [= <- _]. rewrite length_take. lia.
Qed.

(** The bounds a learner is built with are the fitted ones. *)
Lemma init_diversity_bounds (args : init_args) (self : NewsLearner) (w : list warning) :
  init args = Ok (self, w) ->
  fit_bounds (arg_allocation_diversity_bounds args) (length (arg_categories args))
    = Ok (diversity_bounds self, w).
Proof.
  unfold init.
  destruct (sum_of_bounds 0 (arg_allocation_diversity_bounds args)) as [t|]; simpl; [|done].
  destruct (Qltb _ t); [done|].
  destruct (fit_bounds _ _) as [[fitted w']|] eqn:Hfit; simpl; [|done].
  destruct (check_prominences _); simpl; [|done].
  intros [= <- <-]. unfold diversity_bounds. simpl.
  apply fit_bounds_length in Hfit as Hlen.
  rewrite take_app_length' by (by rewrite length_map).
  rewrite map_map.
  assert (map (fun x => - - x) fitted = fitted) as ->; [|done].
  clear. induction fitted as [|x l IH]; simpl; [done|].
  by rewrite Qopp_twice, IH.
Qed.

(** X27. Construction fails if a diversity bound is negative, if the
    running float total of the bounds exceeds the float sum of the news
    slot prominences, or if a news or ads slot prominence lies outside
    [0,1]. Without any of these, a list of at least one bound whose length
    differs from the number of categories is accepted with one warning,
    and the learner works with the bounds truncated, or extended by
    copies of the last one. Both sums are made from the left with every
    addition rounded to the nearest double. *)
Theorem init_rejects_bad_configurations (args : init_args) :
  let bounds := arg_allocation_diversity_bounds args in
  let proms := arg_real_slot_promenances args in
  let ads_proms := arg_ads_real_slot_promenances args in
  let n := length (arg_categories args) in
  (Exists (fun b => b < 0) bounds \/ float_sum proms < float_sum bounds
     \/ Exists out_of_range (proms ++ ads_proms) -> is_error (init args))
  /\ (Forall (fun b => 0 <= b) bounds -> float_sum bounds <= float_sum proms ->
      Forall (fun p => 0 <= p /\ p <= 1) (proms ++ ads_proms) ->
      bounds <> [] -> length bounds <> n ->
      exists self, init args = Ok (self, [BoundsDoNotMatchCategories])
        /\ diversity_bounds self =
             if (length bounds <? n)%nat
             then bounds ++ replicate (n - length bounds) (default 0 (last bounds))
             else take n bounds).
Proof.
  intros bounds proms ads_proms n. split.
  - intros Hbad. unfold init. fold bounds proms ads_proms.
    destruct (sum_of_bounds_cases 0 bounds) as [-> | Hsum]; [done|].
    destruct Hbad as [Hneg | [Hbig | Hprom]].
    + by rewrite (sum_of_bounds_negative 0 _ Hneg).
    + rewrite Hsum. simpl.
      assert (Qltb (float_sum proms) (fold_left float_add bounds 0) = true) as ->
        by (by apply Qltb_lt).
      done.
    + rewrite Hsum. simpl. destruct (Qltb (float_sum proms) _); [done|].
      destruct (fit_bounds _ _) as [[fitted w]|]; simpl; [|done].
      by rewrite (check_prominences_refuses _ Hprom).
  - intros Hpos Hsum Hproms Hne Hlen.
    assert (exists self w, init args = Ok (self, w)) as (self & w & Hinit).
    { unfold init. fold bounds proms ads_proms.
      rewrite (sum_of_bounds_total 0 bounds Hpos). simpl.
      assert (Qltb (float_sum proms) (fold_left float_add bounds 0) = false) as ->
        by (by apply Qltb_ge).
      assert (exists fw, fit_bounds bounds (length (arg_categories args)) = Ok fw)
        as ([fitted w] & ->).
      { unfold fit_bounds, last_item.
        destruct (last bounds) eqn:Hl; [|by apply last_None in Hl].
        simpl. repeat case_match; eauto. }
      simpl. rewrite (check_prominences_accepts _ Hproms). simpl. eauto. }
    exists self. apply init_diversity_bounds in Hinit as Hfit.
    fold bounds n in Hfit. revert Hfit. unfold fit_bounds, last_item.
    apply Nat.eqb_neq in Hlen. rewrite Hlen. simpl.
    destruct (last bounds) as [final|] eqn:Hl; [|by apply last_None in Hl].
    simpl. destruct (length bounds <? n)%nat; intros [= <- <-]; by rewrite Hinit.
Qed.

(** The bounds 0.1, 0.2, 0.3 against the prominences 0.1, 0.5: the running
    total of the bounds is 0.6000000000000001, the sum of the prominences
    0.6, and the constructor refuses them; and one bound of a half for
    three categories and a slot of prominence one is extended. *)
Lemma init_rejects_bad_configurations_witness :
  is_error (init args_rounded_sums)
  /\ exists self, init args_one_bound = Ok (self, [BoundsDoNotMatchCategories])
       /\ diversity_bounds self = [1 # 2; 1 # 2; 1 # 2].
Proof.
  split.
  - apply (init_rejects_bad_configurations args_rounded_sums).
    right. left. vm_compute. reflexivity.
  - apply (init_rejects_bad_configurations args_one_bound).
    + simpl. repeat constructor; discriminate.
    + vm_compute. discriminate.
    + simpl. repeat constructor; discriminate.
    + discriminate.
    + simpl. lia.
Defined.

(** The sums that the constructor compares are the rounded ones: the
    bounds 0.1, 0.2, 0.3 and the prominences 0.1, 0.5 have the same sum,
    as decimal fractions and as doubles, and are refused; three
    prominences of 2.4/3 have a sum below that of six bounds of 0.4, and
    are accepted. *)
Lemma init_compares_rounded_sums :
  (Qsum (arg_allocation_diversity_bounds args_rounded_sums)
     == Qsum (arg_real_slot_promenances args_rounded_sums)
   /\ Qsum (map round64 (arg_allocation_diversity_bounds args_rounded_sums))
        == Qsum (map round64 (arg_real_slot_promenances args_rounded_sums))
   /\ init args_rounded_sums = Raise RuntimeError)
  /\ (Qsum (map round64 (arg_real_slot_promenances args_rounded_down))
        < Qsum (map round64 (arg_allocation_diversity_bounds args_rounded_down))
      /\ exists self, init args_rounded_down = Ok (self, [])).
Proof.
  split; [split; [|split]|split].
  - reflexivity.
  - vm_compute. reflexivity.
  - vm_compute. reflexivity.
  - vm_compute. reflexivity.
  - eexists. vm_compute. reflexivity.
Qed.

(** C4 (the code departs from it). One category and no bound at all: the
    lengths differ, every prominence is in [0,1], and the constructor,
    which at this point announces that the bounds will be extended or
    truncated, stops with an IndexError on the last bound of an empty
    list. *)
Lemma init_aborts_on_empty_bounds :
  length (arg_allocation_diversity_bounds args_without_bounds)
    <> length (arg_categories args_without_bounds)
  /\ Forall (fun p => 0 <= p /\ p <= 1)
       (arg_real_slot_promenances args_without_bounds
          ++ arg_ads_real_slot_promenances args_without_bounds)
  /\ init args_without_bounds = Raise IndexError.
Proof.
  split; [simpl; lia|]. split; [|vm_compute; reflexivity].
  simpl. repeat constructor; discriminate.
Qed.

(** C10. When the list of diversity bounds is shorter than the list of
    categories, the check of their sum sees the list as supplied; the
    list is extended with copies of its last bound only afterwards. So
    some configurations are accepted although their extended bounds sum
    to strictly more than the total prominence of the news slots. *)
Theorem short_bounds_are_checked_before_extension :
  (forall args self w,
      init args = Ok (self, w) ->
      (length (arg_allocation_diversity_bounds args) < length (arg_categories args))%nat ->
      float_sum (arg_allocation_diversity_bounds args)
        <= float_sum (arg_real_slot_promenances args)
      /\ diversity_bounds self =
           arg_allocation_diversity_bounds args
             ++ replicate (length (arg_categories args)
                             - length (arg_allocation_diversity_bounds args))
                  (default 0 (last (arg_allocation_diversity_bounds args))))
  /\ exists args self w,
      init args = Ok (self, w)
      /\ (length (arg_allocation_diversity_bounds args) < length (arg_categories args))%nat
      /\ Qsum (real_slot_promenances self) < Qsum (diversity_bounds self)
      /\ float_sum (real_slot_promenances self) < float_sum (diversity_bounds self).
Proof.
  split.
  - intros args self w Hinit Hshort. split.
    + revert Hinit. unfold init.
      destruct (sum_of_bounds_cases 0 (arg_allocation_diversity_bounds args))
        as [-> | ->]; [done|]. simpl.
      destruct (Qltb _ _) eqn:Hsum; [done|]. apply Qltb_ge in Hsum. by intros _.
    + apply init_diversity_bounds in Hinit. revert Hinit. unfold fit_bounds, last_item.
      assert ((length (arg_allocation_diversity_bounds args)
                 =? length (arg_categories args))%nat = false) as ->
        by (apply Nat.eqb_neq; lia).
      apply Nat.ltb_lt in Hshort. rewrite Hshort. simpl.
      destruct (last _); simpl; [|done]. by intros [= <- _].
  - exists args_one_bound, (learner_of args_one_bound), [BoundsDoNotMatchCategories].
    split; [vm_compute; reflexivity|]. split; [simpl; lia|].
    split; vm_compute; reflexivity.
Qed.

Lemma short_bounds_are_checked_before_extension_witness :
  float_sum (arg_allocation_diversity_bounds args_one_bound)
    <= float_sum (arg_real_slot_promenances args_one_bound)
  /\ diversity_bounds (learner_of args_one_bound) = [1 # 2; 1 # 2; 1 # 2].
Proof.
  apply (proj1 short_bounds_are_checked_before_extension args_one_bound
           (learner_of args_one_bound) [BoundsDoNotMatchCategories]).
  - vm_compute. reflexivity.
  - simpl. lia.
Defined.

(** ** The news pool *)

Lemma validate_news_list_accepts (h : Store) (cats : list string) (l : list content) :
  Forall (acceptable_news h cats) l -> validate_news_list h cats l = Ok (references l).
Proof.
  induction 1 as [|c l Hc _ IH]; [done|].
  destruct c as [r|r]; simpl in *; [|done].
  unfold contains. rewrite bool_decide_eq_true_2 by done. simpl. by rewrite IH.
Qed.

Lemma validate_news_list_refuses (h : Store) (cats : list string) (l : list content) :
  ~ Forall (acceptable_news h cats) l -> validate_news_list h cats l = Raise RuntimeError.
Proof.
  induction l as [|c l IH]; intros Hbad; [by destruct Hbad|].
  destruct c as [r|r]; simpl; [|done].
  unfold contains. destruct (decide (news_category (news_at h r) ∈ cats)) as [Hin|Hout].
  - rewrite bool_decide_eq_true_2 by done. simpl.
    rewrite IH; [done|]. intros Hall. apply Hbad. by constructor.
  - by rewrite bool_decide_eq_false_2.
Qed.

Lemma index_of_known (cats : list string) (c : string) :
  c ∈ cats -> exists i, index_of String.eqb c cats = Some i.
Proof.
  induction 1 as [c l | c d l _ IH]; simpl.
  - rewrite String.eqb_refl. eauto.
  - destruct (String.eqb d c); [eauto|]. destruct IH as [i ->]. simpl. eauto.
Qed.

Lemma count_per_category_total (h : Store) (cats : list string) (pool : list ref)
    (counts : list nat) :
  Forall (known_category h cats) pool ->
  exists counts', count_per_category h cats pool counts = (Ok tt, counts').
Proof.
  intros Hall. revert counts. induction Hall as [|r pool Hr _ IH]; intros counts; simpl.
  - eauto.
  - destruct (index_of_known _ _ Hr) as [i ->]. apply IH.
Qed.

Lemma references_known (h : Store) (cats : list string) (l : list content) :
  Forall (acceptable_news h cats) l -> Forall (known_category h cats) (references l).
Proof.
  induction 1 as [|c l Hc _ IH]; simpl; [constructor|].
  constructor; [|done]. by destruct c.
Qed.

(** A list that iterates over itself while it grows never runs out. *)
Lemma append_to_itself_never_ends {A} (fuel i : nat) (l : list A) :
  (i < length l)%nat -> append_to_itself fuel i l = None.
Proof.
  revert i l. induction fuel as [|fuel IH]; intros i l Hi; [done|].
  cbn [append_to_itself].
  destruct (lookup_lt_is_Some_2 l i Hi) as [x ->].
  apply IH. rewrite length_app. simpl. lia.
Qed.

(** The call on a list of the caller's own, which always returns. *)
Lemma fill_news_pool_a_list (fuel : nat) (h : Store) (self : NewsLearner)
    (items : list content) (append : bool) :
  fill_news_pool fuel h self (a_list items) append
  = Some (match validate_news_list h (categories self) items with
          | Raise e => (Raise e, self)
          | Ok refs =>
              recount_and_grow h
                (with_news_pool (if append then news_pool self ++ refs else refs) self)
          end).
Proof.
  unfold fill_news_pool. cbn [contents].
  destruct (validate_news_list h (categories self) items); [|done].
  by destruct append.
Qed.

(** C8 (as amended). [fill_news_pool] validates every element before any
    insertion: if some element of the list passed is not a News or has a
    category outside the configured set it fails and leaves the learner
    unchanged. When every element is valid, the list is a list object
    other than the pool's own and the allocation approach is not "full",
    it succeeds; [append=False] makes the pool exactly the supplied list
    and [append=True] appends every supplied item to the existing pool.
    Under "full" the resulting pool is moreover re-sorted by category,
    provided the items already pooled have known categories. *)
Theorem fill_news_pool_validates_first
    (fuel : nat) (h : Store) (self : NewsLearner) (news_list : list content)
    (append : bool) :
  let grown := if append then news_pool self ++ references news_list
               else references news_list in
  (forall passed,
      ~ Forall (acceptable_news h (categories self))
          (contents ANews (news_pool self) passed) ->
      fill_news_pool fuel h self passed append = Some (Raise RuntimeError, self))
  /\ (Forall (acceptable_news h (categories self)) news_list ->
      allocation_approach self <> "full" ->
      exists self',
        fill_news_pool fuel h self (a_list news_list) append = Some (Ok tt, self')
        /\ news_pool self' = grown)
  /\ (Forall (acceptable_news h (categories self)) news_list ->
      allocation_approach self = "full" ->
      Forall (known_category h (categories self)) grown ->
      exists self',
        fill_news_pool fuel h self (a_list news_list) append = Some (Ok tt, self')
        /\ news_pool self' = py_sort (by_category h) grown).
Proof.
  intros grown. repeat split.
  - intros passed Hbad. unfold fill_news_pool.
    by rewrite (validate_news_list_refuses _ _ _ Hbad).
  - intros Hall Hnot. rewrite fill_news_pool_a_list.
    rewrite (validate_news_list_accepts _ _ _ Hall). unfold recount_and_grow.
    apply String.eqb_neq in Hnot. simpl. rewrite Hnot. eauto.
  - intros Hall Hfull Hknown. rewrite fill_news_pool_a_list.
    rewrite (validate_news_list_accepts _ _ _ Hall). unfold recount_and_grow.
    apply String.eqb_eq in Hfull. simpl. rewrite Hfull.
    destruct (count_per_category_total h (categories self) grown
                (news_per_category self) Hknown) as [counts Hcount].
    fold grown. rewrite Hcount. eauto.
Qed.

Lemma fill_news_pool_validates_first_witness :
  fill_news_pool 0 example_store (learner_of (args_two_slots "standard"))
    (a_list [ANews 0%nat; AnAd 0%nat]) true
    = Some (Raise RuntimeError, learner_of (args_two_slots "standard"))
  /\ (exists self',
        fill_news_pool 0 example_store (learner_of (args_two_slots "standard"))
          (a_list [ANews 2%nat; ANews 0%nat]) false = Some (Ok tt, self')
        /\ news_pool self' = [2; 0]%nat)
  /\ (exists self',
        fill_news_pool 0 example_store (learner_of (args_two_slots "full"))
          (a_list [ANews 2%nat; ANews 0%nat]) false = Some (Ok tt, self')
        /\ news_pool self' = [0; 2]%nat).
Proof.
  split; [|split].
  - apply (proj1 (fill_news_pool_validates_first 0 example_store
                    (learner_of (args_two_slots "standard")) [] true)
             (a_list [ANews 0%nat; AnAd 0%nat])).
    intros Hall. apply Forall_cons in Hall as [_ Hall].
    apply Forall_cons in Hall as [Hall _]. exact Hall.
  - apply (fill_news_pool_validates_first 0 example_store
             (learner_of (args_two_slots "standard")) [ANews 2%nat; ANews 0%nat] false).
    + apply (bool_decide_unpack _); vm_compute; exact I.
    + vm_compute. discriminate.
  - apply (fill_news_pool_validates_first 0 example_store
             (learner_of (args_two_slots "full")) [ANews 2%nat; ANews 0%nat] false).
    + apply (bool_decide_unpack _); vm_compute; exact I.
    + vm_compute. reflexivity.
    + apply (bool_decide_unpack _); vm_compute; exact I.
Defined.

(** C8 (as stated) fails under the "full" approach: with an item of an
    unknown category already pooled (through [insert_into_news_pool]),
    a list of valid items, the caller's own, makes [fill_news_pool] fail,
    and after the insertion. *)
Lemma fill_news_pool_full_approach_differs :
  let self := learner_of (args_two_slots "full") in
  Forall (acceptable_news example_store (categories self)) [ANews 2%nat; ANews 0%nat]
  /\ exists self',
       fill_news_pool 0 example_store (insert_into_news_pool self 5%nat)
         (a_list [ANews 2%nat; ANews 0%nat]) true = Some (Raise ValueError, self')
       /\ news_pool self' = [5; 2; 0]%nat.
Proof.
  split.
  - apply (bool_decide_unpack _); vm_compute; exact I.
  - eexists. split; vm_compute; reflexivity.
Qed.

(** ** The ads pool *)

Lemma negative_range_S (m : nat) :
  negative_range (S m) = (- Z.of_nat (S m))%Z :: negative_range m.
Proof.
  unfold negative_range. rewrite <- cons_seq, <- fmap_S_seq. simpl. f_equal.
  rewrite <- list_fmap_compose. apply list_fmap_ext. intros _ t _. simpl. lia.
Qed.

(** Walking the pool from the left with negative indices visits every
    entry once, whatever was deleted before it. *)
Lemma remove_loop_filters (ads_list suffix pre : list ref) :
  remove_loop ads_list (negative_range (length suffix)) (pre ++ suffix)
    = (Ok tt, pre ++ filter (fun ad => ad ∉ ads_list) suffix).
Proof.
  revert pre. induction suffix as [|x suffix IH]; intros pre; [done|].
  cbn [length]. rewrite negative_range_S. cbn [remove_loop].
  unfold from_end. rewrite length_app. cbn [length].
  assert ((0 <=? Z.of_nat (length pre + S (length suffix))
                 + - Z.of_nat (S (length suffix)))%Z = true) as ->
    by (apply Z.leb_le; lia).
  replace (Z.to_nat (Z.of_nat (length pre + S (length suffix))
                     + - Z.of_nat (S (length suffix)))) with (length pre) by lia.
  cbn. unfold getitem. rewrite list_lookup_middle by done. cbn.
  unfold contains. destruct (decide (x ∉ ads_list)) as [Hout|Hin].
  - rewrite bool_decide_eq_false_2 by done.
    rewrite (cons_middle x pre suffix), app_assoc, IH.
    by rewrite <- app_assoc.
  - apply dec_stable in Hin. rewrite bool_decide_eq_true_2 by done.
    replace (delete (length pre) (pre ++ x :: suffix)) with (pre ++ suffix).
    + by rewrite IH.
    + clear. induction pre as [|y pre IHp]; [done|]. simpl. by rewrite <- IHp.
Qed.

(** C9. For a learner whose ads technique is one that
    [find_ads_best_allocation] accepts, "LP" or "res_LP",
    [remove_ad_from_pool] removes every occurrence of the listed ads from
    the ads pool, keeps the other ads in their order, and leaves the
    per-category buffers, like every other attribute, as they were: the
    purge of the buffers is guarded by the technique being "resLP". *)
Theorem remove_ad_from_pool_keeps_buffers
    (h : Store) (self : NewsLearner) (ads_list : list ref) :
  ads_allocation_technique self = "LP" \/ ads_allocation_technique self = "res_LP" ->
  exists self',
    remove_ad_from_pool h self ads_list = (Ok tt, self')
    /\ self' = with_ads_pool (filter (fun ad => ad ∉ ads_list) (ads_pool self)) self
    /\ ads_pool self' = filter (fun ad => ad ∉ ads_list) (ads_pool self)
    /\ ads_per_category self' = ads_per_category self.
Proof.
  intros Htech. unfold remove_ad_from_pool.
  pose proof (remove_loop_filters ads_list (ads_pool self) []) as Hloop.
  rewrite app_nil_l in Hloop. rewrite Hloop. cbn [app].
  assert (String.eqb (ads_allocation_technique
                        (with_ads_pool (filter (fun ad => ad ∉ ads_list) (ads_pool self)) self))
                     "resLP" = false) as ->.
  { simpl. by destruct Htech as [-> | ->]. }
  eexists. repeat split.
Qed.

Lemma remove_ad_from_pool_keeps_buffers_witness :
  exists self',
    remove_ad_from_pool example_store
      (with_ads_pool [0; 1; 0]%nat (learner_of (args_two_slots "standard"))) [0%nat]
      = (Ok tt, self')
    /\ ads_pool self' = [1%nat]
    /\ ads_per_category self' = [([], []); ([], [])].
Proof.
  destruct (remove_ad_from_pool_keeps_buffers example_store
              (with_ads_pool [0; 1; 0]%nat (learner_of (args_two_slots "standard")))
              [0%nat]) as (self' & Hrun & _ & Hpool & Hbuf).
  - right. reflexivity.
  - exists self'. split; [exact Hrun|]. split.
    + rewrite Hpool. vm_compute. reflexivity.
    + rewrite Hbuf. reflexivity.
Defined.

(** ** The largest entry and the stable sort *)

Lemma argmax_from_spec (l pre : list Q) (best : Q) (besti : nat) :
  pre !! besti = Some best ->
  Forall (fun q => q <= best) pre ->
  (forall j q, (j < besti)%nat -> pre !! j = Some q -> q < best) ->
  exists m,
    (pre ++ l) !! argmax_from best besti (length pre) l = Some m
    /\ Forall (fun q => q <= m) (pre ++ l)
    /\ forall j q, (j < argmax_from best besti (length pre) l)%nat ->
                   (pre ++ l) !! j = Some q -> q < m.
Proof.
  revert pre best besti. induction l as [|x l IH]; intros pre best besti Hb Hall Hfirst.
  - simpl. rewrite app_nil_r. eauto.
  - simpl. rewrite (cons_middle x pre l), app_assoc.
    assert (besti < length pre)%nat as Hlt by (by eapply lookup_lt_Some).
    assert (length (pre ++ [x]) = S (length pre)) as Hlen
      by (rewrite length_app; simpl; lia).
    rewrite <- Hlen.
    destruct (Qltb best x) eqn:Hx.
    + apply Qltb_lt in Hx.
      apply IH.
      * by apply list_lookup_middle.
      * apply Forall_app. split; [|repeat constructor; lra].
        eapply Forall_impl; [exact Hall|]. simpl. intros q Hq. lra.
      * intros j q Hj Hq. rewrite lookup_app_l in Hq by lia.
        eapply Forall_lookup_1 in Hall; [|exact Hq]. simpl in Hall. lra.
    + apply Qltb_ge in Hx. apply IH.
      * by rewrite lookup_app_l.
      * apply Forall_app. split; [done | repeat constructor; lra].
      * intros j q Hj Hq. rewrite lookup_app_l in Hq by lia. eauto.
Qed.

Lemma argmax_spec (l : list Q) :
  l <> [] ->
  exists i m,
    argmax l = Ok i /\ l !! i = Some m
    /\ Forall (fun q => q <= m) l
    /\ forall j q, (j < i)%nat -> l !! j = Some q -> q < m.
Proof.
  destruct l as [|x l]; [done|]. intros _.
  destruct (argmax_from_spec l [x] x 0%nat) as (m & Hm & Hall & Hfirst).
  - done.
  - repeat constructor. lra.
  - intros j q Hj. lia.
  - exists (argmax_from x 0%nat 1%nat l), m. simpl in *. eauto.
Qed.

Lemma insert_sorted_perm {A} (precedes : A -> A -> bool) (x : A) (l : list A) :
  insert_sorted precedes x l ≡ₚ x :: l.
Proof.
  induction l as [|y l IH]; simpl; [done|].
  destruct (precedes y x); [|done].
  rewrite IH. apply Permutation_swap.
Qed.

Lemma py_sort_perm {A} (precedes : A -> A -> bool) (l : list A) :
  py_sort precedes l ≡ₚ l.
Proof.
  induction l as [|x l IH]; simpl; [done|].
  unfold py_sort in IH. by rewrite insert_sorted_perm, IH.
Qed.

Lemma py_sort_length {A} (precedes : A -> A -> bool) (l : list A) :
  length (py_sort precedes l) = length l.
Proof. apply Permutation_length, py_sort_perm. Qed.

(** ** Pages under construction *)

Lemma free_slots_lookup (result : list (option ref)) :
  (0 < free_slots result)%nat -> exists j, result !! j = Some None.
Proof.
  unfold free_slots. induction result as [|r result IH]; simpl; [lia|].
  destruct r as [x|].
  - rewrite filter_cons_False by done. intros Hpos.
    destruct (IH Hpos) as [j Hj]. by exists (S j).
  - intros _. by exists 0%nat.
Qed.

Lemma free_slots_insert (result : list (option ref)) (i : nat) (x : ref) :
  result !! i = Some None ->
  S (free_slots (<[i := Some x]> result)) = free_slots result
  /\ omap id (<[i := Some x]> result) ≡ₚ x :: omap id result.
Proof.
  unfold free_slots. revert i. induction result as [|r result IH]; intros i Hi; [done|].
  destruct i as [|i]; simpl in *.
  - injection Hi as ->. rewrite filter_cons_False by done.
    rewrite filter_cons_True by done. done.
  - destruct (IH i Hi) as [Hn Hp]. destruct r as [y|].
    + rewrite !filter_cons_False by done. split; [done|].
      simpl. rewrite Hp. apply Permutation_swap.
    + rewrite !filter_cons_True by done. simpl. split; [by rewrite Hn | done].
Qed.

Lemma free_slots_none (result : list (option ref)) :
  free_slots result = 0%nat -> result = Some <$> omap id result.
Proof.
  unfold free_slots. induction result as [|r result IH]; [done|].
  destruct r as [x|].
  - rewrite filter_cons_False by done. intros H0.
    change (Some x :: result = Some x :: (Some <$> omap id result)).
    f_equal. by apply IH.
  - by rewrite filter_cons_True.
Qed.

Lemma free_slots_replicate (n : nat) : free_slots (replicate n None) = n.
Proof.
  unfold free_slots. induction n as [|n IH]; [done|].
  cbn [replicate]. rewrite filter_cons_True by done. cbn [length]. by rewrite IH.
Qed.

Lemma omap_replicate_none (n : nat) : omap id (replicate n (@None ref)) = [].
Proof. induction n as [|n IH]; [done|]. simpl. exact IH. Qed.

Lemma slots_agree_insert (mark floor : Q) (result : list (option ref))
    (proms : list Q) (i : nat) (x : ref) :
  slots_agree mark floor result proms ->
  slots_agree mark floor (<[i := Some x]> result) (<[i := mark]> proms).
Proof. intros H. by apply Forall2_insert. Qed.

(** The largest working prominence is at a free slot while one is left. *)
Lemma argmax_picks_free (mark floor : Q) (result : list (option ref)) (proms : list Q) :
  mark <= floor ->
  slots_agree mark floor result proms ->
  (0 < free_slots result)%nat ->
  exists i, argmax proms = Ok i /\ result !! i = Some None
            /\ (i < length result)%nat /\ (i < length proms)%nat.
Proof.
  intros Hmark Hagree Hfree.
  destruct (free_slots_lookup _ Hfree) as [j Hj].
  destruct (Forall2_lookup_l _ _ _ _ _ Hagree Hj) as (p & Hp & Hfloor & Hne).
  destruct (argmax_spec proms) as (i & m & Harg & Hm & Hall & _).
  { intros ->. done. }
  exists i. split; [done|].
  destruct (Forall2_lookup_r _ _ _ _ _ Hagree Hm) as (r & Hr & Hrm).
  assert (i < length result)%nat by (by eapply lookup_lt_Some).
  assert (i < length proms)%nat by (by eapply lookup_lt_Some).
  destruct r as [y|]; [|done].
  subst m. eapply Forall_lookup_1 in Hall; [|exact Hp]. simpl in Hall.
  exfalso. apply Hne. lra.
Qed.

Lemma standard_loop_spec (count : nat) (tmp : list ref) (proms : list Q)
    (result : list (option ref)) :
  slots_agree (-1) 0 result proms ->
  free_slots result = count ->
  (count <= length tmp)%nat ->
  exists final,
    standard_loop count tmp proms result = Ok final
    /\ free_slots final = 0%nat
    /\ length final = length result
    /\ omap id final ≡ₚ omap id result ++ take count tmp.
Proof.
  revert tmp proms result.
  induction count as [|count IH]; intros tmp proms result Hagree Hfree Hlen.
  - exists result. simpl. rewrite take_0, app_nil_r. done.
  - destruct (argmax_picks_free (-1) 0 result proms) as (i & Harg & Hi & Hir & Hip);
      [lra | done | lia |].
    simpl. rewrite Harg. simpl.
    destruct tmp as [|x rest]; [simpl in Hlen; lia|].
    unfold setitem. rewrite !decide_True by done. simpl.
    destruct (free_slots_insert result i x Hi) as [Hn Hperm].
    destruct (IH rest (<[i := -1]> proms) (<[i := Some x]> result))
      as (final & -> & Hfinal & Hflen & Hfperm).
    + by apply slots_agree_insert.
    + lia.
    + simpl in Hlen. lia.
    + exists final. split; [done|]. split; [done|].
      rewrite Hflen, length_insert. split; [done|].
      rewrite Hfperm, Hperm. simpl. by rewrite Permutation_middle.
Qed.

(** The page of the standard approach holds, in some order, the first
    items of the pool sorted by quality, one per slot. *)
Lemma greedy_layout_spec (quality : ref -> Q) (pool : list ref) (proms : list Q) :
  Forall (fun p => 0 <= p /\ p <= 1) proms ->
  (length proms <= length pool)%nat ->
  exists layout,
    greedy_layout quality pool proms = Ok (Some <$> layout)
    /\ length layout = length proms
    /\ layout ≡ₚ take (length proms) (py_sort (better quality) pool)
    /\ layout ⊆+ pool.
Proof.
  intros Hproms Hlen. unfold greedy_layout.
  destruct (standard_loop_spec (length proms)
              (py_sort (better quality) pool) proms
              (replicate (length proms) None))
    as (final & Hrun & Hfree & Hflen & Hperm).
  - unfold slots_agree. apply Forall2_same_length_lookup_2.
    + by rewrite length_replicate.
    + intros i r p Hr Hp. apply lookup_replicate in Hr as [-> _].
      eapply Forall_lookup_1 in Hproms; [|exact Hp]. simpl in Hproms.
      split; [tauto|]. intros Heq. rewrite Heq in Hproms. lra.
  - apply free_slots_replicate.
  - by rewrite py_sort_length.
  - rewrite omap_replicate_none, app_nil_l in Hperm.
    exists (omap id final). split; [by rewrite <- free_slots_none|].
    split.
    { apply Permutation_length in Hperm. rewrite Hperm, length_take, py_sort_length. lia. }
    split; [done|].
    rewrite Hperm. rewrite <- (py_sort_perm (better quality) pool) at 2.
    apply sublist_submseteq, sublist_take.
Qed.

(** ** Sampling and reporting never fail on a valid configuration *)

Lemma submseteq_keeps_NoDup {A} (l k : list A) : l ⊆+ k -> NoDup k -> NoDup l.
Proof.
  intros Hsub Hk. apply submseteq_sublist_r in Hsub as (m & Hperm & Hm).
  rewrite Hperm. by eapply sublist_NoDup.
Qed.

Lemma scan_pivots_total (value : Q) (pivots : list Q) (k : nat) :
  Exists (fun p => value < p) pivots ->
  exists k', scan_pivots value pivots k = Ok k' /\ (k' < k + length pivots)%nat.
Proof.
  revert k. induction pivots as [|p rest IH]; intros k Hex; [inversion Hex|].
  simpl. destruct (Qleb p value) eqn:Hp.
  - apply Qleb_le in Hp. apply Exists_cons in Hex as [Hlt | Hex]; [lra|].
    destruct (IH (S k) Hex) as (k' & -> & Hk'). exists k'. split; [done | lia].
  - exists k. split; [done | lia].
Qed.

Lemma position_along_total (pivots : list Q) (value : Q) :
  pivots <> [] ->
  exists k, position_along pivots value = Ok k /\ (k <= length pivots)%nat.
Proof.
  intros Hne. unfold position_along, last_item.
  destruct (last pivots) as [top|] eqn:Hl; [|by apply last_None in Hl].
  simpl. destruct (Qltb value top) eqn:Hv.
  - apply Qltb_lt in Hv.
    destruct (scan_pivots_total value pivots 0) as (k & -> & Hk).
    + apply Exists_exists. exists top. split; [|done]. by apply last_Some_elem_of.
    + exists k. split; [done | lia].
  - eauto.
Qed.

Lemma compute_position_total (self : NewsLearner) (user : SyntheticUser) (news : News) :
  valid_configuration self ->
  exists posx posy,
    compute_position_in_learning_matrix self user news = Ok (posx, posy)
    /\ (posx <= length (news_row_pivots self))%nat
    /\ (posy <= length (news_column_pivots self))%nat.
Proof.
  intros (_ & _ & Hc & Hr & _). unfold compute_position_in_learning_matrix.
  destruct (position_along_total _ (get_promenance_cumsum user news) Hc) as (y & -> & Hy).
  destruct (position_along_total _ (get_amount_of_clicks user news) Hr) as (x & -> & Hx).
  simpl. eauto.
Qed.

Lemma grid_cell_total (self : NewsLearner) (posx posy : nat) :
  valid_configuration self ->
  (posx <= length (news_row_pivots self))%nat ->
  (posy <= length (news_column_pivots self))%nat ->
  exists row w, weighted_betas_matrix self !! posx = Some row
                /\ row !! posy = Some w
                /\ grid_cell self posx posy = Ok w.
Proof.
  intros (_ & _ & _ & _ & Hrows & Hcols) Hx Hy. unfold grid_cell, getitem.
  destruct (lookup_lt_is_Some_2 (weighted_betas_matrix self) posx) as [row Hrow]; [lia|].
  eapply Forall_lookup_1 in Hcols as Hlen; [|exact Hrow]. simpl in Hlen.
  destruct (lookup_lt_is_Some_2 row posy) as [w Hw]; [lia|].
  exists row, w. rewrite Hrow. simpl. by rewrite Hw.
Qed.

Lemma put_grid_cell_valid (self : NewsLearner) (posx posy : nat)
    (w : WeightedBetaDistribution) :
  valid_configuration self -> valid_configuration (put_grid_cell self posx posy w).
Proof.
  intros (Hl & Hp & Hc & Hr & Hrows & Hcols). unfold put_grid_cell.
  repeat split; simpl; try done.
  - destruct (weighted_betas_matrix self !! posx); [|done]. by rewrite length_insert.
  - destruct (weighted_betas_matrix self !! posx) as [row|] eqn:Hrow; [|done].
    apply Forall_insert; [done|]. rewrite length_insert.
    by eapply Forall_lookup_1 in Hcols; [|exact Hrow].
Qed.

Lemma with_news_pool_valid (self : NewsLearner) (pool : list ref) :
  valid_configuration self -> valid_configuration (with_news_pool pool self).
Proof. intros H. exact H. Qed.

Lemma sample_quality_total (rng : oracle) (st : Sys) (r : ref) (interest_decay : bool) :
  valid_configuration (learner st) ->
  exists st', sample_quality rng st r interest_decay = (Ok tt, st')
              /\ learner st' = learner st /\ visitor st' = visitor st.
Proof.
  intros Hvalid. unfold sample_quality. destruct interest_decay.
  - destruct (compute_position_total (learner st) (visitor st) (news_at (store st) r) Hvalid)
      as (x & y & -> & Hx & Hy).
    destruct (grid_cell_total _ x y Hvalid Hx Hy) as (row & w & _ & _ & Hcell).
    simpl. rewrite Hcell. eauto.
  - destruct (grid_cell_total (learner st) 0 0 Hvalid) as (row & w & _ & _ & ->); [lia..|].
    eauto.
Qed.

Lemma sample_pool_total (rng : oracle) (st : Sys) (pool : list ref) (interest_decay : bool) :
  valid_configuration (learner st) ->
  exists st', sample_pool rng st pool interest_decay = (Ok tt, st')
              /\ learner st' = learner st /\ visitor st' = visitor st.
Proof.
  revert st. induction pool as [|r pool IH]; intros st Hvalid; simpl; [eauto|].
  destruct (sample_quality_total rng st r interest_decay Hvalid) as (st1 & -> & Hl & Hv).
  destruct (IH st1) as (st2 & -> & Hl2 & Hv2); [by rewrite Hl|].
  exists st2. split; [done|]. split; congruence.
Qed.

Lemma index_in_table_lt (table : list (Z * Q * Q)) (id : Z) (i : nat) :
  index_in_table table id = Some i -> (i < length table)%nat.
Proof.
  revert i. induction table as [|row rest IH]; intros i; simpl; [done|].
  destruct (row.1.1 =? id)%Z.
  - intros [= <-]. lia.
  - destruct (index_in_table rest id) as [j|]; simpl; [|done].
    intros [= <-]. specialize (IH j eq_refl). lia.
Qed.

Lemma insert_between_total (ks : list nat) (id : Z) (prom : Q)
    (table : list (Z * Q * Q)) (inserted : bool) :
  Forall (fun k => S k < length table)%nat ks ->
  exists table' inserted',
    insert_between ks id prom table inserted = Ok (table', inserted')
    /\ (length table <= length table')%nat.
Proof.
  revert table inserted. induction ks as [|k ks IH]; intros table inserted Hks; simpl.
  - eauto.
  - apply Forall_cons in Hks as [Hk Hks]. unfold getitem.
    destruct (lookup_lt_is_Some_2 table k) as [below ->]; [lia|].
    destruct (lookup_lt_is_Some_2 table (S k)) as [above ->]; [lia|]. simpl.
    destruct ((below.1.1 <? id)%Z && (id <? above.1.1)%Z).
    + destruct (IH (list_insert_at (S k) (id, 0, prom) table) true)
        as (t' & i' & -> & Hlen).
      * eapply Forall_impl; [exact Hks|]. simpl. intros j Hj.
        unfold list_insert_at. rewrite length_app. simpl.
        rewrite length_take, length_drop. lia.
      * exists t', i'. split; [done|].
        unfold list_insert_at in Hlen. rewrite length_app in Hlen. simpl in Hlen.
        rewrite length_take, length_drop in Hlen. lia.
    + apply IH. done.
Qed.

Lemma note_allocation_total (user : SyntheticUser) (id : Z) (prom : Q) :
  exists user', note_allocation user id prom = Ok user'.
Proof.
  unfold note_allocation.
  destruct (index_in_table (last_news_in_allocation user) id) as [index|] eqn:Hidx.
  - apply index_in_table_lt in Hidx. unfold getitem.
    destruct (lookup_lt_is_Some_2 _ _ Hidx) as [row ->]. simpl. eauto.
  - set (table := last_news_in_allocation user).
    destruct (2 <=? length table)%nat eqn:H2.
    + apply Nat.leb_le in H2.
      destruct (insert_between_total (seq 0 (length table - 1)) id prom table false)
        as (t' & i' & -> & Hlen).
      { apply Forall_forall. intros k Hk. apply elem_of_seq in Hk. lia. }
      simpl. destruct i'; simpl; [eauto|].
      unfold getitem. destruct (lookup_lt_is_Some_2 t' 0) as [first ->]; [lia|]. simpl.
      destruct (id <? first.1.1)%Z; simpl; eauto.
    + destruct (length table =? 1)%nat eqn:H1.
      * apply Nat.eqb_eq in H1. unfold getitem.
        destruct (lookup_lt_is_Some_2 table 0) as [first ->]; [lia|]. simpl.
        destruct (id <? first.1.1)%Z; simpl; eauto.
      * simpl. eauto.
Qed.

Lemma update_slot_total (st : Sys) (result : list (option ref)) (i : nat) (r : ref)
    (interest_decay : bool) :
  valid_configuration (learner st) ->
  result !! i = Some (Some r) ->
  (i < length (real_slot_promenances (learner st)))%nat ->
  exists st', update_slot st result i interest_decay = (Ok tt, st')
              /\ valid_configuration (learner st')
              /\ real_slot_promenances (learner st') = real_slot_promenances (learner st).
Proof.
  intros Hvalid Hr Hi. unfold update_slot. rewrite Hr. destruct interest_decay.
  - destruct (compute_position_total (learner st) (visitor st) (news_at (store st) r) Hvalid)
      as (x & y & -> & Hx & Hy).
    destruct (grid_cell_total _ x y Hvalid Hx Hy) as (row & w & _ & _ & Hcell).
    simpl. rewrite Hcell. simpl.
    unfold getitem. destruct (lookup_lt_is_Some_2 _ _ Hi) as [prom ->]. simpl.
    destruct (note_allocation_total (visitor st) (news_id (news_at (store st) r)) prom)
      as [user' ->].
    eexists. split; [done|]. split; [|done]. by apply put_grid_cell_valid.
  - destruct (grid_cell_total (learner st) 0 0 Hvalid) as (row & w & _ & _ & ->); [lia..|].
    eexists. split; [done|]. split; [|done]. by apply put_grid_cell_valid.
Qed.

Lemma update_slots_total (st : Sys) (result : list (option ref)) (slots : list nat)
    (interest_decay : bool) :
  valid_configuration (learner st) ->
  Forall (fun i => (exists r, result !! i = Some (Some r))
                   /\ (i < length (real_slot_promenances (learner st)))%nat) slots ->
  exists st', update_slots st result slots interest_decay = (Ok tt, st').
Proof.
  revert st. induction slots as [|i slots IH]; intros st Hvalid Hall; simpl; [eauto|].
  apply Forall_cons in Hall as [[[r Hr] Hi] Hall].
  destruct (update_slot_total st result i r interest_decay Hvalid Hr Hi)
    as (st1 & -> & Hv1 & Hp1).
  apply IH; [done|]. by rewrite Hp1.
Qed.

Lemma check_prominences_inv (proms : list Q) :
  check_prominences proms = Ok tt -> Forall (fun p => 0 <= p /\ p <= 1) proms.
Proof.
  induction proms as [|p rest IH]; simpl; [constructor|].
  destruct (Qltb 1 p) eqn:H1; [done|]. destruct (Qltb p 0) eqn:H0; [done|].
  simpl. intros Hrest. apply Qltb_ge in H0, H1. constructor; [done | by apply IH].
Qed.

(** Construction yields a valid configuration as soon as pivots are
    given along both axes. *)
Lemma init_valid (args : init_args) (self : NewsLearner) (w : list warning) :
  init args = Ok (self, w) ->
  arg_news_column_pivot args <> [] ->
  arg_news_row_pivot args <> [] ->
  valid_configuration self.
Proof.
  unfold init.
  destruct (sum_of_bounds 0 _) as [t|]; simpl; [|done].
  destruct (Qltb _ t); [done|].
  destruct (fit_bounds _ _) as [[fitted w']|]; simpl; [|done].
  destruct (check_prominences _) as [[]|] eqn:Hcheck; simpl; [|done].
  intros [= <- <-] Hc Hr. apply check_prominences_inv, Forall_app in Hcheck as [Hp _].
  unfold valid_configuration.
  cbn [layout_slots real_slot_promenances news_column_pivots news_row_pivots
       weighted_betas_matrix].
  repeat split; try done.
  - cbn [length]. by rewrite length_replicate.
  - change (Forall (fun row : list WeightedBetaDistribution =>
                      length row = S (length (arg_news_column_pivot args)))
              (replicate (S (length (arg_news_row_pivot args)))
                 (replicate (S (length (arg_news_column_pivot args)))
                    (new_beta (length (arg_categories args))
                       (length (arg_real_slot_promenances args)))))).
    apply Forall_replicate. by rewrite length_replicate.
Qed.

(** C2 (as amended). If the pool holds fewer items than there are news
    slots, [find_best_allocation] fails before any sampling and leaves
    the whole system as it was. Otherwise, for a valid configuration and
    under the standard approach, it returns a page of exactly L items in
    which no entry of the pool is used more often than the pool holds it;
    so the page has no duplicate whenever the pool has none. *)
Theorem find_best_allocation_standard_page
    (solver : string -> Sys -> res (list (option ref)) * Sys)
    (rng : oracle) (st : Sys) (interest_decay update_assignment_matrices : bool) :
  ((length (news_pool (learner st)) < layout_slots (learner st))%nat ->
   find_best_allocation solver rng st interest_decay update_assignment_matrices
     = (Raise RuntimeError, st))
  /\ (valid_configuration (learner st) ->
      allocation_approach (learner st) = "standard" ->
      (layout_slots (learner st) <= length (news_pool (learner st)))%nat ->
      exists layout st',
        find_best_allocation solver rng st interest_decay update_assignment_matrices
          = (Ok (Some <$> layout), st')
        /\ length layout = layout_slots (learner st)
        /\ layout ⊆+ news_pool (learner st)
        /\ (NoDup (news_pool (learner st)) -> NoDup layout)).
Proof.
  split.
  - intros Hshort. unfold find_best_allocation.
    apply Nat.ltb_lt in Hshort. by rewrite Hshort.
  - intros Hvalid Happroach Hlong. unfold find_best_allocation.
    apply Nat.ltb_ge in Hlong as Hlong'. rewrite Hlong'. rewrite Happroach. simpl.
    destruct (sample_pool_total rng st (news_pool (learner st)) interest_decay Hvalid)
      as (st1 & -> & Hl1 & Hv1).
    rewrite Hl1, Happroach. simpl.
    pose proof Hvalid as (Hslots & Hproms & _).
    destruct (greedy_layout_spec (quality_in (store st1))
                (news_pool (learner st)) (real_slot_promenances (learner st)) Hproms)
      as (layout & Hrun & Hlen & _ & Hsub); [lia|].
    unfold greedy_layout in Hrun. rewrite <- Hslots in Hrun at 2.
    change (by_quality_desc (store st1)) with (better (quality_in (store st1))).
    rewrite Hrun.
    assert (length layout = layout_slots (learner st)) as Hlen' by lia.
    assert (NoDup (news_pool (learner st)) -> NoDup layout) as Hnd
      by (intros Hnd; by eapply submseteq_keeps_NoDup).
    destruct update_assignment_matrices; [|by eauto 8].
    match goal with
    | |- context [update_slots ?a ?b ?c ?d] =>
        destruct (update_slots_total a b c d) as [st' ->]
    end; [| |by eauto 8].
    + simpl. by apply with_news_pool_valid.
    + apply Forall_forall. intros i Hi. apply elem_of_seq in Hi.
      rewrite length_fmap in Hi. simpl. split; [|lia].
      destruct (lookup_lt_is_Some_2 layout i) as [r Hr]; [lia|].
      exists r. by rewrite list_lookup_fmap, Hr.
Qed.

Lemma find_best_allocation_standard_page_witness :
  find_best_allocation no_solver fair_oracle (scenario [0%nat]) false true
    = (Raise RuntimeError, scenario [0%nat])
  /\ exists layout st',
       find_best_allocation no_solver (scenario_oracle [3; 1; 0; 2]%nat)
         (scenario [3; 1; 0; 2]%nat) true true = (Ok (Some <$> layout), st')
       /\ length layout = 2%nat
       /\ layout ⊆+ [3; 1; 0; 2]%nat
       /\ (NoDup [3; 1; 0; 2]%nat -> NoDup layout).
Proof.
  split.
  - apply (find_best_allocation_standard_page no_solver fair_oracle
             (scenario [0%nat]) false true).
    vm_compute. lia.
  - apply (find_best_allocation_standard_page no_solver
             (scenario_oracle [3; 1; 0; 2]%nat) (scenario [3; 1; 0; 2]%nat) true true).
    + apply with_news_pool_valid.
      apply (init_valid (args_two_slots "standard") _ []);
        [reflexivity | simpl; discriminate | simpl; discriminate].
    + reflexivity.
    + vm_compute. lia.
Defined.

(** C2 (as stated) fails: an item held twice by the pool, which
    [insert_into_news_pool] allows, fills both slots of the page. *)
Lemma page_repeats_an_item_pooled_twice :
  let self := insert_into_news_pool
                (insert_into_news_pool (learner_of (args_two_slots "standard")) 0%nat)
                0%nat in
  let st := mkSys self example_store (mkUser [] []) 0 in
  news_pool self = [0; 0]%nat
  /\ layout_slots self = 2%nat
  /\ (find_best_allocation no_solver fair_oracle st false true).1
       = Ok [Some 0%nat; Some 0%nat]
  /\ ~ NoDup [0; 0]%nat.
Proof.
  repeat split.
  intros Hnd. apply NoDup_cons in Hnd as [Hni _]. apply Hni. constructor.
Qed.

(** ** The standard approach is a function of qualities and prominences *)

Section GreedyOrder.

Variable quality : ref -> Q.

Lemma insert_sorted_desc (x : ref) (l : list ref) :
  StronglySorted (fun a b => quality b <= quality a) l ->
  StronglySorted (fun a b => quality b <= quality a) (insert_sorted (better quality) x l).
Proof.
  induction 1 as [|y l Hs IH Hall]; simpl.
  - repeat constructor.
  - unfold better at 1. destruct (Qltb (quality x) (quality y)) eqn:Hxy.
    + apply Qltb_lt in Hxy. constructor; [done|].
      rewrite (insert_sorted_perm (better quality) x l). constructor; [lra | done].
    + apply Qltb_ge in Hxy. constructor; [by constructor|].
      constructor; [done|]. eapply Forall_impl; [exact Hall|]. simpl. intros z Hz. lra.
Qed.

Lemma insert_sorted_stable (q : Q) (x : ref) (l : list ref) :
  filter (fun r => quality r == q) (insert_sorted (better quality) x l)
    = filter (fun r => quality r == q) (x :: l).
Proof.
  induction l as [|y l IH]; simpl; [done|].
  unfold better at 1. destruct (Qltb (quality x) (quality y)) eqn:Hxy; [|done].
  apply Qltb_lt in Hxy.
  destruct (decide (quality y == q)) as [Hy|Hy].
  - rewrite (filter_cons_True _ y) by done. rewrite IH.
    rewrite (filter_cons_False _ x) by (intros Hx; rewrite Hx, Hy in Hxy; lra).
    rewrite (filter_cons_False _ x) by (intros Hx; rewrite Hx, Hy in Hxy; lra).
    by rewrite filter_cons_True.
  - rewrite (filter_cons_False _ y) by done. rewrite IH.
    destruct (decide (quality x == q)) as [Hx|Hx].
    + rewrite !(filter_cons_True _ x) by done. by rewrite filter_cons_False.
    + rewrite !(filter_cons_False _ x) by done. by rewrite filter_cons_False.
Qed.

(** The sort of the standard approach: the pool in decreasing quality,
    items of equal quality in the order the pool had them. *)
Lemma py_sort_desc_stable (pool : list ref) :
  py_sort (better quality) pool ≡ₚ pool
  /\ StronglySorted (fun a b => quality b <= quality a) (py_sort (better quality) pool)
  /\ forall q, filter (fun r => quality r == q) (py_sort (better quality) pool)
               = filter (fun r => quality r == q) pool.
Proof.
  split; [apply py_sort_perm|]. split.
  - induction pool as [|x pool IH]; simpl; [constructor|]. by apply insert_sorted_desc.
  - intros q. induction pool as [|x pool IH]; simpl; [done|].
    rewrite insert_sorted_stable.
    destruct (decide (quality x == q)).
    + rewrite !(filter_cons_True _ x) by done. f_equal. exact IH.
    + rewrite !(filter_cons_False _ x) by done. exact IH.
Qed.

End GreedyOrder.

Lemma sample_pool_learner (rng : oracle) (st : Sys) (pool : list ref) (interest_decay : bool) :
  learner (sample_pool rng st pool interest_decay).2 = learner st.
Proof.
  revert st. induction pool as [|r pool IH]; intros st; simpl; [done|].
  unfold sample_quality.
  destruct (if interest_decay then _ else _) as [w|e]; [|done].
  by rewrite IH.
Qed.

(** C6. Under the standard approach the page is a function of the
    sampled qualities, the pool and the slot prominences alone: it is
    [greedy_layout] of them, whatever the solver, the reward grid, the
    user and the flags. Its sort puts the pool in decreasing quality and
    keeps items of equal quality in the order of the pool, and the next
    slot is the first one of greatest remaining prominence. In the
    scenario of two slots of prominence 0.9 and 0.5, no diversity bound
    and qualities 0.9, 0.8, 0.2, 0.1 for the items 0 to 3, pooled in any
    order, the page is item 0 in slot 0 and item 1 in slot 1. *)
Theorem standard_page_is_greedy :
  (forall solver rng st interest_decay update_assignment_matrices page st',
      layout_slots (learner st) = length (real_slot_promenances (learner st)) ->
      allocation_approach (learner st) = "standard" ->
      find_best_allocation solver rng st interest_decay update_assignment_matrices
        = (Ok page, st') ->
      greedy_layout
        (quality_in (store (sample_pool rng st (news_pool (learner st)) interest_decay).2))
        (news_pool (learner st)) (real_slot_promenances (learner st)) = Ok page)
  /\ (forall quality pool,
        py_sort (better quality) pool ≡ₚ pool
        /\ StronglySorted (fun a b => quality b <= quality a) (py_sort (better quality) pool)
        /\ forall q, filter (fun r => quality r == q) (py_sort (better quality) pool)
                     = filter (fun r => quality r == q) pool)
  /\ (forall proms, proms <> [] ->
        exists i m, argmax proms = Ok i /\ proms !! i = Some m
                    /\ Forall (fun q => q <= m) proms
                    /\ forall j q, (j < i)%nat -> proms !! j = Some q -> q < m)
  /\ (forall pool, pool ≡ₚ [0; 1; 2; 3]%nat ->
        (find_best_allocation no_solver (scenario_oracle pool) (scenario pool) false true).1
          = Ok [Some 0%nat; Some 1%nat]).
Proof.
  split; [|split; [|split]].
  - intros solver rng st interest_decay update page st' Hslots Happroach.
    unfold find_best_allocation.
    destruct (length (news_pool (learner st)) <? layout_slots (learner st))%nat; [done|].
    rewrite Happroach. simpl.
    pose proof (sample_pool_learner rng st (news_pool (learner st)) interest_decay) as Hl.
    destruct (sample_pool rng st (news_pool (learner st)) interest_decay) as [[[]|e] st1];
      [|done].
    simpl in Hl. rewrite Hl, Happroach. simpl.
    unfold greedy_layout. rewrite Hslots.
    change (better (quality_in (store st1))) with (by_quality_desc (store st1)).
    destruct (standard_loop _ _ _ _) as [final|e]; [|done].
    destruct update.
    + destruct (update_slots _ _ _ _) as [[[]|e] st2]; [|done]. by intros [= <- _].
    + by intros [= <- _].
  - intros quality pool. apply py_sort_desc_stable.
  - apply argmax_spec.
  - intros pool Hperm. symmetry in Hperm. apply permutations_Permutation in Hperm.
    revert pool Hperm. apply Forall_forall.
    set (orders := permutations [0; 1; 2; 3]%nat). vm_compute in orders. subst orders.
    repeat (apply Forall_cons; split; [vm_compute; reflexivity|]).
    apply Forall_nil_2.
Qed.

Lemma standard_page_is_greedy_witness :
  (find_best_allocation no_solver (scenario_oracle [3; 1; 0; 2]%nat)
     (scenario [3; 1; 0; 2]%nat) false true).1 = Ok [Some 0%nat; Some 1%nat]
  /\ greedy_layout
       (quality_in (store (sample_pool fair_oracle (scenario [3; 1; 0; 2]%nat)
                             [3; 1; 0; 2]%nat false).2))
       [3; 1; 0; 2]%nat [9 # 10; 5 # 10] = Ok [Some 3%nat; Some 1%nat].
Proof.
  split.
  - apply (proj2 (proj2 (proj2 standard_page_is_greedy)) [3; 1; 0; 2]%nat).
    symmetry. apply permutations_Permutation.
    apply (bool_decide_unpack _). vm_compute. exact I.
  - apply (proj1 standard_page_is_greedy no_solver fair_oracle
             (scenario [3; 1; 0; 2]%nat) false true [Some 3%nat; Some 1%nat]
             (find_best_allocation no_solver fair_oracle
                (scenario [3; 1; 0; 2]%nat) false true).2).
    + reflexivity.
    + reflexivity.
    + vm_compute. reflexivity.
Defined.

(** ** The candidates of the linear problem *)

(** A category that ends, in the sorted pool, after fewer items than
    there are slots makes the scan raise. *)
Lemma take_per_category_raises (h : Store) (slots : nat) (block : list ref) (y : ref)
    (rest : list ref) (prev : string) (count : nat) (done_for_category : bool)
    (LP_news_pool : list ref) :
  Forall (fun r => news_category (news_at h r) = prev) block ->
  news_category (news_at h y) <> prev ->
  (count + length block < slots)%nat ->
  take_per_category h slots (block ++ y :: rest) prev count done_for_category LP_news_pool
    = Raise RuntimeWarning.
Proof.
  intros Hblock Hy. revert count done_for_category LP_news_pool.
  induction Hblock as [|r block Hr _ IH]; intros count done_for_category lp Hcount; simpl.
  - assert (String.eqb prev (news_category (news_at h y)) = false) as ->
      by (apply String.eqb_neq; congruence).
    simpl. assert ((count <? slots)%nat = true) as -> by (apply Nat.ltb_lt; simpl in *; lia).
    done.
  - assert (String.eqb prev (news_category (news_at h r)) = true) as ->
      by (apply String.eqb_eq; congruence).
    simpl. apply IH. simpl in Hcount. destruct done_for_category; lia.
Qed.

Lemma select_candidates_raises (fuel : nat) (rng : oracle) (n : nat) (h : Store)
    (self : NewsLearner) (first : ref) (block : list ref) (y : ref) (rest : list ref) :
  py_sort (by_category_quality_desc h) (news_pool self) = first :: block ++ y :: rest ->
  Forall (fun r => news_category (news_at h r) = news_category (news_at h first)) block ->
  news_category (news_at h y) <> news_category (news_at h first) ->
  (S (length block) < layout_slots self)%nat ->
  (select_candidates fuel rng n h self).1 = Some (Raise RuntimeWarning).
Proof.
  intros Hsort Hblock Hy Hshort. unfold select_candidates. rewrite Hsort.
  change (first :: block ++ y :: rest) with ((first :: block) ++ y :: rest).
  rewrite take_per_category_raises; [done | by constructor | done |].
  simpl. lia.
Qed.

(** C3 (the code departs from it). With two slots, one item of "gossip"
    and two of "cibo" pooled, the pool holds at least L items and
    "gossip" fewer than L; yet the candidate selection of the LP strategy
    does not pad and warn: it raises RuntimeWarning at the change of
    category, whatever the draws. *)
Theorem lp_candidates_raise_on_short_category :
  (layout_slots lp_learner_short_of_gossip
     <= length (news_pool lp_learner_short_of_gossip))%nat
  /\ (items_of_category example_store "gossip" (news_pool lp_learner_short_of_gossip)
        < layout_slots lp_learner_short_of_gossip)%nat
  /\ forall fuel rng n,
       (select_candidates fuel rng n example_store lp_learner_short_of_gossip).1
         = Some (Raise RuntimeWarning).
Proof.
  split; [vm_compute; lia|]. split; [vm_compute; lia|].
  intros fuel rng n. reflexivity.
Qed.

(** ** Draws from a distribution *)

Lemma Qsum_positive (l : list Q) (j : nat) (p : Q) :
  Forall (fun x => 0 <= x) l -> l !! j = Some p -> 0 < p -> 0 < Qsum l.
Proof.
  intros Hall. revert j. induction Hall as [|x l Hx Hall IH]; intros j Hj Hp; [done|].
  simpl. pose proof (Qsum_nonneg l Hall). destruct j as [|j]; simpl in Hj.
  - injection Hj as ->. lra.
  - specialize (IH j Hj Hp). lra.
Qed.

Lemma Qsum_scaled (c : Q) (v : list Q) :
  Qsum (map (fun x => x / c) v) == Qsum v / c.
Proof.
  unfold Qdiv. induction v as [|x v IH]; simpl.
  - ring.
  - rewrite IH. ring.
Qed.

Lemma Qabs_nonneg_eq (q : Q) : 0 <= q -> Qabs q = q.
Proof.
  destruct q as [a b]. unfold Qle, Qabs. simpl. intros Ha.
  f_equal. apply Z.abs_eq. lia.
Qed.

Lemma normalize_none (v : list Q) : normalize v = None <-> Qsum v == 0.
Proof.
  unfold normalize. destruct (Qeqb (Qsum v) 0) eqn:Hs.
  - apply Qeqb_eq in Hs. tauto.
  - apply Qeqb_neq in Hs. split; [done | tauto].
Qed.

(** A vector of weights of positive sum normalizes to a distribution
    with the same support. *)
Lemma normalize_spec (v : list Q) :
  Forall (fun x => 0 <= x) v -> 0 < Qsum v ->
  exists p, normalize v = Some p
            /\ map Qabs p = p
            /\ length p = length v
            /\ Forall (fun x => 0 <= x) p
            /\ Qsum p == 1
            /\ forall i w, p !! i = Some w -> 0 < w -> exists x, v !! i = Some x /\ 0 < x.
Proof.
  intros Hall Hpos. unfold normalize.
  assert (Qeqb (Qsum v) 0 = false) as -> by (apply Qeqb_neq; lra).
  set (s := Qsum v) in *.
  assert (forall x, 0 <= x -> 0 <= x / s) as Hdiv.
  { intros x Hx. apply Qle_shift_div_l; [done | lra]. }
  assert (Forall (fun x => 0 <= x) (map (fun x => x / s) v)) as Hnn.
  { apply Forall_fmap. eapply Forall_impl; [exact Hall|]. simpl. apply Hdiv. }
  eexists. split; [done|]. repeat split.
  - clear -Hnn. induction Hnn as [|x l Hx _ IH]; simpl; [done|].
    by rewrite (Qabs_nonneg_eq x Hx), IH.
  - by rewrite length_map.
  - exact Hnn.
  - rewrite Qsum_scaled. fold s. field. lra.
  - intros i w Hi Hw. change (map (fun x => x / s) v) with ((fun x => x / s) <$> v) in Hi.
    rewrite list_lookup_fmap in Hi.
    destruct (v !! i) as [x|]; simpl in Hi; [|done]. injection Hi as <-.
    exists x. split; [done|].
    destruct (Qlt_le_dec 0 x) as [|Hle]; [done|].
    assert (x / s <= 0); [|lra].
    unfold Qdiv. rewrite <- (Qmult_0_l (/ s)).
    apply Qmult_le_compat_r; [done|]. apply Qlt_le_weak, Qinv_lt_0_compat. done.
Qed.

Lemma cdf_search_spec (u : Q) (p : list Q) (acc : Q) :
  Forall (fun x => 0 <= x) p -> acc <= u -> u < acc + Qsum p ->
  exists i w, cdf_search u acc p = Some i /\ p !! i = Some w /\ 0 < w.
Proof.
  intros Hall. revert acc. induction Hall as [|x p Hx _ IH]; intros acc Hlo Hhi; simpl in *.
  - lra.
  - destruct (Qltb u (acc + x)) eqn:Hu.
    + apply Qltb_lt in Hu. exists 0%nat, x. split; [done|]. split; [done | lra].
    + apply Qltb_ge in Hu. destruct (IH (acc + x)) as (i & w & -> & Hi & Hw); [done|lra|].
      exists (S i), w. done.
Qed.

(** A draw with given probabilities returns an entry of positive
    probability. *)
Lemma choice_p_spec {A} (u : Q) (a : list A) (p : list Q) :
  0 <= u /\ u < 1 -> a <> [] -> length a = length p ->
  Forall (fun x => 0 <= x) p -> Qsum p == 1 ->
  exists i x w, choice_p u a p = Ok x /\ a !! i = Some x /\ p !! i = Some w /\ 0 < w.
Proof.
  intros [Hu0 Hu1] Hne Hlen Hnn Hsum. unfold choice_p.
  destruct a as [|a0 a']; [done|].
  assert ((length (a0 :: a') =? length p)%nat = true) as -> by (by apply Nat.eqb_eq).
  assert (forallb (Qleb 0) p = true) as ->.
  { apply forallb_forall. intros x Hx. apply Qleb_le.
    rewrite Forall_forall in Hnn. by apply Hnn, list_elem_of_In. }
  assert (Qeqb (Qsum p) 1 = true) as -> by (by apply Qeqb_eq).
  simpl negb. cbv iota.
  destruct (cdf_search_spec u p 0 Hnn) as (i & w & -> & Hi & Hw); [lra..|].
  simpl. unfold getitem.
  destruct (lookup_lt_is_Some_2 (a0 :: a') i) as [x Hx].
  { rewrite Hlen. by eapply lookup_lt_Some. }
  rewrite Hx. simpl. by exists i, x, w.
Qed.

Lemma index_of_Qeqb (x : Q) (l : list Q) (i : nat) :
  l !! i = Some x ->
  exists t y, index_of Qeqb x l = Some t /\ l !! t = Some y /\ y == x.
Proof.
  revert i. induction l as [|z l IH]; intros i Hi; [done|]. simpl.
  destruct (Qeqb z x) eqn:Hz.
  - apply Qeqb_eq in Hz. by exists 0%nat, z.
  - destruct i as [|i]; simpl in Hi.
    + injection Hi as ->. apply Qeqb_neq in Hz. by destruct Hz.
    + destruct (IH i Hi) as (t & y & -> & Ht & Hy). by exists (S t), y.
Qed.

Lemma index_of_nat (x : nat) (l : list nat) (i : nat) :
  l !! i = Some x ->
  exists d, index_of Nat.eqb x l = Some d /\ l !! d = Some x.
Proof.
  revert i. induction l as [|z l IH]; intros i Hi; [done|]. simpl.
  destruct (Nat.eqb z x) eqn:Hz.
  - apply Nat.eqb_eq in Hz as ->. by exists 0%nat.
  - destruct i as [|i]; simpl in Hi.
    + injection Hi as ->. by rewrite Nat.eqb_refl in Hz.
    + destruct (IH i Hi) as (d & -> & Hd). by exists (S d).
Qed.

(** ** De-randomization *)

Lemma zip_float_mul_nonneg (a b : list Q) :
  Forall (fun x => 0 <= x) a -> Forall (fun x => 0 <= x) b ->
  Forall (fun x => 0 <= x) (zip_with float_mul a b).
Proof.
  intros Ha. revert b. induction Ha as [|x a Hx _ IH]; intros b Hb; [constructor|].
  destruct Hb as [|y b Hy Hb]; simpl; [constructor|].
  constructor; [by apply float_mul_nonneg | by apply IH].
Qed.

(** The damped weights are defined and never negative; a product of
    positive weights may round to zero. *)
Lemma dampen_spec (ps : list nat) (probs : list (list Q)) (allocated : list nat)
    (target : nat) (weights : list Q) (n : nat) :
  Forall (fun v => length v = n /\ Forall weight_ok v) probs ->
  Forall (fun p => p < length probs)%nat ps ->
  length weights = n -> Forall (fun x => 0 <= x) weights ->
  exists damped,
    dampen ps probs allocated target weights = Ok damped
    /\ length damped = n
    /\ Forall (fun x => 0 <= x) damped.
Proof.
  intros Hprobs Hps. revert weights.
  induction Hps as [|p ps Hp _ IH]; intros weights Hlen Hnn; simpl; [eauto|].
  destruct (negb (contains p allocated) && negb (p =? target)%nat); [|by apply IH].
  unfold getitem. destruct (lookup_lt_is_Some_2 probs p Hp) as [other Hother].
  rewrite Hother. simpl.
  pose proof (Forall_lookup_1 _ _ _ _ Hprobs Hother) as [Holen Hoin]. simpl in Holen.
  unfold np_mul_rounded. rewrite length_map.
  assert ((length weights =? length other)%nat = true) as ->
    by (apply Nat.eqb_eq; lia).
  simpl. apply IH.
  - rewrite length_zip_with_l_eq; [done|]. rewrite length_map. lia.
  - apply zip_float_mul_nonneg; [done|]. apply Forall_fmap.
    eapply Forall_impl; [exact Hoin|]. intros w [_ Hw]. simpl.
    by apply float_sub_from_1_nonneg.
Qed.

Lemma res_mapM_delitem (d m : nat) (probs : list (list Q)) :
  Forall (fun v => length v = m) probs -> (d < m)%nat ->
  res_mapM (delitem d) probs = Ok (delete d <$> probs).
Proof.
  intros Hall Hd. induction Hall as [|v probs Hv _ IH]; [done|].
  cbn [res_mapM]. rewrite IH. unfold delitem.
  destruct (decide (d < length v)%nat); [done | lia].
Qed.

Lemma NoDup_delete_not_in {A} (l : list A) (d : nat) (x : A) :
  NoDup l -> l !! d = Some x -> x ∉ delete d l.
Proof.
  intros Hnd Hd. rewrite delete_take_drop.
  rewrite <- (take_drop_middle l d x Hd) in Hnd.
  apply NoDup_app in Hnd as (_ & Hsep & Htail).
  apply NoDup_cons in Htail as [Hx _].
  intros Hin. apply elem_of_app in Hin as [Hin|Hin]; [|done].
  apply (Hsep x Hin). constructor.
Qed.

Lemma not_in_delete {A} (l : list A) (d : nat) (x : A) : x ∉ l -> x ∉ delete d l.
Proof.
  intros Hx Hin. apply Hx. by eapply list_elem_of_delete_inv.
Qed.

(** The working prominences are never negative. *)
Lemma slots_agree_nonneg (placed : list (option nat)) (proms : list Q) :
  slots_agree 0 0 placed proms -> Forall (fun p => 0 <= p) proms.
Proof.
  induction 1 as [|r p placed proms Hrp _ IH]; constructor; [|done].
  destruct r; [subst; lra | tauto].
Qed.

(** A slot of positive working prominence is free. *)
Lemma slots_agree_positive_free (placed : list (option nat)) (proms : list Q)
    (t : nat) (y : Q) :
  slots_agree 0 0 placed proms -> proms !! t = Some y -> 0 < y ->
  placed !! t = Some None.
Proof.
  intros Hagree Ht Hy.
  destruct (Forall2_lookup_r _ _ _ _ _ Hagree Ht) as (r & Hr & Hrp).
  destruct r; [subst; lra | done].
Qed.

(** Whatever the technique, the slot served next is a free one. *)
Lemma pick_slot_spec (rng : oracle) (tech : string) (st : dr_state)
    (placed : list (option nat)) (free : nat) :
  oracle_ok rng ->
  slots_agree 0 0 placed (tmp_slot_promenances st) ->
  free_slots placed = S free ->
  exists target n,
    pick_slot rng tech st = Ok (target, n)
    /\ placed !! target = Some None
    /\ (target < length placed)%nat
    /\ (target < length (tmp_slot_promenances st))%nat.
Proof.
  intros Hrng Hagree Hfree. unfold pick_slot.
  destruct (is_rand_1_or_3 tech).
  - destruct (argmax_picks_free 0 0 placed (tmp_slot_promenances st))
      as (i & -> & Hi & Hip & Hir); [lra | done | lia |].
    simpl. eauto 6.
  - set (proms := tmp_slot_promenances st) in *.
    pose proof (slots_agree_nonneg _ _ Hagree) as Hnn.
    destruct (free_slots_lookup placed) as [j Hj]; [lia|].
    destruct (Forall2_lookup_l _ _ _ _ _ Hagree Hj) as (p & Hp & Hp0 & Hpne).
    assert (0 < p) as Hppos.
    { destruct (Qlt_le_dec 0 p) as [|Hle]; [done|]. exfalso. apply Hpne. lra. }
    destruct (normalize_spec proms Hnn) as (norm & -> & _ & Hnl & Hnnn & Hsum & Hsupp).
    { by eapply Qsum_positive. }
    simpl.
    destruct (choice_p_spec (rng (dr_draws st)) proms norm) as (i & v & w & -> & Hv & Hw & Hwpos).
    + apply Hrng.
    + intros Hnil. by rewrite Hnil in Hp.
    + done.
    + done.
    + done.
    + simpl. destruct (Hsupp i w Hw Hwpos) as (x & Hx & Hxpos).
      assert (x = v) as -> by congruence.
      destruct (index_of_Qeqb v proms i Hv) as (t & y & -> & Ht & Hy).
      simpl. exists t, (S (dr_draws st)). split; [done|].
      assert (placed !! t = Some None) as Hfree_t.
      { eapply slots_agree_positive_free; [done..|]. lra. }
      split; [done|]. split; by eapply lookup_lt_Some.
Qed.

(** The weights of the target slot are defined and never negative. *)
Lemma slot_weights_spec (tech : string) (st : dr_state) (target : nat) :
  (target < length (slot_probabilities st))%nat ->
  Forall (fun v => length v = length (feasible_news st) /\ Forall weight_ok v)
    (slot_probabilities st) ->
  exists weights allocated,
    slot_weights tech st target = Ok (weights, allocated)
    /\ length weights = length (feasible_news st)
    /\ Forall (fun x => 0 <= x) weights.
Proof.
  intros Htarget Hprobs. unfold slot_weights, getitem.
  destruct (lookup_lt_is_Some_2 _ _ Htarget) as [weights Hw]. rewrite Hw. simpl.
  pose proof (Forall_lookup_1 _ _ _ _ Hprobs Hw) as [Hlen Hok]. simpl in Hlen.
  assert (Forall (fun x => 0 <= x) weights) as Hnn.
  { eapply Forall_impl; [exact Hok|]. by intros x [Hx _]. }
  destruct (String.eqb tech "rand_3"); [|eauto 8].
  destruct (dampen_spec (seq 0 (length (slot_probabilities st))) (slot_probabilities st)
              (allocated_slots st) target weights (length (feasible_news st)))
    as (damped & -> & Hdl & Hdn); try done.
  - apply Forall_forall. intros p Hp. apply elem_of_seq in Hp. lia.
  - simpl. exists damped, (allocated_slots st ++ [target]). eauto 10.
Qed.

Lemma setitem_ok {A} (i : nat) (x : A) (l : list A) :
  (i < length l)%nat -> setitem i x l = Ok (<[i := x]> l).
Proof. intros Hi. unfold setitem. by rewrite decide_True. Qed.

Lemma delitem_ok {A} (i : nat) (l : list A) :
  (i < length l)%nat -> delitem i l = Ok (delete i l).
Proof. intros Hi. unfold delitem. by rewrite decide_True. Qed.

(** One turn of the loop either stops on a target slot whose weights sum
    to zero, or serves a free slot with a feasible candidate and keeps
    the invariant. *)
Lemma de_randomize_step_spec (rng : oracle) (pool : list ref) (tech : string)
    (st : dr_state) (placed : list (option nat)) (free : nat) :
  oracle_ok rng ->
  dr_invariant pool (S free) placed st ->
  de_randomize_step rng pool tech st = Raise ValueError
  \/ exists st' placed',
       de_randomize_step rng pool tech st = Ok st'
       /\ dr_invariant pool free placed' st'
       /\ length placed' = length placed.
Proof.
  intros Hrng [Hres Hagree Hfree Hpl Hw Hnd Hrange Henough Hpnd Hplaced].
  unfold de_randomize_step.
  destruct (pick_slot_spec rng tech st placed free Hrng Hagree Hfree)
    as (target & n & -> & Htfree & Htp & Htr).
  cbn [mbind res_bind].
  destruct (slot_weights_spec tech st target) as (weights & allocated & -> & Hwl & Hwnn);
    [lia | done |].
  cbn [mbind res_bind].
  destruct (normalize weights) as [norm|] eqn:Hnorm; [|by left].
  right.
  assert (0 < Qsum weights) as Hsumpos.
  { destruct (Qlt_le_dec 0 (Qsum weights)) as [|Hle]; [done|].
    pose proof (Qsum_nonneg weights Hwnn).
    assert (Qsum weights == 0) as Hz by lra.
    apply normalize_none in Hz. congruence. }
  destruct (normalize_spec weights Hwnn Hsumpos) as (norm' & Hn' & Habs & Hnl & Hnnn & Hsum & _).
  rewrite Hnorm in Hn'. injection Hn' as <-.
  cbn [from_option mbind res_bind]. rewrite Habs.
  destruct (choice_p_spec (rng n) (feasible_news st) norm)
    as (i & selected & w & -> & Hsel & _ & _);
    [apply Hrng | intros Hnil; rewrite Hnil in Henough; simpl in Henough; lia
     | lia | done | done |].
  cbn [mbind res_bind].
  pose proof (Forall_lookup_1 _ _ _ _ Hrange Hsel) as Hsel_lt. simpl in Hsel_lt.
  destruct (lookup_lt_is_Some_2 pool selected Hsel_lt) as [item Hitem].
  unfold getitem. rewrite Hitem. cbn [from_option mbind res_bind].
  assert (target < length (dr_result st))%nat as Htres
    by (rewrite Hres, length_fmap; lia).
  rewrite (setitem_ok target (Some item) (dr_result st)) by done.
  cbn [mbind res_bind].
  destruct (index_of_nat selected _ i Hsel) as (d & -> & Hd).
  cbn [from_option mbind res_bind].
  assert (d < length (feasible_news st))%nat as Hdlt by (by eapply lookup_lt_Some).
  rewrite (delitem_ok d (feasible_news st)) by done.
  cbn [mbind res_bind].
  rewrite (res_mapM_delitem d (length (feasible_news st))); [|
    eapply Forall_impl; [exact Hw|]; by intros v [Hv _] | done].
  cbn [mbind res_bind].
  rewrite (setitem_ok target 0 (tmp_slot_promenances st)) by done.
  cbn [mbind res_bind].
  assert (length (delete d (feasible_news st)) = (length (feasible_news st) - 1)%nat)
    as Hdellen by (apply length_delete; by eexists).
  destruct (free_slots_insert placed target selected Htfree) as [Hfree' Hperm].
  eexists _, (<[target := Some selected]> placed). split; [done|].
  split; [|by rewrite length_insert].
  constructor; cbn [dr_result tmp_slot_promenances feasible_news slot_probabilities].
  - rewrite Hres, list_fmap_insert. simpl. by rewrite Hitem.
  - by apply slots_agree_insert.
  - apply Nat.succ_inj. etrans; [exact Hfree' | exact Hfree].
  - by rewrite length_fmap, length_insert.
  - apply Forall_fmap. eapply Forall_impl; [exact Hw|]. intros v [Hv Hok]. simpl.
    split; [|by apply Forall_delete].
    rewrite Hdellen, <- Hv. apply length_delete. apply lookup_lt_is_Some_2. lia.
  - eapply sublist_NoDup; [exact Hnd | apply sublist_delete].
  - by apply Forall_delete.
  - lia.
  - rewrite Hperm. apply NoDup_cons. split; [|done].
    intros Hin. rewrite Forall_forall in Hplaced. apply (Hplaced _ Hin).
    by eapply list_elem_of_lookup_2.
  - rewrite Hperm. constructor.
    + split; [done|]. by apply NoDup_delete_not_in.
    + eapply Forall_impl; [exact Hplaced|]. intros j [Hj Hnot]. simpl.
      split; [done|]. by apply not_in_delete.
Qed.

Lemma de_randomize_loop_spec (rng : oracle) (pool : list ref) (tech : string)
    (free : nat) (st : dr_state) (placed : list (option nat)) :
  oracle_ok rng ->
  dr_invariant pool free placed st ->
  de_randomize_loop free rng pool tech st = Raise ValueError
  \/ exists st' placed',
       de_randomize_loop free rng pool tech st = Ok st'
       /\ dr_invariant pool 0 placed' st'
       /\ length placed' = length placed.
Proof.
  intros Hrng. revert st placed. induction free as [|free IH]; intros st placed Hinv.
  - right. by exists st, placed.
  - cbn [de_randomize_loop].
    destruct (de_randomize_step_spec rng pool tech st placed free Hrng Hinv)
      as [-> | (st1 & placed1 & -> & Hinv1 & Hlen1)]; [by left|].
    cbn [mbind res_bind].
    destruct (IH st1 placed1 Hinv1) as [-> | (st2 & placed2 & -> & Hinv2 & Hlen2)].
    + by left.
    + right. exists st2, placed2. split; [done|]. split; [done | congruence].
Qed.

Lemma dr_invariant_initial (n : nat) (self : NewsLearner) (pool : list ref)
    (probs : list (list Q)) :
  layout_slots self = length (real_slot_promenances self) ->
  Forall (fun p => 0 < p) (real_slot_promenances self) ->
  (layout_slots self <= length pool)%nat ->
  length probs = layout_slots self ->
  Forall (fun v => length v = length pool /\ Forall weight_ok v) probs ->
  dr_invariant pool (layout_slots self) (replicate (layout_slots self) None)
    (mkDr (replicate (layout_slots self) None) (real_slot_promenances self)
          (seq 0 (length pool)) probs [] n).
Proof.
  intros Hslots Hproms Hpool Hprobs Hweights.
  constructor; cbn [dr_result tmp_slot_promenances feasible_news slot_probabilities].
  - by rewrite fmap_replicate.
  - apply Forall2_same_length_lookup_2.
    + by rewrite length_replicate.
    + intros i r p Hr Hp. apply lookup_replicate in Hr as [-> _].
      pose proof (Forall_lookup_1 _ _ _ _ Hproms Hp) as Hpos. simpl in Hpos.
      split; [lra|]. intros Heq. rewrite Heq in Hpos. lra.
  - apply free_slots_replicate.
  - by rewrite length_replicate.
  - by rewrite length_seq.
  - apply NoDup_seq.
  - apply Forall_forall. intros i Hi. apply elem_of_seq in Hi. lia.
  - by rewrite length_seq.
  - rewrite omap_replicate_none. constructor.
  - rewrite omap_replicate_none. constructor.
Qed.




(** Weights strictly between 0 and 1 do not keep the weights of a target
    slot from summing to zero under "rand_3": with the smallest positive
    double for both candidates of the first slot and a half for those of
    the second, the damped weights are products that round to zero, and
    the call raises; under "rand_1", which does not damp, it returns. *)
Lemma de_randomize_LP_underflow :
  let self := learner_of (args_two_slots "LP") in
  Forall (Forall weight_inside) tiny_weights
  /\ de_randomize_LP fair_oracle 0 self [0; 1]%nat tiny_weights "rand_3"
     = Raise ValueError
  /\ exists page n',
       de_randomize_LP fair_oracle 0 self [0; 1]%nat tiny_weights "rand_1"
       = Ok (page, n').
Proof.
  split; [|split].
  - unfold tiny_weights, weight_inside.
    repeat (constructor; [repeat constructor|]); constructor.
  - vm_compute. reflexivity.
  - eexists _, _. vm_compute. reflexivity.
Qed.

(** ** The allocation of the ads *)

Lemma feasible_feasibleb (p : ilp) (x : list Z) : feasible p x <-> feasibleb p x = true.
Proof.
  unfold feasible, feasibleb. rewrite !andb_true_iff, Nat.eqb_eq, !forallb_forall.
  rewrite !Forall_forall. split.
  - intros (Hlen & Hbounds & Hcons). repeat split; [done | |].
    + intros v Hv. apply list_elem_of_In, Hbounds in Hv.
      apply andb_true_iff. split; [apply Z.leb_le | apply Z.leb_le]; lia.
    + intros c Hc. apply Qleb_le. by apply Hcons, list_elem_of_In.
  - intros [[Hlen Hbounds] Hcons]. repeat split; [done | ..].
    + apply list_elem_of_In, Hbounds, andb_true_iff in H as [H0 _]. by apply Z.leb_le.
    + apply list_elem_of_In, Hbounds, andb_true_iff in H as [_ H1]. by apply Z.leb_le.
    + intros c Hc. apply Qleb_le. by apply Hcons, list_elem_of_In.
Qed.

(** The feasible points of the program of the example. *)
Lemma exclusion_problem_feasible (y : list Z) :
  feasible exclusion_problem y ->
  y = [0; 0; 0; 0]%Z \/ y = [0; 0; 1; 0]%Z \/ y = [0; 0; 0; 1]%Z.
Proof.
  intros Hy. pose proof Hy as (Hlen & Hbounds & _).
  apply feasible_feasibleb in Hy.
  destruct y as [|a [|b [|c [|d [|]]]]]; try discriminate Hlen.
  apply Forall_cons in Hbounds as [Ha Hbounds].
  apply Forall_cons in Hbounds as [Hb Hbounds].
  apply Forall_cons in Hbounds as [Hc Hbounds].
  apply Forall_cons in Hbounds as [Hd _].
  simpl in Ha, Hb, Hc, Hd.
  assert (a = 0 \/ a = 1 \/ a = 2)%Z as Ha' by lia.
  assert (b = 0 \/ b = 1 \/ b = 2)%Z as Hb' by lia.
  assert (c = 0 \/ c = 1 \/ c = 2)%Z as Hc' by lia.
  assert (d = 0 \/ d = 1 \/ d = 2)%Z as Hd' by lia.
  clear Ha Hb Hc Hd Hlen.
  destruct Ha' as [-> | [-> | ->]]; destruct Hb' as [-> | [-> | ->]];
    destruct Hc' as [-> | [-> | ->]]; destruct Hd' as [-> | [-> | ->]];
    vm_compute in Hy; try discriminate Hy; auto.
Qed.

(** Its only optimum serves the first slot from the exclusive bin and
    leaves the second slot empty. *)
Lemma exclusion_problem_optimum (x : list Z) :
  optimal exclusion_problem x <-> x = [0; 0; 1; 0]%Z.
Proof.
  split.
  - intros [Hx Hbest].
    assert (feasible exclusion_problem [0; 0; 1; 0]%Z) as Hy
      by (apply feasible_feasibleb; reflexivity).
    specialize (Hbest _ Hy).
    destruct (exclusion_problem_feasible x Hx) as [-> | [-> | ->]]; [|done|];
      vm_compute in Hbest; by destruct Hbest.
  - intros ->. split; [apply feasible_feasibleb; reflexivity|].
    intros y Hy.
    destruct (exclusion_problem_feasible y Hy) as [-> | [-> | ->]];
      vm_compute; discriminate.
Qed.

(** C7 (the code departs from it). Two ads of one category, both
    excluding competitors, two ad slots of prominence 1 and 0.5, the
    restricted program and the "greedy" display. The program allows one
    ad of the exclusive bin, and its only optimum puts it in the first
    slot. The second slot has then no positive variable, the name kept
    from the first slot is used again, and a second ad is drawn from the
    same bin: with a solver that returns the optimum, both competitors are
    in the finalized layout. *)
Theorem competitors_shown_together
    (lp_solve : ilp -> list (option Z))
    (integer_solver : Sys -> res (list ref) * Sys) (x : list Z) :
  lp_solve exclusion_problem = Some <$> x ->
  optimal exclusion_problem x ->
  restricted_program split_oracle ads_visit = (Ok exclusion_problem, 2%nat)
  /\ (find_ads_best_allocation lp_solve integer_solver split_oracle ads_visit).1
       = Ok [0; 1]%nat
  /\ competitors example_store 0%nat 1%nat.
Proof.
  intros Hsolve Hopt. apply exclusion_problem_optimum in Hopt. subst x.
  assert (restricted_program split_oracle ads_visit = (Ok exclusion_problem, 2%nat))
    as Hprogram by reflexivity.
  split; [done|]. split; [|by repeat split].
  unfold find_ads_best_allocation, solve_ads_restricted_linear_problem.
  rewrite Hprogram, Hsolve. reflexivity.
Qed.

Lemma competitors_shown_together_witness :
  restricted_program split_oracle ads_visit = (Ok exclusion_problem, 2%nat)
  /\ (find_ads_best_allocation one_exclusive_in_first_slot no_integer_solver
        split_oracle ads_visit).1 = Ok [0; 1]%nat
  /\ competitors example_store 0%nat 1%nat.
Proof.
  apply (competitors_shown_together one_exclusive_in_first_slot no_integer_solver
           [0; 0; 1; 0]%Z).
  - reflexivity.
  - apply exclusion_problem_optimum. reflexivity.
Defined.

(** ** Removal from the news pool *)

(** X1. [remove_news_from_pool] never fails: it removes every occurrence
    of each listed item from the news pool, keeps the other items in
    their order, ignores listed items that are not pooled and changes no
    other attribute of the learner. *)
Theorem remove_news_from_pool_filters (self : NewsLearner) (news_list : list ref) :
  remove_news_from_pool self news_list
    = (Ok tt, with_news_pool (filter (fun r => r ∉ news_list) (news_pool self)) self).
Proof.
  unfold remove_news_from_pool.
  pose proof (remove_loop_filters news_list (news_pool self) []) as Hloop.
  rewrite app_nil_l in Hloop. by rewrite Hloop.
Qed.

Lemma filter_not_in_app (pool refs : list ref) :
  Forall (fun r => r ∉ pool) refs ->
  filter (fun r => r ∉ refs) (pool ++ refs) = pool.
Proof.
  intros Hnew. rewrite filter_app.
  rewrite (filter_none _ refs), app_nil_r.
  - apply filter_all. apply Forall_forall. intros r Hr Hin.
    eapply Forall_forall in Hnew; [|exact Hin]. done.
  - apply Forall_forall. intros r Hr Hout. done.
Qed.

(** X2. Appending a list of acceptable News with [fill_news_pool] and
    then removing the same list with [remove_news_from_pool] gives the
    news pool back as it was, for every approach but "full" and provided
    none of the new items was pooled before. *)
Theorem fill_then_remove_restores_news_pool
    (fuel : nat) (h : Store) (self : NewsLearner) (news_list : list content) :
  allocation_approach self <> "full" ->
  Forall (acceptable_news h (categories self)) news_list ->
  Forall (fun r => r ∉ news_pool self) (references news_list) ->
  exists filled removed,
    fill_news_pool fuel h self (a_list news_list) true = Some (Ok tt, filled)
    /\ news_pool filled = news_pool self ++ references news_list
    /\ remove_news_from_pool filled (references news_list) = (Ok tt, removed)
    /\ news_pool removed = news_pool self.
Proof.
  intros Happroach Hok Hnew.
  set (filled := grow_full_problem
                   (with_news_pool (news_pool self ++ references news_list) self)).
  assert (news_pool filled = news_pool self ++ references news_list) as Hpool
    by reflexivity.
  exists filled, (with_news_pool (news_pool self) filled).
  split.
  { rewrite fill_news_pool_a_list. unfold recount_and_grow.
    rewrite (validate_news_list_accepts h (categories self) news_list Hok).
    apply String.eqb_neq in Happroach.
    change (allocation_approach
              (with_news_pool (news_pool self ++ references news_list) self))
      with (allocation_approach self).
    by rewrite Happroach. }
  split; [exact Hpool|]. split; [|reflexivity].
  unfold remove_news_from_pool. rewrite Hpool.
  pose proof (remove_loop_filters (references news_list)
                (news_pool self ++ references news_list) []) as Hloop.
  rewrite app_nil_l in Hloop. rewrite Hloop.
  by rewrite filter_not_in_app.
Qed.

Lemma fill_then_remove_restores_news_pool_witness :
  exists filled removed,
    fill_news_pool 0 example_store
      (with_news_pool [0%nat] (learner_of (args_two_slots "standard")))
      (a_list [ANews 1%nat; ANews 2%nat]) true = Some (Ok tt, filled)
    /\ news_pool filled = [0; 1; 2]%nat
    /\ remove_news_from_pool filled [1; 2]%nat = (Ok tt, removed)
    /\ news_pool removed = [0%nat].
Proof.
  apply (fill_then_remove_restores_news_pool 0 example_store
           (with_news_pool [0%nat] (learner_of (args_two_slots "standard")))
           [ANews 1%nat; ANews 2%nat]).
  - vm_compute. discriminate.
  - apply (bool_decide_unpack _). vm_compute. exact I.
  - apply (bool_decide_unpack _). vm_compute. exact I.
Defined.

(** ** The cell of the reward grid *)

Lemma scan_pivots_raises (value : Q) (pivots : list Q) (k : nat) (e : exn) :
  scan_pivots value pivots k = Raise e -> e = IndexError.
Proof.
  revert k. induction pivots as [|p rest IH]; intros k; simpl; [congruence|].
  destruct (Qleb p value); [apply IH | done].
Qed.

Lemma position_along_raises (pivots : list Q) (value : Q) (e : exn) :
  position_along pivots value = Raise e -> e = IndexError.
Proof.
  unfold position_along, last_item. destruct (last pivots) as [top|]; simpl.
  - destruct (Qltb value top); [apply scan_pivots_raises | done].
  - congruence.
Qed.

(** X3. Without a pivot along one of the two axes the position of a user
    and an item in the reward grid cannot be computed: the function
    raises IndexError. With pivots along both axes, and whatever their
    order, a learner that the constructor has built finds a position for
    every user and item, and the grid holds a reward model at it. *)
Theorem position_is_a_cell_of_the_grid :
  (forall self user news,
      news_column_pivots self = [] \/ news_row_pivots self = [] ->
      compute_position_in_learning_matrix self user news = Raise IndexError)
  /\ (forall args self w user news,
        init args = Ok (self, w) ->
        arg_news_column_pivot args <> [] ->
        arg_news_row_pivot args <> [] ->
        exists posx posy cell,
          compute_position_in_learning_matrix self user news = Ok (posx, posy)
          /\ grid_cell self posx posy = Ok cell).
Proof.
  split.
  - intros self user news [Hc | Hr]; unfold compute_position_in_learning_matrix.
    + by rewrite Hc.
    + rewrite Hr.
      destruct (position_along (news_column_pivots self) _) as [y|e] eqn:Hy; [done|].
      apply position_along_raises in Hy. by subst e.
  - intros args self w user news Hinit Hc Hr.
    pose proof (init_valid args self w Hinit Hc Hr) as Hvalid.
    destruct (compute_position_total self user news Hvalid) as (x & y & Hpos & Hx & Hy).
    destruct (grid_cell_total self x y Hvalid Hx Hy) as (row & cell & _ & _ & Hcell).
    eauto.
Qed.

Lemma position_is_a_cell_of_the_grid_witness :
  compute_position_in_learning_matrix empty_learner user_at_pivot item_seven
    = Raise IndexError
  /\ exists posx posy cell,
       compute_position_in_learning_matrix (learner_of (args_two_slots "standard"))
         user_at_pivot item_seven = Ok (posx, posy)
       /\ grid_cell (learner_of (args_two_slots "standard")) posx posy = Ok cell.
Proof.
  split.
  - apply (proj1 position_is_a_cell_of_the_grid). left. reflexivity.
  - apply (proj2 position_is_a_cell_of_the_grid (args_two_slots "standard")
             (learner_of (args_two_slots "standard")) []);
      [reflexivity | simpl; discriminate | simpl; discriminate].
Defined.

(** ** The order of the standard page *)

Lemma standard_loop_ordered (quality : ref -> Q) (promenances : list Q) (count : nat)
    (tmp : list ref) (work : list Q) (result final : list (option ref)) :
  page_invariant quality promenances count tmp work result ->
  standard_loop count tmp work result = Ok final ->
  page_ordered quality promenances final
  /\ forall s a x, final !! s = Some (Some a) -> x ∈ drop count tmp ->
                   quality x <= quality a.
Proof.
  revert tmp work result.
  induction count as [|count IH]; intros tmp work result Hinv Hrun.
  - simpl in Hrun. injection Hrun as <-. destruct Hinv. split; [done|].
    intros s a x Hs Hx. rewrite drop_0 in Hx. eauto.
  - destruct Hinv as [Hagree Hfree Hwork Hsorted Hrest Hslots Hordered].
    destruct (argmax_picks_free (-1) 0 result work) as (i & Harg & Hi & Hir & Hiw);
      [lra | done | lia |].
    destruct (argmax_spec work) as (i' & m & Harg' & Hm & Hall & _).
    { intros ->. simpl in Hiw. lia. }
    rewrite Harg in Harg'. injection Harg' as <-.
    simpl in Hrun. rewrite Harg in Hrun. simpl in Hrun.
    destruct tmp as [|x rest]; [done|].
    unfold setitem in Hrun. rewrite !decide_True in Hrun by done. simpl in Hrun.
    apply StronglySorted_inv in Hsorted as [Hsorted Hx].
    assert (promenances !! i = Some m) as Hpi by (by rewrite <- (Hwork i Hi)).
    apply IH in Hrun.
    + destruct Hrun as [Hord Hleft]. split; [done|]. intros s a y Hs Hy. eauto.
    + destruct (free_slots_insert result i x Hi) as [Hn _].
      split.
      * by apply slots_agree_insert.
      * lia.
      * intros j Hj. destruct (decide (j = i)) as [->|Hne].
        { rewrite list_lookup_insert_eq in Hj by done. done. }
        rewrite list_lookup_insert_ne in Hj by done.
        rewrite list_lookup_insert_ne by done. by apply Hwork.
      * done.
      * intros s a y Hs Hy. destruct (decide (s = i)) as [->|Hne].
        { rewrite list_lookup_insert_eq in Hs by done. injection Hs as <-.
          eapply Forall_forall in Hx; [|exact Hy]. done. }
        rewrite list_lookup_insert_ne in Hs by done.
        eapply Hrest; [exact Hs|]. by right.
      * intros s a t ps pt Hs Ht Hps Hpt.
        destruct (decide (t = i)) as [->|Hti].
        { rewrite list_lookup_insert_eq in Ht by done. done. }
        rewrite list_lookup_insert_ne in Ht by done.
        destruct (decide (s = i)) as [->|Hsi].
        { rewrite Hpi in Hps. injection Hps as <-.
          rewrite <- (Hwork t Ht) in Hpt.
          eapply Forall_lookup_1 in Hall; [|exact Hpt]. done. }
        rewrite list_lookup_insert_ne in Hs by done. eauto.
      * intros s t a b ps pt Hs Ht Hps Hpt Hlt.
        destruct (decide (s = i)) as [->|Hsi]; destruct (decide (t = i)) as [->|Hti].
        { rewrite Hps in Hpt. injection Hpt as <-. lra. }
        { rewrite list_lookup_insert_ne in Ht by done.
          rewrite Hpi in Hps. injection Hps as <-.
          pose proof (Hslots t b i pt m Ht Hi Hpt Hpi). lra. }
        { rewrite list_lookup_insert_eq in Ht by done. injection Ht as <-.
          rewrite list_lookup_insert_ne in Hs by done.
          eapply Hrest; [exact Hs|]. by left. }
        { rewrite list_lookup_insert_ne in Hs, Ht by done. eauto. }
Qed.

Lemma page_invariant_initial (quality : ref -> Q) (promenances : list Q) (pool : list ref) :
  Forall (fun p => 0 <= p /\ p <= 1) promenances ->
  page_invariant quality promenances (length promenances)
    (py_sort (better quality) pool) promenances (replicate (length promenances) None).
Proof.
  intros Hproms. split.
  - unfold slots_agree. apply Forall2_same_length_lookup_2.
    + by rewrite length_replicate.
    + intros i r p Hr Hp. apply lookup_replicate in Hr as [-> _].
      eapply Forall_lookup_1 in Hproms; [|exact Hp]. simpl in Hproms.
      split; [tauto|]. intros Heq. rewrite Heq in Hproms. lra.
  - apply free_slots_replicate.
  - done.
  - apply py_sort_desc_stable.
  - intros s a x Hs. by apply lookup_replicate in Hs as [? _].
  - intros s a t ps pt Hs. by apply lookup_replicate in Hs as [? _].
  - intros s t a b ps pt Hs. by apply lookup_replicate in Hs as [? _].
Qed.

(** X4. For a valid configuration with at least L pooled items, the page
    of the standard approach is ordered by the qualities just sampled: of
    two slots, the one of strictly greater prominence never holds the
    item of lower quality, and no pooled item that is absent from the
    page has a quality above that of an item on the page. *)
Theorem standard_page_is_ordered
    (solver : string -> Sys -> res (list (option ref)) * Sys)
    (rng : oracle) (st : Sys) (interest_decay update_assignment_matrices : bool) :
  valid_configuration (learner st) ->
  allocation_approach (learner st) = "standard" ->
  (layout_slots (learner st) <= length (news_pool (learner st)))%nat ->
  exists page st',
    find_best_allocation solver rng st interest_decay update_assignment_matrices
      = (Ok page, st')
    /\ let quality :=
         quality_in (store (sample_pool rng st (news_pool (learner st)) interest_decay).2) in
       page_ordered quality (real_slot_promenances (learner st)) page
       /\ forall s a x,
            page !! s = Some (Some a) -> x ∈ news_pool (learner st) -> Some x ∉ page ->
            quality x <= quality a.
Proof.
  intros Hvalid Happroach Hlong. unfold find_best_allocation.
  apply Nat.ltb_ge in Hlong as Hlong'. rewrite Hlong'. rewrite Happroach. simpl.
  destruct (sample_pool_total rng st (news_pool (learner st)) interest_decay Hvalid)
    as (st1 & -> & Hl1 & Hv1).
  rewrite Hl1, Happroach. simpl.
  pose proof Hvalid as (Hslots & Hproms & _).
  set (quality := quality_in (store st1)).
  set (proms := real_slot_promenances (learner st)) in *.
  set (pool := news_pool (learner st)) in *.
  destruct (greedy_layout_spec quality pool proms Hproms)
    as (layout & Hrun & Hlen & Hperm & _); [lia|].
  unfold greedy_layout in Hrun.
  destruct (standard_loop_ordered quality proms (length proms)
              (py_sort (better quality) pool) proms
              (replicate (length proms) None) (Some <$> layout)
              (page_invariant_initial quality proms pool Hproms) Hrun)
    as [Hordered Hleft].
  rewrite <- Hslots in Hrun at 2.
  change (by_quality_desc (store st1)) with (better quality).
  rewrite Hrun.
  assert (forall s a x, (Some <$> layout) !! s = Some (Some a) -> x ∈ pool ->
                        Some x ∉ Some <$> layout -> quality x <= quality a) as Hout.
  { intros s a x Hs Hx Hnot. apply (Hleft s a x Hs).
    rewrite <- (py_sort_perm (better quality) pool) in Hx.
    rewrite <- (take_drop (length proms) (py_sort (better quality) pool)) in Hx.
    apply elem_of_app in Hx as [Hx|Hx]; [|done].
    exfalso. apply Hnot. apply list_elem_of_fmap. exists x. split; [done|].
    by rewrite Hperm. }
  subst proms pool.
  destruct update_assignment_matrices; [|by eauto 8].
  match goal with
  | |- context [update_slots ?a ?b ?c ?d] =>
      destruct (update_slots_total a b c d) as [st' ->]
  end; [| |by eauto 8].
  + simpl. by apply with_news_pool_valid.
  + apply Forall_forall. intros i Hi. apply elem_of_seq in Hi.
    rewrite length_fmap in Hi. simpl. split; [|lia].
    destruct (lookup_lt_is_Some_2 layout i) as [r Hr]; [lia|].
    exists r. by rewrite list_lookup_fmap, Hr.
Qed.

Lemma standard_page_is_ordered_witness :
  exists page st',
    find_best_allocation no_solver (scenario_oracle [3; 1; 0; 2]%nat)
      (scenario [3; 1; 0; 2]%nat) true true = (Ok page, st')
    /\ let quality :=
         quality_in (store (sample_pool (scenario_oracle [3; 1; 0; 2]%nat)
                              (scenario [3; 1; 0; 2]%nat) [3; 1; 0; 2]%nat true).2) in
       page_ordered quality [9 # 10; 5 # 10] page
       /\ forall s a x,
            page !! s = Some (Some a) -> x ∈ [3; 1; 0; 2]%nat -> Some x ∉ page ->
            quality x <= quality a.
Proof.
  apply (standard_page_is_ordered no_solver (scenario_oracle [3; 1; 0; 2]%nat)
           (scenario [3; 1; 0; 2]%nat) true true).
  - apply with_news_pool_valid.
    apply (init_valid (args_two_slots "standard") _ []);
      [reflexivity | simpl; discriminate | simpl; discriminate].
  - reflexivity.
  - vm_compute. lia.
Defined.

(** ** An approach that is not one of the four *)

Lemma sample_pool_draws (rng : oracle) (st : Sys) (pool : list ref) (interest_decay : bool) :
  valid_configuration (learner st) ->
  draws (sample_pool rng st pool interest_decay).2 = (draws st + length pool)%nat.
Proof.
  revert st. induction pool as [|r pool IH]; intros st Hvalid; simpl; [lia|].
  destruct (sample_quality_total rng st r interest_decay Hvalid) as (st1 & Hrun & Hl & Hv).
  rewrite Hrun. rewrite IH by (by rewrite Hl).
  unfold sample_quality in Hrun.
  destruct (if interest_decay then _ else _) as [w|e]; [|done].
  injection Hrun as <-. simpl. lia.
Qed.

(** X5. An allocation approach other than "standard", "LP", "alt_LP" and
    "full" is refused with RuntimeError, but only after the sampling: on
    a valid configuration with at least L pooled items the call fails and
    leaves the system as the sampling of the whole pool left it, one draw
    consumed and one quality overwritten per pooled entry. *)
Theorem unknown_approach_fails_after_sampling
    (solver : string -> Sys -> res (list (option ref)) * Sys)
    (rng : oracle) (st : Sys) (interest_decay update_assignment_matrices : bool) :
  valid_configuration (learner st) ->
  (layout_slots (learner st) <= length (news_pool (learner st)))%nat ->
  allocation_approach (learner st) ∉ ["standard"; "LP"; "alt_LP"; "full"] ->
  find_best_allocation solver rng st interest_decay update_assignment_matrices
    = (Raise RuntimeError,
       (sample_pool rng st (news_pool (learner st)) interest_decay).2)
  /\ draws (sample_pool rng st (news_pool (learner st)) interest_decay).2
     = (draws st + length (news_pool (learner st)))%nat.
Proof.
  intros Hvalid Hlong Happroach. split; [|by apply sample_pool_draws].
  unfold find_best_allocation.
  apply Nat.ltb_ge in Hlong. rewrite Hlong.
  assert (forall name, name ∈ ["standard"; "LP"; "alt_LP"; "full"] ->
                       String.eqb (allocation_approach (learner st)) name = false) as Hne.
  { intros name Hname. apply String.eqb_neq. intros Heq. apply Happroach. by rewrite Heq. }
  rewrite (Hne "alt_LP") by (apply (bool_decide_unpack _); vm_compute; exact I).
  simpl.
  destruct (sample_pool_total rng st (news_pool (learner st)) interest_decay Hvalid)
    as (st1 & -> & Hl1 & Hv1).
  rewrite Hl1.
  rewrite (Hne "standard"), (Hne "LP"), (Hne "alt_LP"), (Hne "full")
    by (apply (bool_decide_unpack _); vm_compute; exact I).
  reflexivity.
Qed.

Lemma unknown_approach_fails_after_sampling_witness :
  let st := mkSys (with_news_pool [0; 1]%nat (learner_of (args_two_slots "greedy")))
                  example_store (mkUser [] []) 0 in
  find_best_allocation no_solver fair_oracle st false true
    = (Raise RuntimeError, (sample_pool fair_oracle st [0; 1]%nat false).2)
  /\ draws (sample_pool fair_oracle st [0; 1]%nat false).2 = 2%nat.
Proof.
  apply (unknown_approach_fails_after_sampling no_solver fair_oracle
           (mkSys (with_news_pool [0; 1]%nat (learner_of (args_two_slots "greedy")))
                  example_store (mkUser [] []) 0) false true).
  - apply with_news_pool_valid.
    apply (init_valid (args_two_slots "greedy") _ []);
      [reflexivity | simpl; discriminate | simpl; discriminate].
  - vm_compute. lia.
  - cbv - [elem_of not]. apply (bool_decide_unpack _). vm_compute. exact I.
Defined.

(** ** The padding of the candidates *)

Lemma choice_in {A} (u : Q) (a : list A) :
  0 <= u -> u < 1 -> a <> [] -> exists x, choice u a = Ok x /\ x ∈ a.
Proof.
  intros H0 H1 Hne. unfold choice.
  set (len := inject_Z (Z.of_nat (length a))).
  assert (0 < len) as Hlen.
  { unfold len. change 0 with (inject_Z 0). rewrite <- Zlt_Qlt.
    destruct a; [done | simpl; lia]. }
  assert (0 <= u * len) as Hlow by (apply Qmult_le_0_compat; lra).
  assert (u * len < len) as Hhigh.
  { pose proof (Qmult_lt_compat_r u 1 len Hlen H1) as Hmul.
    rewrite Qmult_1_l in Hmul. exact Hmul. }
  assert (0 <= Qfloor (u * len))%Z as Hf0.
  { change 0%Z with (Qfloor 0). by apply Qfloor_resp_le. }
  assert (Qfloor (u * len) < Z.of_nat (length a))%Z as Hf1.
  { rewrite Zlt_Qlt. fold len. pose proof (Qfloor_le (u * len)). lra. }
  destruct a as [|y a]; [done|].
  unfold getitem.
  destruct (lookup_lt_is_Some_2 (y :: a) (Z.to_nat (Qfloor (u * len)))) as [x Hx]; [lia|].
  exists x. rewrite Hx. split; [done|]. by eapply list_elem_of_lookup_2.
Qed.

Lemma submseteq_snoc_new {A} (l k : list A) (x : A) :
  l ⊆+ k -> x ∈ k -> x ∉ l -> l ++ [x] ⊆+ k.
Proof.
  intros Hsub Hin Hout. apply elem_of_Permutation in Hin as [k' Hk].
  rewrite Hk in Hsub. apply submseteq_cons_r in Hsub as [Hsub | (l' & Hl & _)].
  - rewrite Hk, <- Permutation_cons_append. by apply submseteq_skip.
  - exfalso. apply Hout. rewrite Hl. by left.
Qed.

(** While the candidates are drawn from a pool smaller than the number
    wanted, the padding loop does not end. *)
Lemma pad_at_random_starves (fuel : nat) (rng : oracle) (n : nat) (pool : list ref)
    (wanted : nat) (LP_news_pool : list ref) :
  oracle_ok rng -> pool <> [] ->
  LP_news_pool ⊆+ pool -> (length pool < wanted)%nat ->
  pad_at_random fuel rng n pool wanted LP_news_pool = None.
Proof.
  intros Hrng Hne. revert n LP_news_pool.
  induction fuel as [|fuel IH]; intros n lp Hsub Hshort.
  - simpl. apply submseteq_length in Hsub.
    assert ((length lp <? wanted)%nat = true) as -> by (apply Nat.ltb_lt; lia). done.
  - simpl. pose proof (submseteq_length _ _ Hsub) as Hlen.
    assert ((length lp <? wanted)%nat = true) as -> by (apply Nat.ltb_lt; lia).
    destruct (Hrng n) as [H0 H1].
    destruct (choice_in (rng n) pool H0 H1 Hne) as (x & -> & Hx).
    apply IH; [|done]. unfold contains.
    destruct (decide (x ∈ lp)) as [Hin|Hout].
    + by rewrite bool_decide_eq_true_2.
    + rewrite bool_decide_eq_false_2 by done. by apply submseteq_snoc_new.
Qed.

Lemma take_per_category_sublist (h : Store) (slots : nat) (pool : list ref)
    (prev : string) (count : nat) (done_for_category : bool) (lp0 : list ref) :
  match take_per_category h slots pool prev count done_for_category lp0 with
  | Ok lp => exists chosen, lp = lp0 ++ chosen /\ sublist chosen pool
  | Raise e => e = RuntimeWarning
  end.
Proof.
  revert prev count done_for_category lp0.
  induction pool as [|x pool IH]; intros prev count dn lp0.
  - simpl. exists []. by rewrite app_nil_r.
  - simpl. destruct (negb (prev =? news_category (news_at h x))%string && (count <? slots)%nat);
      [done|].
    match goal with
    | |- match take_per_category _ _ _ ?p ?c ?d ?l with _ => _ end =>
        specialize (IH p c d l);
        destruct (take_per_category h slots pool p c d l) as [lp|e]
    end; [|done].
    destruct IH as (chosen & -> & Hsub).
    match goal with
    | |- context [if ?b then lp0 else lp0 ++ [x]] => destruct b
    end.
    + exists chosen. split; [done|]. by apply sublist_cons.
    + exists (x :: chosen). rewrite <- app_assoc. split; [done|]. by apply sublist_skip.
Qed.

(** X6. The candidate selection of the "LP" approach cannot succeed on a
    pool, however sorted, that holds fewer items than categories times
    slots: either the scan raises RuntimeWarning at a change of category,
    or the padding loop draws from the pool for ever, since every pooled
    item is soon a candidate; no number of turns makes it return. The
    guard of [find_best_allocation] only asks for L pooled items. *)
Theorem lp_candidates_need_a_large_pool
    (rng : oracle) (n : nat) (h : Store) (self : NewsLearner) :
  oracle_ok rng ->
  news_pool self <> [] ->
  (length (news_pool self) < length (categories self) * layout_slots self)%nat ->
  (forall fuel, (select_candidates fuel rng n h self).1 = None)
  \/ (forall fuel, (select_candidates fuel rng n h self).1 = Some (Raise RuntimeWarning)).
Proof.
  intros Hrng Hne Hshort. unfold select_candidates.
  pose proof (py_sort_perm (by_category_quality_desc h) (news_pool self)) as Hperm.
  destruct (py_sort (by_category_quality_desc h) (news_pool self)) as [|first rest] eqn:Hsort.
  { apply Permutation_nil_l in Hperm. by destruct Hne. }
  pose proof (take_per_category_sublist h
                (layout_slots (with_news_pool (first :: rest) self)) (first :: rest)
                (news_category (news_at h first)) 0 false []) as Htake.
  destruct (take_per_category _ _ _ _ _ _ _) as [lp|e].
  - left. intros fuel. destruct Htake as (chosen & -> & Hsub). simpl.
    rewrite pad_at_random_starves; [done | done | done | |].
    + by apply sublist_submseteq.
    + apply Permutation_length in Hperm. rewrite Hperm. exact Hshort.
  - right. intros fuel. by subst e.
Qed.

Lemma lp_candidates_need_a_large_pool_witness :
  (select_candidates 1000 fair_oracle 0 example_store
     (with_news_pool [2; 3; 0]%nat (learner_of (args_two_slots "LP")))).1 = None.
Proof.
  destruct (lp_candidates_need_a_large_pool fair_oracle 0 example_store
              (with_news_pool [2; 3; 0]%nat (learner_of (args_two_slots "LP"))))
    as [Hloops | Hraises].
  - intros k. unfold fair_oracle. split; [discriminate | reflexivity].
  - discriminate.
  - vm_compute. lia.
  - exact (Hloops 1000%nat).
  - specialize (Hraises 0%nat). vm_compute in Hraises. discriminate.
Defined.

Lemma choice_elem {A} (u : Q) (a : list A) (x : A) : choice u a = Ok x -> x ∈ a.
Proof.
  unfold choice, getitem. destruct a as [|y a]; [done|].
  destruct (_ !! _) as [z|] eqn:Hz; simpl; [|done].
  intros [= <-]. by eapply list_elem_of_lookup_2.
Qed.

(** X7. When the padding loop ends with a result, the candidates are the
    given ones, in their order, followed by pool items that are pairwise
    different and different from every given candidate; starting from at
    most the wanted number, the loop ends with exactly that number, and it
    adds nothing when the number is already reached. *)
Theorem padding_appends_new_pool_items
    (fuel : nat) (rng : oracle) (n : nat) (pool : list ref) (wanted : nat)
    (LP_news_pool padded : list ref) (n' : nat) :
  pad_at_random fuel rng n pool wanted LP_news_pool = Some (Ok (padded, n')) ->
  exists added,
    padded = LP_news_pool ++ added
    /\ NoDup added
    /\ Forall (fun x => x ∈ pool /\ x ∉ LP_news_pool) added
    /\ ((length LP_news_pool <= wanted)%nat -> length padded = wanted)
    /\ ((wanted <= length LP_news_pool)%nat -> added = [] /\ n' = n).
Proof.
  revert n LP_news_pool.
  assert (forall n lp, (length lp <? wanted)%nat = false ->
            Some (Ok (lp, n)) = Some (Ok (padded, n')) ->
            exists added, padded = lp ++ added /\ NoDup added
              /\ Forall (fun x => x ∈ pool /\ x ∉ lp) added
              /\ ((length lp <= wanted)%nat -> length padded = wanted)
              /\ ((wanted <= length lp)%nat -> added = [] /\ n' = n)) as Hstop.
  { intros n lp Hfull [= <- <-]. apply Nat.ltb_ge in Hfull.
    exists []. rewrite app_nil_r. repeat split; try done; [constructor | lia]. }
  induction fuel as [|fuel IH]; intros n lp; simpl.
  - destruct (length lp <? wanted)%nat eqn:Hlen; [done | by apply Hstop].
  - destruct (length lp <? wanted)%nat eqn:Hlen; [|by apply Hstop].
    apply Nat.ltb_lt in Hlen.
    destruct (choice (rng n) pool) as [x|e] eqn:Hx; [|done].
    apply choice_elem in Hx. unfold contains.
    destruct (decide (x ∈ lp)) as [Hin|Hout].
    + rewrite bool_decide_eq_true_2 by done. intros Hrun.
      destruct (IH _ _ Hrun) as (added & -> & Hnd & Hall & Hfull & _).
      exists added. repeat split; try done; lia.
    + rewrite bool_decide_eq_false_2 by done. intros Hrun.
      destruct (IH _ _ Hrun) as (added & -> & Hnd & Hall & Hfull & _).
      exists (x :: added). rewrite <- app_assoc. split; [done|].
      split.
      { apply NoDup_cons. split; [|done]. intros Hadded.
        eapply Forall_forall in Hall as [_ Hnot]; [|exact Hadded].
        apply Hnot. apply elem_of_app. right. by left. }
      split.
      { constructor; [done|]. eapply Forall_impl; [exact Hall|]. simpl.
        intros y [Hy Hnot]. split; [done|]. intros Hlp. apply Hnot.
        apply elem_of_app. by left. }
      split; [|lia]. intros _. rewrite <- app_assoc in Hfull. apply Hfull.
      rewrite length_app. simpl. lia.
Qed.

Lemma padding_appends_new_pool_items_witness :
  exists added,
    [0; 2]%nat = [0%nat] ++ added
    /\ NoDup added
    /\ Forall (fun x => x ∈ [0; 1; 2; 3]%nat /\ x ∉ [0%nat]) added
    /\ ((length [0%nat] <= 2)%nat -> length [0; 2]%nat = 2%nat)
    /\ ((2 <= length [0%nat])%nat -> added = [] /\ 1%nat = 0%nat).
Proof.
  apply (padding_appends_new_pool_items 5 fair_oracle 0 [0; 1; 2; 3]%nat 2
           [0%nat] [0; 2]%nat 1).
  vm_compute. reflexivity.
Defined.

(** ** The scan of the sorted pool *)

(** Inside a run of one category the scan keeps items until it has
    [slots] of them. *)
Lemma take_per_category_block (h : Store) (slots : nat) (block tail : list ref)
    (prev : string) (count : nat) (LP_news_pool : list ref) :
  Forall (fun r => news_category (news_at h r) = prev) block ->
  (count <= slots)%nat ->
  take_per_category h slots (block ++ tail) prev count (count =? slots)%nat LP_news_pool
    = take_per_category h slots tail prev (Nat.min slots (count + length block))
        (Nat.min slots (count + length block) =? slots)%nat
        (LP_news_pool ++ take (slots - count) block).
Proof.
  intros Hblock. revert count LP_news_pool.
  induction Hblock as [|x block Hx _ IH]; intros count lp Hcount.
  - cbn [app length]. rewrite take_nil, app_nil_r, Nat.add_0_r. by rewrite Nat.min_r.
  - cbn [app take_per_category].
    assert (String.eqb prev (news_category (news_at h x)) = true) as ->
      by (by apply String.eqb_eq).
    cbn [negb andb].
    destruct (count =? slots)%nat eqn:Hfull.
    + apply Nat.eqb_eq in Hfull. subst count.
      rewrite Nat.eqb_refl.
      pose proof (IH slots lp Hcount) as Hrest.
      rewrite (Nat.eqb_refl slots) in Hrest. rewrite Hrest.
      rewrite Nat.sub_diag, !take_0. cbn [length].
      by rewrite !Nat.min_l by lia.
    + apply Nat.eqb_neq in Hfull.
      replace (if (S count =? slots)%nat then true else false)
        with (S count =? slots)%nat by (by destruct (S count =? slots)%nat).
      rewrite IH by lia. cbn [length].
      replace (S count + length block)%nat with (count + S (length block))%nat by lia.
      replace (slots - count)%nat with (S (slots - S count)) by lia.
      cbn [take]. by rewrite <- app_assoc.
Qed.

(** At the first item of another category the scan starts afresh,
    provided the category it leaves was complete. *)
Lemma take_per_category_boundary (h : Store) (slots : nat) (y : ref) (rest : list ref)
    (prev : string) (count : nat) (done_for_category : bool) (LP_news_pool : list ref) :
  news_category (news_at h y) <> prev ->
  (slots <= count)%nat ->
  take_per_category h slots (y :: rest) prev count done_for_category LP_news_pool
    = take_per_category h slots (y :: rest) (news_category (news_at h y)) 0 false
        LP_news_pool.
Proof.
  intros Hy Hcount. cbn [take_per_category].
  assert (String.eqb prev (news_category (news_at h y)) = false) as ->
    by (apply String.eqb_neq; congruence).
  rewrite String.eqb_refl.
  assert ((count <? slots)%nat = false) as -> by (apply Nat.ltb_ge; lia).
  reflexivity.
Qed.

Lemma take_per_category_blocks (h : Store) (slots : nat) (prev : option string)
    (block : list ref) (blocks : list (list ref)) (first : ref) (LP_news_pool : list ref) :
  (0 < slots)%nat ->
  category_blocks h prev (block :: blocks) ->
  all_but_last_hold slots (block :: blocks) ->
  head block = Some first ->
  take_per_category h slots (concat (block :: blocks))
      (news_category (news_at h first)) 0 false LP_news_pool
    = Ok (LP_news_pool ++ concat (map (take slots) (block :: blocks))).
Proof.
  intros Hslots. revert prev block first LP_news_pool.
  induction blocks as [|next blocks IH]; intros prev block first lp Hcat Hhold Hfirst.
  - destruct block as [|x block]; [done|]. injection Hfirst as ->.
    destruct Hcat as (_ & Hblock & _).
    cbn [concat map]. rewrite !app_nil_r.
    rewrite <- (app_nil_r (first :: block)) at 1.
    replace false with (0 =? slots)%nat by (apply Nat.eqb_neq; lia).
    rewrite take_per_category_block by (done || lia).
    by rewrite Nat.sub_0_r.
  - destruct block as [|x block]; [done|]. injection Hfirst as ->.
    destruct Hcat as (_ & Hblock & Hnext). destruct Hhold as [Hlen Hhold].
    change (concat ((first :: block) :: next :: blocks))
      with ((first :: block) ++ concat (next :: blocks)).
    replace false with (0 =? slots)%nat at 1 by (apply Nat.eqb_neq; lia).
    rewrite take_per_category_block by (done || lia).
    rewrite Nat.sub_0_r, Nat.add_0_l, Nat.min_l by done.
    destruct next as [|y next]; [done|].
    pose proof Hnext as (Hy & _).
    change (concat ((y :: next) :: blocks)) with (y :: next ++ concat blocks).
    rewrite take_per_category_boundary; [|congruence|done].
    change (y :: next ++ concat blocks) with (concat ((y :: next) :: blocks)).
    rewrite (IH (Some (news_category (news_at h first))) (y :: next) y) by done.
    change (map (take slots) ((first :: block) :: (y :: next) :: blocks))
      with (take slots (first :: block) :: map (take slots) ((y :: next) :: blocks)).
    cbn [concat]. by rewrite <- app_assoc.
Qed.

Lemma all_hold_but_last (slots : nat) (blocks : list (list ref)) :
  Forall (fun block => (slots <= length block)%nat) blocks ->
  all_but_last_hold slots blocks.
Proof.
  induction 1 as [|block blocks Hb Hall IH]; [done|].
  simpl. destruct blocks; [done|]. by split.
Qed.

Lemma length_concat_take (slots : nat) (blocks : list (list ref)) :
  Forall (fun block => (slots <= length block)%nat) blocks ->
  length (concat (map (take slots) blocks)) = (length blocks * slots)%nat.
Proof.
  induction 1 as [|block blocks Hb Hall IH]; [done|].
  cbn [map concat length]. rewrite length_app, length_take, IH. lia.
Qed.

Lemma pad_at_random_enough (fuel : nat) (rng : oracle) (n : nat) (pool : list ref)
    (wanted : nat) (LP_news_pool : list ref) :
  (wanted <= length LP_news_pool)%nat ->
  pad_at_random fuel rng n pool wanted LP_news_pool = Some (Ok (LP_news_pool, n)).
Proof.
  intros Hlen. apply Nat.ltb_ge in Hlen. destruct fuel; simpl; by rewrite Hlen.
Qed.

(** X8. When the pool, sorted by category and quality, falls into one
    run per category of the learner and every run holds at least L >= 1
    items, the candidates of the "LP" approach are the first L items of
    every run, the best of each category, sorted again by category; no
    RuntimeWarning is raised, the padding loop does not turn once and no
    draw is consumed. *)
Theorem lp_candidates_are_the_best_of_each_category
    (fuel : nat) (rng : oracle) (n : nat) (h : Store) (self : NewsLearner)
    (blocks : list (list ref)) :
  (0 < layout_slots self)%nat ->
  blocks <> [] ->
  py_sort (by_category_quality_desc h) (news_pool self) = concat blocks ->
  category_blocks h None blocks ->
  length blocks = length (categories self) ->
  Forall (fun block => (layout_slots self <= length block)%nat) blocks ->
  (select_candidates fuel rng n h self).1
    = Some (Ok (py_sort (by_category h)
                  (concat (map (take (layout_slots self)) blocks)), n)).
Proof.
  intros Hslots Hne Hsort Hcat Hcount Hall. unfold select_candidates. rewrite Hsort.
  destruct blocks as [|block blocks]; [done|].
  destruct block as [|first block]; [done|].
  change (concat ((first :: block) :: blocks)) with (first :: block ++ concat blocks) at 1.
  cbn iota. cbn [layout_slots with_news_pool categories].
  rewrite (take_per_category_blocks h (layout_slots self) None (first :: block) blocks first [])
    by (done || by apply all_hold_but_last).
  rewrite app_nil_l. cbn [fst].
  rewrite pad_at_random_enough; [done|].
  rewrite length_concat_take by done. rewrite Hcount. lia.
Qed.

Lemma lp_candidates_are_the_best_of_each_category_witness :
  (select_candidates 0 fair_oracle 0 example_store
     (with_news_pool [0; 2; 1; 3]%nat (learner_of (args_two_slots "LP")))).1
    = Some (Ok (py_sort (by_category example_store)
                  (concat (map (take 2) [[2; 3]; [0; 1]]%nat)), 0%nat)).
Proof.
  apply (lp_candidates_are_the_best_of_each_category 0 fair_oracle 0 example_store
           (with_news_pool [0; 2; 1; 3]%nat (learner_of (args_two_slots "LP")))
           [[2; 3]; [0; 1]]%nat).
  - vm_compute. lia.
  - discriminate.
  - vm_compute. reflexivity.
  - simpl. repeat split; try discriminate; repeat constructor.
  - reflexivity.
  - repeat constructor.
Defined.

(** ** The buffers of the ads *)

Lemma index_of_lt {A} (eqb : A -> A -> bool) (x : A) (l : list A) (i : nat) :
  index_of eqb x l = Some i -> (i < length l)%nat.
Proof.
  revert i. induction l as [|y l IH]; intros i; simpl; [done|].
  destruct (eqb y x); [intros [= <-]; lia|].
  destruct (index_of eqb x l) as [j|]; simpl; [|done].
  intros [= <-]. specialize (IH j eq_refl). lia.
Qed.

Lemma validate_ads_list_accepts (h : Store) (cats : list string) (l : list content) :
  Forall (acceptable_ad h cats) l -> validate_ads_list h cats l = Ok (references l).
Proof.
  induction 1 as [|c l Hc _ IH]; [done|].
  destruct c as [r|r]; simpl in *; [done|].
  unfold contains. rewrite bool_decide_eq_true_2 by done. simpl. by rewrite IH.
Qed.

Lemma validate_ads_list_refuses (h : Store) (cats : list string) (l : list content) :
  ~ Forall (acceptable_ad h cats) l -> validate_ads_list h cats l = Raise RuntimeError.
Proof.
  induction l as [|c l IH]; intros Hbad; [by destruct Hbad|].
  destruct c as [r|r]; simpl; [done|].
  unfold contains. destruct (decide (ad_category (ad_at h r) ∈ cats)) as [Hin|Hout].
  - rewrite bool_decide_eq_true_2 by done. simpl.
    rewrite IH; [done|]. intros Hall. apply Hbad. by constructor.
  - by rewrite bool_decide_eq_false_2.
Qed.

Lemma filed_under_cons (h : Store) (cats : list string) (c : nat) (exclusive : bool)
    (ad : ref) (ads : list ref) :
  filed_under h cats c exclusive (ad :: ads)
    = (if decide (index_of String.eqb (ad_category (ad_at h ad)) cats = Some c
                  /\ exclude_competitors (ad_at h ad) = exclusive)
       then [ad] else []) ++ filed_under h cats c exclusive ads.
Proof.
  unfold filed_under. destruct (decide _) as [Hyes|Hno].
  - by rewrite filter_cons_True.
  - by rewrite filter_cons_False.
Qed.

(** The buffering files every ad, in the order of the list, at the end
    of the bin of its category and exclusivity. *)
Lemma buffer_ads_spec (h : Store) (cats : list string) (ads : list ref)
    (buffers : list (list ref * list ref)) :
  Forall (fun ad => ad_category (ad_at h ad) ∈ cats) ads ->
  (length cats <= length buffers)%nat ->
  exists buffers',
    buffer_ads h cats ads buffers = (Ok tt, buffers')
    /\ length buffers' = length buffers
    /\ forall c open exclusive,
         buffers !! c = Some (open, exclusive) ->
         buffers' !! c = Some (open ++ filed_under h cats c false ads,
                               exclusive ++ filed_under h cats c true ads).
Proof.
  intros Hads. revert buffers.
  induction Hads as [|ad ads Had _ IH]; intros buffers Hlen.
  - exists buffers. split; [done|]. split; [done|].
    intros c o e Hc. unfold filed_under. by rewrite !filter_nil, !app_nil_r.
  - destruct (index_of_known cats _ Had) as [ci Hci].
    pose proof (index_of_lt _ _ _ _ Hci) as Hlt.
    destruct (lookup_lt_is_Some_2 buffers ci) as [[o0 e0] Hbin]; [lia|].
    cbn [buffer_ads]. rewrite Hci, Hbin.
    match goal with
    | |- context [buffer_ads h cats ads ?b] =>
        destruct (IH b) as (final & -> & Hflen & Hfinal)
    end.
    { by rewrite length_insert. }
    exists final. split; [done|]. rewrite Hflen, length_insert. split; [done|].
    intros c o e Hc. rewrite !filed_under_cons.
    destruct (decide (c = ci)) as [->|Hne].
    + rewrite Hbin in Hc. injection Hc as <- <-.
      destruct (exclude_competitors (ad_at h ad)) eqn:Hex.
      * rewrite (Hfinal ci o0 (e0 ++ [ad])) by (apply list_lookup_insert_eq; lia).
        rewrite decide_False by (intros [_ ?]; done).
        rewrite decide_True by done. by rewrite <- !app_assoc.
      * rewrite (Hfinal ci (o0 ++ [ad]) e0) by (apply list_lookup_insert_eq; lia).
        rewrite decide_True by done.
        rewrite decide_False by (intros [_ ?]; done). by rewrite <- !app_assoc.
    + rewrite (Hfinal c o e) by (by rewrite list_lookup_insert_ne).
      rewrite !decide_False by (intros [? _]; congruence). done.
Qed.

Lemma references_acceptable_ads (h : Store) (cats : list string) (l : list content) :
  Forall (acceptable_ad h cats) l ->
  Forall (fun ad => ad_category (ad_at h ad) ∈ cats) (references l).
Proof.
  induction 1 as [|c l Hc _ IH]; [constructor|].
  destruct c as [r|r]; simpl in *; [done|]. by constructor.
Qed.

(** The call on a list of the caller's own, which always returns. *)
Lemma fill_ads_pool_a_list (fuel : nat) (h : Store) (self : NewsLearner)
    (items : list content) (append : bool) :
  fill_ads_pool fuel h self (a_list items) append
  = Some (match validate_ads_list h (categories self) items with
          | Raise e => (Raise e, self)
          | Ok refs =>
              let self := with_ads_pool (if append then ads_pool self ++ refs else refs)
                            self in
              let '(r, buffers) :=
                buffer_ads h (categories self) refs (ads_per_category self) in
              (r, with_ads_per_category buffers self)
          end).
Proof.
  unfold fill_ads_pool. cbn [contents].
  destruct (validate_ads_list h (categories self) items) as [refs|]; [|done].
  destruct append; cbn [extend_pool mbind option_bind];
    by destruct (buffer_ads _ _ _ _).
Qed.

(** X9. [fill_ads_pool] checks the whole list before it stores anything:
    a list with a News or with an ad of a category the learner does not
    handle is refused with RuntimeError and the learner stays as it was,
    whichever list object was passed. An accepted list other than the
    pool's own list object is appended to the ads pool, or replaces it,
    and every ad of it is filed, in the order of the list, at the end of
    the bin of its category that matches its exclusivity; the bins are
    not emptied when the list replaces the pool. *)
Theorem fill_ads_pool_files_every_ad
    (fuel : nat) (h : Store) (self : NewsLearner) (ads_list : list content)
    (append : bool) :
  (length (categories self) <= length (ads_per_category self))%nat ->
  (forall passed,
      ~ Forall (acceptable_ad h (categories self))
          (contents AnAd (ads_pool self) passed) ->
      fill_ads_pool fuel h self passed append = Some (Raise RuntimeError, self))
  /\ (Forall (acceptable_ad h (categories self)) ads_list ->
      exists self',
        fill_ads_pool fuel h self (a_list ads_list) append = Some (Ok tt, self')
        /\ ads_pool self'
           = (if append then ads_pool self ++ references ads_list
              else references ads_list)
        /\ news_pool self' = news_pool self
        /\ forall c open exclusive,
             ads_per_category self !! c = Some (open, exclusive) ->
             ads_per_category self' !! c
               = Some (open ++ filed_under h (categories self) c false
                                 (references ads_list),
                       exclusive ++ filed_under h (categories self) c true
                                      (references ads_list))).
Proof.
  intros Hlen. split.
  - intros passed Hbad. unfold fill_ads_pool. by rewrite validate_ads_list_refuses.
  - intros Hok. rewrite fill_ads_pool_a_list. rewrite validate_ads_list_accepts by done.
    cbv zeta.
    destruct (buffer_ads_spec h (categories self) (references ads_list)
                (ads_per_category self))
      as (buffers & Hrun & _ & Hbins); [by apply references_acceptable_ads | done |].
    change (categories (with_ads_pool _ self)) with (categories self).
    change (ads_per_category (with_ads_pool _ self)) with (ads_per_category self).
    rewrite Hrun. eexists. split; [reflexivity|]. split; [reflexivity|].
    split; [reflexivity|]. exact Hbins.
Qed.

Lemma fill_ads_pool_files_every_ad_witness :
  exists self',
    fill_ads_pool 0 example_store (learner_of args_ads)
      (a_list [AnAd 0%nat; AnAd 1%nat]) false = Some (Ok tt, self')
    /\ ads_pool self' = [0; 1]%nat
    /\ ads_per_category self' !! 0%nat = Some ([], [0; 1]%nat).
Proof.
  destruct (fill_ads_pool_files_every_ad 0 example_store (learner_of args_ads)
              [AnAd 0%nat; AnAd 1%nat] false) as [_ Hfill].
  - vm_compute. lia.
  - assert (Forall (acceptable_ad example_store (categories (learner_of args_ads)))
              [AnAd 0%nat; AnAd 1%nat]) as Hok
      by (apply (bool_decide_unpack _); vm_compute; exact I).
    destruct (Hfill Hok) as (self' & Hrun & Hpool & _ & Hbins).
    exists self'. split; [exact Hrun|]. split; [exact Hpool|].
    etrans; [exact (Hbins 0%nat [] [] eq_refl)|]. vm_compute. reflexivity.
Defined.

(** X10. Under the techniques "LP" and "res_LP", the only ones that
    [find_ads_best_allocation] accepts, an ad that was pooled with
    [fill_ads_pool] and is then removed with [remove_ad_from_pool] leaves
    the ads pool but stays in the bin of its category, from which the
    restricted program still draws. *)
Theorem removed_ads_stay_buffered
    (fuel : nat) (h : Store) (self : NewsLearner) (ads_list : list content) :
  ads_allocation_technique self = "LP" \/ ads_allocation_technique self = "res_LP" ->
  (length (categories self) <= length (ads_per_category self))%nat ->
  Forall (acceptable_ad h (categories self)) ads_list ->
  exists filled removed,
    fill_ads_pool fuel h self (a_list ads_list) true = Some (Ok tt, filled)
    /\ remove_ad_from_pool h filled (references ads_list) = (Ok tt, removed)
    /\ forall ad, ad ∈ references ads_list ->
         (ad ∉ ads_pool removed)
         /\ exists c open exclusive,
              ads_per_category removed !! c = Some (open, exclusive)
              /\ (ad ∈ open \/ ad ∈ exclusive).
Proof.
  intros Htech Hlen Hok.
  pose proof (references_acceptable_ads h _ _ Hok) as Hrefs.
  destruct (buffer_ads_spec h (categories self) (references ads_list)
              (ads_per_category self) Hrefs Hlen) as (buffers & Hrun & Hblen & Hbins).
  set (filled := with_ads_per_category buffers
                   (with_ads_pool (ads_pool self ++ references ads_list) self)).
  exists filled,
    (with_ads_pool (filter (fun ad => ad ∉ references ads_list) (ads_pool filled)) filled).
  split.
  { rewrite fill_ads_pool_a_list. rewrite validate_ads_list_accepts by done.
    cbv zeta.
    change (categories (with_ads_pool _ self)) with (categories self).
    change (ads_per_category (with_ads_pool _ self)) with (ads_per_category self).
    by rewrite Hrun. }
  split.
  { unfold remove_ad_from_pool.
    pose proof (remove_loop_filters (references ads_list) (ads_pool filled) []) as Hloop.
    rewrite app_nil_l in Hloop. rewrite Hloop. cbn [app].
    assert (String.eqb (ads_allocation_technique
                          (with_ads_pool
                             (filter (fun ad => ad ∉ references ads_list) (ads_pool filled))
                             filled)) "resLP" = false) as ->; [|done].
    change (String.eqb (ads_allocation_technique self) "resLP" = false).
    by destruct Htech as [-> | ->]. }
  intros ad Had. split.
  { intros Hin.
    apply (list_elem_of_filter (fun ad => ad ∉ references ads_list)
             (ads_pool filled) ad) in Hin as [Hout _].
    done. }
  eapply Forall_forall in Hrefs as Hcat; [|exact Had].
  destruct (index_of_known _ _ Hcat) as [c Hc].
  pose proof (index_of_lt _ _ _ _ Hc) as Hlt.
  destruct (lookup_lt_is_Some_2 (ads_per_category self) c) as [[o e] Hbin]; [lia|].
  exists c, (o ++ filed_under h (categories self) c false (references ads_list)),
    (e ++ filed_under h (categories self) c true (references ads_list)).
  split; [exact (Hbins c o e Hbin)|].
  destruct (exclude_competitors (ad_at h ad)) eqn:Hex.
  - right. apply elem_of_app. right. by apply list_elem_of_filter.
  - left. apply elem_of_app. right. by apply list_elem_of_filter.
Qed.

Lemma removed_ads_stay_buffered_witness :
  exists filled removed,
    fill_ads_pool 0 example_store (learner_of args_ads)
      (a_list [AnAd 0%nat; AnAd 1%nat]) true = Some (Ok tt, filled)
    /\ remove_ad_from_pool example_store filled [0; 1]%nat = (Ok tt, removed)
    /\ forall ad, ad ∈ [0; 1]%nat ->
         (ad ∉ ads_pool removed)
         /\ exists c open exclusive,
              ads_per_category removed !! c = Some (open, exclusive)
              /\ (ad ∈ open \/ ad ∈ exclusive).
Proof.
  apply (removed_ads_stay_buffered 0 example_store (learner_of args_ads)
           [AnAd 0%nat; AnAd 1%nat]).
  - right. vm_compute. reflexivity.
  - vm_compute. lia.
  - apply (bool_decide_unpack _). vm_compute. exact I.
Defined.

(** ** The display of the winning ads *)

Lemma remove_ad_from_pool_run (h : Store) (self : NewsLearner) (ads_list : list ref) :
  ads_allocation_technique self = "LP" \/ ads_allocation_technique self = "res_LP" ->
  remove_ad_from_pool h self ads_list
    = (Ok tt, with_ads_pool (filter (fun ad => ad ∉ ads_list) (ads_pool self)) self).
Proof.
  intros Htech. unfold remove_ad_from_pool.
  pose proof (remove_loop_filters ads_list (ads_pool self) []) as Hloop.
  rewrite app_nil_l in Hloop. rewrite Hloop. cbn [app].
  assert (String.eqb (ads_allocation_technique
                        (with_ads_pool (filter (fun ad => ad ∉ ads_list) (ads_pool self)) self))
                     "resLP" = false) as ->; [|done].
  simpl. by destruct Htech as [-> | ->].
Qed.

Lemma set_as_buyer_keeps (h : Store) (r x : ref) :
  buyer (ad_at h x) = true -> buyer (ad_at (set_as_buyer h r) x) = true.
Proof. intros Hx. simpl. by destruct (decide (x = r)). Qed.

Lemma set_as_buyer_sets (h : Store) (r : ref) : buyer (ad_at (set_as_buyer h r) r) = true.
Proof. simpl. by rewrite decide_True. Qed.

Lemma display_filter_spec
    (rng : oracle) (weighted : bool) (st : Sys)
    (ads_allocation final_ads_allocation : list ref) :
  ads_allocation_technique (learner st) = "LP"
  \/ ads_allocation_technique (learner st) = "res_LP" ->
  exists shown st',
    display_filter rng weighted st ads_allocation final_ads_allocation
      = (Ok (final_ads_allocation ++ shown), st')
    /\ sublist shown ads_allocation
    /\ ads_pool (learner st') = filter (fun ad => ad ∉ shown) (ads_pool (learner st))
    /\ (forall ad, ad ∈ ads_allocation -> buyer (ad_at (store st) ad) = true ->
                   ad ∈ shown)
    /\ (forall ad, ad ∈ ads_allocation -> ad ∉ shown ->
                   buyer (ad_at (store st') ad) = true)
    /\ (forall ad, buyer (ad_at (store st) ad) = true ->
                   buyer (ad_at (store st') ad) = true).
Proof.
  revert st final_ads_allocation.
  induction ads_allocation as [|ad rest IH]; intros st acc Htech.
  - exists [], st. rewrite app_nil_r. simpl. repeat split; try done.
    by rewrite filter_all by (apply Forall_forall; intros x _; apply not_elem_of_nil).
  - cbn [display_filter].
    assert (forall st1 : Sys,
              learner st1 = learner st ->
              (forall x, buyer (ad_at (store st) x) = true ->
                         buyer (ad_at (store st1) x) = true) ->
              exists shown st',
                (match remove_ad_from_pool (store st1) (learner st1) [ad] with
                 | (Raise e, self) =>
                     (Raise e, mkSys self (store st1) (visitor st1) (draws st1))
                 | (Ok _, self) =>
                     display_filter rng weighted
                       (mkSys self (store st1) (visitor st1) (draws st1))
                       rest (acc ++ [ad])
                 end) = (Ok (acc ++ ad :: shown), st')
                /\ sublist (ad :: shown) (ad :: rest)
                /\ ads_pool (learner st')
                   = filter (fun x => x ∉ ad :: shown) (ads_pool (learner st))
                /\ (forall x, x ∈ rest -> buyer (ad_at (store st) x) = true ->
                              x ∈ ad :: shown)
                /\ (forall x, x ∈ rest -> x ∉ ad :: shown ->
                              buyer (ad_at (store st') x) = true)
                /\ (forall x, buyer (ad_at (store st) x) = true ->
                              buyer (ad_at (store st') x) = true)) as Hshow.
    { intros st1 Hl Hmono. rewrite remove_ad_from_pool_run by (by rewrite Hl).
      destruct (IH (mkSys (with_ads_pool
                             (filter (fun x => x ∉ [ad]) (ads_pool (learner st1)))
                             (learner st1))
                          (store st1) (visitor st1) (draws st1)) (acc ++ [ad]))
        as (shown & st' & Hrun & Hsub & Hpool & Hbuy & Hnot & Hkeep).
      { simpl. by rewrite Hl. }
      exists shown, st'. rewrite Hrun, <- app_assoc. split; [done|].
      split; [by apply sublist_skip|]. split.
      { rewrite Hpool. cbn [learner ads_pool with_ads_pool]. rewrite Hl.
        rewrite list_filter_filter. apply list_filter_iff. intros x.
        split.
        - intros [Hshown Hone] Hin. apply elem_of_cons in Hin as [->|Hin]; [|done].
          apply Hone. by left.
        - intros Hout. split; intros Hin; apply Hout; [by right|].
          apply elem_of_cons in Hin as [->|Hin]; [by left|].
          by apply elem_of_nil in Hin. }
      split.
      { intros x Hx Hb. right. apply Hbuy; [done|]. by apply Hmono. }
      split.
      { intros x Hx Hout. apply Hnot; [done|]. intros Hin. apply Hout. by right. }
      intros x Hb. apply Hkeep. by apply Hmono. }
    destruct (buyer (ad_at (store st) ad)) eqn:Hbuyer.
    + destruct (Hshow st eq_refl (fun x Hx => Hx))
        as (shown & st' & Hrun & Hsub & Hpool & Hbuy & Hnot & Hkeep).
      exists (ad :: shown), st'. split; [done|]. split; [done|]. split; [done|].
      split.
      { intros x Hx Hb. apply elem_of_cons in Hx as [->|Hx]; [by left | by apply Hbuy]. }
      split; [|done].
      intros x Hx Hout. apply elem_of_cons in Hx as [->|Hx]; [|by apply Hnot].
      exfalso. apply Hout. by left.
    + destruct (Qltb (rng (draws st)) (if weighted then _ else _)).
      * destruct (Hshow (mkSys (learner st) (store st) (visitor st) (S (draws st)))
                    eq_refl (fun x Hx => Hx))
          as (shown & st' & Hrun & Hsub & Hpool & Hbuy & Hnot & Hkeep).
        exists (ad :: shown), st'. split; [done|]. split; [done|]. split; [done|].
        split.
        { intros x Hx Hb. apply elem_of_cons in Hx as [->|Hx]; [by left | by apply Hbuy]. }
        split; [|done].
        intros x Hx Hout. apply elem_of_cons in Hx as [->|Hx]; [|by apply Hnot].
        exfalso. apply Hout. by left.
      * destruct (IH (mkSys (learner st) (set_as_buyer (store st) ad) (visitor st)
                            (S (draws st))) acc)
          as (shown & st' & Hrun & Hsub & Hpool & Hbuy & Hnot & Hkeep); [done|].
        exists shown, st'. split; [done|]. split; [by apply sublist_cons|].
        split; [done|]. split.
        { intros x Hx Hb. apply elem_of_cons in Hx as [->|Hx]; [congruence|].
          apply Hbuy; [done|]. by apply set_as_buyer_keeps. }
        split.
        { intros x Hx Hout. apply elem_of_cons in Hx as [->|Hx]; [|by apply Hnot].
          apply Hkeep. apply set_as_buyer_sets. }
        intros x Hb. apply Hkeep. by apply set_as_buyer_keeps.
Qed.

(** X11. The display filter of "pdda" and "wpdda", under the techniques
    "LP" and "res_LP", never fails. The ads it displays are winners, in
    the order of the winners; a winner already marked as buyer is always
    displayed; a winner that is withheld is marked as buyer, so it is
    displayed the next time it wins; every displayed ad, and no other,
    leaves the ads pool; a buyer mark is never taken back. *)
Theorem display_filter_shows_buyers
    (rng : oracle) (weighted : bool) (st : Sys)
    (ads_allocation final_ads_allocation : list ref) :
  ads_allocation_technique (learner st) = "LP"
  \/ ads_allocation_technique (learner st) = "res_LP" ->
  exists shown st',
    display_filter rng weighted st ads_allocation final_ads_allocation
      = (Ok (final_ads_allocation ++ shown), st')
    /\ sublist shown ads_allocation
    /\ ads_pool (learner st') = filter (fun ad => ad ∉ shown) (ads_pool (learner st))
    /\ (forall ad, ad ∈ ads_allocation -> buyer (ad_at (store st) ad) = true ->
                   ad ∈ shown)
    /\ (forall ad, ad ∈ ads_allocation -> ad ∉ shown ->
                   buyer (ad_at (store st') ad) = true)
    /\ (forall ad, buyer (ad_at (store st) ad) = true ->
                   buyer (ad_at (store st') ad) = true).
Proof.
  intros Htech.
  destruct (display_filter_spec rng weighted st ads_allocation final_ads_allocation Htech)
    as (shown & st' & Hrun & Hsub & Hpool & Hbuyers & Hwithheld & Hmarks).
  exists shown, st'. split; [exact Hrun|]. split; [exact Hsub|]. split; [exact Hpool|].
  split; [exact Hbuyers|]. split; [exact Hwithheld | exact Hmarks].
Qed.

Lemma display_filter_shows_buyers_witness :
  exists shown st',
    display_filter fair_oracle true ads_visit [0; 1]%nat []
      = (Ok ([] ++ shown), st')
    /\ sublist shown [0; 1]%nat
    /\ ads_pool (learner st')
       = filter (fun ad => ad ∉ shown) (ads_pool (learner ads_visit))
    /\ (forall ad, ad ∈ [0; 1]%nat -> buyer (ad_at (store ads_visit) ad) = true ->
                   ad ∈ shown)
    /\ (forall ad, ad ∈ [0; 1]%nat -> ad ∉ shown ->
                   buyer (ad_at (store st') ad) = true)
    /\ (forall ad, buyer (ad_at (store ads_visit) ad) = true ->
                   buyer (ad_at (store st') ad) = true).
Proof.
  apply (display_filter_shows_buyers fair_oracle true ads_visit [0; 1]%nat []).
  right. reflexivity.
Defined.

(** ** The ads decoded from the restricted program *)

Lemma length_omap_id {A} (l : list (option A)) : (length (omap id l) <= length l)%nat.
Proof. induction l as [|[x|] l IH]; cbn [omap list_omap id length] in *; lia. Qed.

Lemma omap_insert_new (l : list (option ref)) (i : nat) (a : ref) :
  NoDup (omap id l) -> Some a ∉ l ->
  NoDup (omap id (<[i := Some a]> l))
  /\ forall x, x ∈ omap id (<[i := Some a]> l) -> x = a \/ x ∈ omap id l.
Proof.
  revert i. induction l as [|o l IH]; intros i Hnd Hout.
  { simpl. split; [constructor|]. intros x Hx. by apply elem_of_nil in Hx. }
  assert (Some a ∉ l) as Hout' by (intros Hin; apply Hout; by right).
  assert (a ∉ omap id l) as Hnew.
  { intros Hin. apply Hout'. apply list_elem_of_omap in Hin as (o' & Ho' & Heq).
    destruct o' as [b|]; simpl in Heq; [|done]. by injection Heq as ->. }
  destruct i as [|i]; simpl.
  - destruct o as [b|]; simpl in *.
    + apply NoDup_cons in Hnd as [_ Hnd]. split.
      * by apply NoDup_cons.
      * intros x Hx. apply elem_of_cons in Hx as [->|Hx]; [by left|]. right. by right.
    + split.
      * by apply NoDup_cons.
      * intros x Hx. apply elem_of_cons in Hx as [->|Hx]; [by left | by right].
  - destruct o as [b|]; simpl in *.
    + apply NoDup_cons in Hnd as [Hb Hnd].
      destruct (IH i Hnd Hout') as [Hnd' Hfrom]. split.
      * apply NoDup_cons. split; [|done]. intros Hin.
        destruct (Hfrom b Hin) as [-> | Hold]; [|done].
        apply Hout. by left.
      * intros x Hx. apply elem_of_cons in Hx as [->|Hx]; [right; by left|].
        destruct (Hfrom x Hx) as [-> | Hold]; [by left | right; by right].
    + by apply IH.
Qed.

(** An ad that one of the bins of the learner holds. *)
Lemma place_ads_spec (rng : oracle) (self : NewsLearner)
    (slots : list (nat * list lp_variable)) (n : nat) (name : option lp_variable)
    (result result' : list (option ref)) (n' : nat) :
  place_ads rng n self slots name result = Ok (result', n') ->
  NoDup (omap id result) ->
  Forall (fun ad => exists bins, bins ∈ ads_per_category self
                                 /\ (ad ∈ bins.1 \/ ad ∈ bins.2)) (omap id result) ->
  NoDup (omap id result')
  /\ length result' = length result
  /\ Forall (fun ad => exists bins, bins ∈ ads_per_category self
                                    /\ (ad ∈ bins.1 \/ ad ∈ bins.2)) (omap id result').
Proof.
  revert n name result.
  induction slots as [|[i vars] slots IH]; intros n name result Hrun Hnd Hfrom.
  - simpl in Hrun. by injection Hrun as <- <-.
  - cbn [place_ads] in Hrun.
    destruct (match first_positive vars with Some v => Some v | None => name end)
      as [v|]; [|done].
    unfold getitem in Hrun.
    destruct (ads_per_category self !! var_category v) as [bins|] eqn:Hbins; [|done].
    cbn [from_option mbind res_bind] in Hrun.
    destruct ([bins.1; bins.2] !! var_exclusive v) as [bin|] eqn:Hbin; [|done].
    cbn [from_option mbind res_bind] in Hrun.
    destruct (choice (rng n) bin) as [a|e] eqn:Ha; [|done].
    cbn [mbind res_bind] in Hrun. apply choice_elem in Ha.
    assert (exists bins, bins ∈ ads_per_category self /\ (a ∈ bins.1 \/ a ∈ bins.2))
      as Hfrom_a.
    { exists bins. split; [by eapply list_elem_of_lookup_2|].
      destruct (var_exclusive v) as [|[|k]]; simpl in Hbin; [| |done].
      - injection Hbin as <-. by left.
      - injection Hbin as <-. by right. }
    unfold contains in Hrun.
    destruct (decide (Some a ∈ result)) as [Hin|Hout].
    + rewrite bool_decide_eq_true_2 in Hrun by done. cbn [mbind res_bind] in Hrun.
      by apply IH in Hrun.
    + rewrite bool_decide_eq_false_2 in Hrun by done. unfold setitem in Hrun.
      destruct (decide (i < length result)%nat); [|done].
      cbn [mbind res_bind] in Hrun.
      destruct (omap_insert_new result i a Hnd Hout) as [Hnd' Hsrc].
      apply IH in Hrun; [|done|].
      * rewrite length_insert in Hrun. done.
      * apply Forall_forall. intros x Hx.
        destruct (Hsrc x Hx) as [-> | Hold]; [done|].
        by eapply Forall_forall in Hfrom.
Qed.

(** X12. Whatever values the solver reports, the ads that the restricted
    program returns are pairwise different, at most one per ad slot, and
    each of them is held by a bin of the learner: a slot whose draw
    repeats an ad of an earlier slot stays empty. *)
Theorem restricted_ads_are_distinct
    (lp_solve : ilp -> list (option Z)) (rng : oracle) (st : Sys)
    (ads_allocation : list ref) (st' : Sys) :
  solve_ads_restricted_linear_problem lp_solve rng st = (Ok ads_allocation, st') ->
  NoDup ads_allocation
  /\ (length ads_allocation <= ads_slots (learner st))%nat
  /\ Forall (fun ad => exists bins, bins ∈ ads_per_category (learner st)
                                    /\ (ad ∈ bins.1 \/ ad ∈ bins.2)) ads_allocation.
Proof.
  unfold solve_ads_restricted_linear_problem.
  destruct (restricted_program rng st) as [[problem|e] n]; [|done].
  unfold place_solution.
  destruct (place_ads _ _ _ _ _ _) as [[result n1]|e] eqn:Hplace; [|done].
  destruct (resample_ads _ _ _ _) as [h n2]. intros [= <- _].
  apply place_ads_spec in Hplace as (Hnd & Hlen & Hfrom).
  - split; [done|]. split; [|done].
    rewrite length_replicate in Hlen. rewrite <- Hlen. apply length_omap_id.
  - rewrite omap_replicate_none. constructor.
  - rewrite omap_replicate_none. constructor.
Qed.

Lemma restricted_ads_are_distinct_witness :
  NoDup [0; 1]%nat
  /\ (length [0; 1]%nat <= ads_slots (learner ads_visit))%nat
  /\ Forall (fun ad => exists bins, bins ∈ ads_per_category (learner ads_visit)
                                    /\ (ad ∈ bins.1 \/ ad ∈ bins.2)) [0; 1]%nat.
Proof.
  apply (restricted_ads_are_distinct one_exclusive_in_first_slot split_oracle ads_visit
           [0; 1]%nat
           (solve_ads_restricted_linear_problem one_exclusive_in_first_slot
              split_oracle ads_visit).2).
  vm_compute. reflexivity.
Defined.

(** ** The exclusion rows of the restricted program *)

Lemma exclusion_row_slices (a s z : nat) (m : Q) :
  slice_assign (s + a) (s + a + s) (replicate s (1 + m))
    (slice_assign a (a + 2 * s) (replicate (2 * s) 1) (replicate (a + (2 * s + z)) 0))
  = replicate a 0 ++ replicate s 1 ++ replicate s (1 + m) ++ replicate z 0.
Proof.
  unfold slice_assign. rewrite !Nat.max_r by lia.
  rewrite take_replicate, drop_replicate.
  replace (Nat.min a (a + (2 * s + z))) with a by lia.
  replace (a + (2 * s + z) - (a + 2 * s))%nat with z by lia.
  replace (2 * s)%nat with (s + s)%nat by lia.
  rewrite replicate_add, <- !app_assoc.
  set (zeros := replicate a (0 : Q)). set (ones := replicate s (1 : Q)).
  assert (length zeros = a) as Hz by apply length_replicate.
  assert (length ones = s) as Ho by apply length_replicate.
  replace (s + a)%nat with (length zeros + length ones)%nat by lia.
  rewrite take_app_add, take_app_length.
  replace (length zeros + length ones + s)%nat
    with (length zeros + (length ones + length ones))%nat by lia.
  rewrite drop_app_add, drop_app_add.
  by rewrite drop_app_length, <- !app_assoc.
Qed.

Lemma res_exclusion_row_shape (n_cat slots c : nat) (m : Q) :
  (c < n_cat)%nat ->
  res_exclusion_rows n_cat slots m !! c
    = Some (replicate (2 * c * slots) 0 ++ replicate slots 1
              ++ replicate slots (1 + m)
              ++ replicate (2 * (n_cat - S c) * slots) 0).
Proof.
  intros Hc. unfold res_exclusion_rows.
  rewrite list_lookup_fmap, lookup_seq_lt by done. cbn [fmap option_fmap option_map].
  f_equal. change (0 + c)%nat with c.
  replace (2 * n_cat * slots)%nat
    with (c * (2 * slots) + (2 * slots + 2 * (n_cat - S c) * slots))%nat by nia.
  rewrite exclusion_row_slices.
  by replace (c * (2 * slots))%nat with (2 * c * slots)%nat by lia.
Qed.

Lemma dot_app (a b : list Q) (x : list Z) :
  dot (a ++ b) x == dot a (take (length a) x) + dot b (drop (length a) x).
Proof. unfold dot. by rewrite zip_with_app_l, Qsum_app. Qed.

Lemma dot_replicate (k : nat) (q : Q) (y : list Z) :
  dot (replicate k q) y == q * inject_Z (fold_right Z.add 0%Z (take k y)).
Proof.
  unfold dot. revert y. induction k as [|k IH]; intros y.
  - simpl. ring.
  - destruct y as [|v y]; simpl; [ring|].
    rewrite IH, inject_Z_plus. ring.
Qed.

Lemma Zsum_nonneg (l : list Z) :
  Forall (fun v => (0 <= v)%Z) l -> (0 <= fold_right Z.add 0 l)%Z.
Proof. induction 1 as [|v l Hv _ IH]; simpl; lia. Qed.

Lemma bin_total_nonneg (x : list Z) (slots c exclusive : nat) :
  Forall (fun v => (0 <= v)%Z) x -> (0 <= bin_total x slots c exclusive)%Z.
Proof. intros Hx. apply Zsum_nonneg. by apply Forall_take, Forall_drop. Qed.

(** What an exclusion row measures: the ads taken from the open bin of
    its category plus [1 + m] times those taken from the exclusive bin. *)
Lemma exclusion_row_meaning (n_cat slots c : nat) (m : Q) :
  (c < n_cat)%nat ->
  exists row,
    res_exclusion_rows n_cat slots m !! c = Some row
    /\ length row = (2 * n_cat * slots)%nat
    /\ forall x, dot row x == inject_Z (bin_total x slots c 0)
                               + (1 + m) * inject_Z (bin_total x slots c 1).
Proof.
  intros Hc. eexists. split; [by apply res_exclusion_row_shape|]. split.
  { rewrite !length_app, !length_replicate. nia. }
  intros x. rewrite !dot_app, !dot_replicate, !length_replicate.
  rewrite !take_take, !Nat.min_id, !drop_drop. unfold bin_total.
  replace ((2 * c + 0) * slots)%nat with (2 * c * slots)%nat by lia.
  replace ((2 * c + 1) * slots)%nat with (2 * c * slots + slots)%nat by lia.
  ring.
Qed.

Lemma res_mapM_lookup {A B} (f : A -> res B) (l : list A) (ys : list B) (i : nat) (x : A) :
  res_mapM f l = Ok ys -> l !! i = Some x ->
  exists y, ys !! i = Some y /\ f x = Ok y.
Proof.
  revert ys i. induction l as [|z l IH]; intros ys i Hrun Hi; [done|].
  simpl in Hrun. destruct (f z) as [y|e] eqn:Hz; [|done]. simpl in Hrun.
  destruct (res_mapM f l) as [ys'|e]; [|done]. simpl in Hrun. injection Hrun as <-.
  destruct i as [|i]; simpl in *.
  - injection Hi as <-. eauto.
  - by apply IH.
Qed.

Lemma init_restricted_rows (args : init_args) (self : NewsLearner) (w : list warning) :
  init args = Ok (self, w) -> restricted_rows_built self.
Proof.
  unfold init.
  destruct (sum_of_bounds 0 _) as [t|]; simpl; [|done].
  destruct (Qltb _ t); [done|].
  destruct (fit_bounds _ _) as [[fitted w']|]; simpl; [|done].
  destruct (check_prominences _) as [[]|]; simpl; [|done].
  intros [= <- <-]. by split.
Qed.

(** X13. The restricted program that the code builds does exclude
    competitors. The constructor leaves the learner with the rows and
    right-hand sides of the program, and for a learner that has them,
    every feasible point of the program built for one coefficient per
    variable takes, in each category, at most one ad from the exclusive
    bin, and none from the open bin when it takes one from the exclusive
    bin. *)
Theorem restricted_program_excludes_competitors :
  (forall args self w, init args = Ok (self, w) -> restricted_rows_built self)
  /\ (forall self res_C problem x c,
        restricted_rows_built self ->
        length res_C = (2 * length (categories self) * ads_slots self)%nat ->
        restricted_problem self res_C = Ok problem ->
        feasible problem x ->
        (c < length (categories self))%nat ->
        (bin_total x (ads_slots self) c 1 <= 1)%Z
        /\ (bin_total x (ads_slots self) c 1 = 1%Z ->
            bin_total x (ads_slots self) c 0 = 0%Z)).
Proof.
  split; [apply init_restricted_rows|].
  intros self res_C problem x c [HA HB] Hwidth Hrun (_ & Hbox & Hrows) Hc.
  set (n := length (categories self)) in *. set (s := ads_slots self) in *.
  unfold restricted_problem in Hrun. fold n s in Hrun.
  destruct (res_mapM _ (seq 0 s)) as [slot_rows|e]; [|done].
  cbn [mbind res_bind] in Hrun.
  destruct (res_mapM _ (seq s (2 * n))) as [bin_rows|e]; [|done].
  cbn [mbind res_bind] in Hrun.
  destruct (res_mapM _ (seq (s + 2 * n) n)) as [exclusion_rows|e] eqn:Hex; [|done].
  cbn [mbind res_bind] in Hrun. injection Hrun as <-.
  cbn [constraints upper_bound] in *.
  apply Forall_app in Hrows as [_ Hrows]. apply Forall_app in Hrows as [_ Hrows].
  destruct (res_mapM_lookup _ _ _ c (s + 2 * n + c)%nat Hex) as (rb & Hrb & Hplain).
  { by apply lookup_seq_lt. }
  eapply Forall_lookup_1 in Hrows; [|exact Hrb].
  destruct (exclusion_row_meaning n s c big_M Hc) as (row & Hrow & Hlen & Hdot).
  assert (res_A self !! (s + 2 * n + c)%nat = Some row) as HrowA.
  { rewrite HA. rewrite lookup_app_r; unfold res_slot_rows; rewrite length_map, length_seq;
      [|lia].
    rewrite lookup_app_r; unfold res_bin_rows; rewrite length_map, length_seq; [|lia].
    rewrite <- Hrow. f_equal. lia. }
  assert (res_B self !! (s + 2 * n + c)%nat = Some (1 + big_M)) as HrowB.
  { rewrite HB. rewrite lookup_app_r; rewrite length_replicate; [|lia].
    rewrite lookup_app_r; rewrite length_replicate; [|lia].
    apply lookup_replicate. split; [done | lia]. }
  unfold getitem, cut_row in Hplain. rewrite HrowA, HrowB in Hplain.
  cbn [from_option mbind res_bind] in Hplain.
  assert ((length res_C <=? length row)%nat = true) as Hfits
    by (apply Nat.leb_le; lia).
  rewrite Hfits in Hplain. cbn [mbind res_bind] in Hplain.
  rewrite take_ge in Hplain by lia. injection Hplain as <-.
  cbn [fst snd] in Hrows. rewrite Hdot in Hrows.
  assert (Forall (fun v => (0 <= v)%Z) x) as Hpos.
  { eapply Forall_impl; [exact Hbox|]. simpl. lia. }
  pose proof (bin_total_nonneg x s c 0 Hpos) as Hopen.
  pose proof (bin_total_nonneg x s c 1 Hpos) as Hexcl.
  assert (bin_total x s c 0 + 1001 * bin_total x s c 1 <= 1001)%Z as Hsum.
  { rewrite Zle_Qle, inject_Z_plus, inject_Z_mult.
    change (inject_Z 1001) with (1001 # 1). unfold big_M in Hrows. lra. }
  lia.
Qed.

Lemma restricted_program_excludes_competitors_witness :
  restricted_rows_built (learner_of args_ads)
  /\ (bin_total [0; 0; 1; 0]%Z (ads_slots (learner ads_visit)) 0 1 <= 1)%Z
  /\ (bin_total [0; 0; 1; 0]%Z (ads_slots (learner ads_visit)) 0 1 = 1%Z ->
      bin_total [0; 0; 1; 0]%Z (ads_slots (learner ads_visit)) 0 0 = 0%Z).
Proof.
  split.
  { apply (proj1 restricted_program_excludes_competitors args_ads _ []). reflexivity. }
  apply (proj2 restricted_program_excludes_competitors (learner ads_visit)
           (objective exclusion_problem) exclusion_problem [0; 0; 1; 0]%Z 0%nat).
  - split; reflexivity.
  - reflexivity.
  - vm_compute. reflexivity.
  - apply feasible_feasibleb. vm_compute. reflexivity.
  - vm_compute. lia.
Defined.

(** ** The capacity rows of the restricted program *)

Lemma res_bin_row_shape (n_cat slots b : nat) :
  (b < 2 * n_cat)%nat ->
  res_bin_rows n_cat slots !! b
    = Some (replicate (b * slots) 0 ++ replicate slots 1
              ++ replicate ((2 * n_cat - S b) * slots) 0).
Proof.
  intros Hb. unfold res_bin_rows.
  rewrite list_lookup_fmap, lookup_seq_lt by done. cbn [fmap option_fmap option_map].
  f_equal. change (0 + b)%nat with b. unfold slice_assign.
  rewrite Nat.max_r by lia. rewrite take_replicate, drop_replicate.
  f_equal; [f_equal; nia|]. f_equal. f_equal. nia.
Qed.

Lemma bin_row_meaning (n_cat slots c exclusive : nat) :
  (c < n_cat)%nat -> (exclusive < 2)%nat ->
  exists row,
    res_bin_rows n_cat slots !! (2 * c + exclusive)%nat = Some row
    /\ length row = (2 * n_cat * slots)%nat
    /\ forall x, dot row x == inject_Z (bin_total x slots c exclusive).
Proof.
  intros Hc Hex. eexists. split; [apply res_bin_row_shape; lia|]. split.
  { rewrite !length_app, !length_replicate. nia. }
  intros x. rewrite !dot_app, !dot_replicate, !length_replicate.
  rewrite !take_take, !Nat.min_id. unfold bin_total. ring.
Qed.

(** X14. For a learner with the rows of the constructor, no feasible
    point of the restricted program takes more ads from a bin than the
    bin holds: the capacity of each bin is the number of ad slots, cut
    down to the length of the bin when the program is built. *)
Theorem restricted_program_respects_bins
    (self : NewsLearner) (res_C : list Q) (problem : ilp) (x : list Z)
    (c : nat) (open exclusive : list ref) :
  restricted_rows_built self ->
  length res_C = (2 * length (categories self) * ads_slots self)%nat ->
  restricted_problem self res_C = Ok problem ->
  feasible problem x ->
  (c < length (categories self))%nat ->
  ads_per_category self !! c = Some (open, exclusive) ->
  (bin_total x (ads_slots self) c 0 <= Z.of_nat (length open))%Z
  /\ (bin_total x (ads_slots self) c 1 <= Z.of_nat (length exclusive))%Z.
Proof.
  intros [HA HB] Hwidth Hrun (_ & _ & Hrows) Hc Hbins.
  set (n := length (categories self)) in *. set (s := ads_slots self) in *.
  unfold restricted_problem in Hrun. fold n s in Hrun.
  destruct (res_mapM _ (seq 0 s)) as [slot_rows|e]; [|done].
  cbn [mbind res_bind] in Hrun.
  destruct (res_mapM _ (seq s (2 * n))) as [bin_rows|e] eqn:Hbin; [|done].
  cbn [mbind res_bind] in Hrun.
  destruct (res_mapM _ (seq (s + 2 * n) n)) as [exclusion_rows|e]; [|done].
  cbn [mbind res_bind] in Hrun. injection Hrun as <-.
  cbn [constraints] in Hrows.
  apply Forall_app in Hrows as [_ Hrows]. apply Forall_app in Hrows as [Hrows _].
  assert (forall ex, (ex < 2)%nat ->
            bin_total x s c ex
              <= Z.of_nat (length (if (ex =? 0)%nat then open else exclusive)))%Z as Hcap.
  { intros ex Hex.
    destruct (res_mapM_lookup _ _ _ (2 * c + ex)%nat (s + (2 * c + ex))%nat Hbin)
      as (rb & Hrb & Hcapped).
    { apply lookup_seq_lt. lia. }
    eapply Forall_lookup_1 in Hrows; [|exact Hrb].
    destruct (bin_row_meaning n s c ex Hc Hex) as (row & Hrow & Hlen & Hdot).
    assert (res_A self !! (s + (2 * c + ex))%nat = Some row) as HrowA.
    { rewrite HA. rewrite lookup_app_r; unfold res_slot_rows; rewrite length_map, length_seq;
        [|lia].
      rewrite lookup_app_l by (unfold res_bin_rows; rewrite length_map, length_seq; lia).
      rewrite <- Hrow. f_equal. lia. }
    assert (res_B self !! (s + (2 * c + ex))%nat = Some (inject_Z (Z.of_nat s))) as HrowB.
    { rewrite HB. rewrite lookup_app_r; rewrite length_replicate; [|lia].
      rewrite lookup_app_l by (rewrite length_replicate; lia).
      apply lookup_replicate. split; [done | lia]. }
    assert ((s + (2 * c + ex) - s) / 2 = c)%nat as Hdiv.
    { replace (s + (2 * c + ex) - s)%nat with (ex + c * 2)%nat by lia.
      rewrite Nat.div_add by lia. rewrite Nat.div_small by lia. lia. }
    assert ((s + (2 * c + ex) - s) mod 2 = ex)%nat as Hmod.
    { replace (s + (2 * c + ex) - s)%nat with (ex + c * 2)%nat by lia.
      rewrite Nat.Div0.mod_add. by apply Nat.mod_small. }
    unfold bin_size, getitem, cut_row in Hcapped.
    rewrite HrowA, HrowB, Hdiv, Hmod, Hbins in Hcapped.
    cbn [from_option mbind res_bind] in Hcapped.
    assert ((length res_C <=? length row)%nat = true) as Hfits
      by (apply Nat.leb_le; lia).
    rewrite Hfits in Hcapped. cbn [mbind res_bind fst snd] in Hcapped.
    rewrite take_ge in Hcapped by lia. injection Hcapped as <-.
    cbn [fst snd] in Hrows. rewrite Hdot in Hrows.
    destruct (Qltb _ _) eqn:Hlt.
    - by rewrite Zle_Qle.
    - apply Qltb_ge in Hlt. rewrite Zle_Qle. lra. }
  split; [exact (Hcap 0%nat ltac:(lia)) | exact (Hcap 1%nat ltac:(lia))].
Qed.

Lemma restricted_program_respects_bins_witness :
  (bin_total [0; 0; 1; 0]%Z (ads_slots (learner ads_visit)) 0 0
   <= Z.of_nat (length (@nil ref)))%Z
  /\ (bin_total [0; 0; 1; 0]%Z (ads_slots (learner ads_visit)) 0 1
      <= Z.of_nat (length [0; 1]%nat))%Z.
Proof.
  apply (restricted_program_respects_bins (learner ads_visit)
           (objective exclusion_problem) exclusion_problem [0; 0; 1; 0]%Z 0%nat
           [] [0; 1]%nat).
  - split; reflexivity.
  - reflexivity.
  - vm_compute. reflexivity.
  - apply feasible_feasibleb. vm_compute. reflexivity.
  - vm_compute. lia.
  - reflexivity.
Defined.

(** ** The reading of a fractional solution *)

Lemma strided_lookup {A} (fuel i stride : nat) (l : list A) (k : nat) :
  (k < fuel)%nat -> strided fuel i stride l !! k = l !! (i + k * stride)%nat.
Proof.
  revert i k. induction fuel as [|fuel IH]; intros i k Hk; [lia|].
  simpl. destruct (l !! i) as [x|] eqn:Hi.
  - destruct k as [|k]; simpl.
    + by rewrite Nat.add_0_r.
    + rewrite IH by lia. f_equal. lia.
  - simpl. symmetry. apply lookup_ge_None. apply lookup_ge_None in Hi. lia.
Qed.

Lemma strided_length_le {A} (fuel i stride : nat) (l : list A) :
  (length (strided fuel i stride l) <= fuel)%nat.
Proof.
  revert i. induction fuel as [|fuel IH]; intros i; simpl; [lia|].
  destruct (l !! i); simpl; [|lia]. specialize (IH (i + stride)%nat). lia.
Qed.

Lemma strided_column {A} (slots m i : nat) (l : list A) :
  length l = (m * slots)%nat -> (i < slots)%nat ->
  length (strided (length l) i slots l) = m
  /\ forall k, (k < m)%nat -> strided (length l) i slots l !! k = l !! (k * slots + i)%nat.
Proof.
  intros Hlen Hi.
  assert (forall k, (k < m)%nat ->
            strided (length l) i slots l !! k = l !! (k * slots + i)%nat) as Hlook.
  { intros k Hk. rewrite strided_lookup by nia. f_equal. lia. }
  split; [|done].
  destruct (decide (m = 0)%nat) as [->|Hm].
  { pose proof (strided_length_le (length l) i slots l). lia. }
  apply Nat.le_antisymm.
  - apply Nat.nlt_ge. intros Hlong.
    destruct (lookup_lt_is_Some_2 (strided (length l) i slots l) m Hlong) as [x Hx].
    pose proof (strided_length_le (length l) i slots l) as Hfuel.
    rewrite strided_lookup in Hx by lia.
    apply lookup_lt_Some in Hx. nia.
  - destruct (lookup_lt_is_Some_2 l ((m - 1) * slots + i)) as [x Hx]; [nia|].
    rewrite <- Hlook in Hx by lia. apply lookup_lt_Some in Hx. lia.
Qed.

Lemma solution_columns (slots m : nat) (x : list Q) :
  length x = (m * slots)%nat ->
  length (slots_assegnation_probabilities slots x) = slots
  /\ Forall (fun v => length v = m) (slots_assegnation_probabilities slots x)
  /\ (forall i k v,
        slots_assegnation_probabilities slots x !! i = Some v -> (k < m)%nat ->
        v !! k = Qabs <$> x !! (k * slots + i)%nat)
  /\ (Forall (fun q => Qabs q <= 1) x ->
      Forall (Forall weight_ok) (slots_assegnation_probabilities slots x)).
Proof.
  intros Hlen. unfold slots_assegnation_probabilities.
  split; [by rewrite length_map, length_seq|].
  assert (forall i v,
            map (fun c => map Qabs (strided (length x) c slots x)) (seq 0 slots) !! i
              = Some v ->
            (i < slots)%nat /\ v = map Qabs (strided (length x) i slots x)) as Hcol.
  { intros i v Hv. change (map ?f ?l) with (f <$> l) in Hv.
    rewrite list_lookup_fmap in Hv.
    destruct (seq 0 slots !! i) as [c|] eqn:Hc; [|done].
    apply lookup_seq in Hc as [-> Hi]. simpl in Hv. injection Hv as <-. done. }
  split; [|split].
  - apply Forall_lookup_2. intros i v Hv. apply Hcol in Hv as [Hi ->].
    rewrite length_map. by apply (strided_column slots m i x).
  - intros i k v Hv Hk. apply Hcol in Hv as [Hi ->].
    change (map Qabs ?l) with (Qabs <$> l). rewrite list_lookup_fmap.
    f_equal. by apply (proj2 (strided_column slots m i x Hlen Hi)).
  - intros Hsmall. apply Forall_lookup_2. intros i v Hv. apply Hcol in Hv as [Hi ->].
    apply Forall_lookup_2. intros k q Hq.
    change (map Qabs ?l) with (Qabs <$> l) in Hq. rewrite list_lookup_fmap in Hq.
    destruct (strided (length x) i slots x !! k) as [y|] eqn:Hy; [|done].
    simpl in Hq. injection Hq as <-.
    assert (y ∈ x) as Hin.
    { assert (k < length (strided (length x) i slots x))%nat as Hk
        by (by eapply lookup_lt_Some).
      rewrite strided_lookup in Hy.
      - by eapply list_elem_of_lookup_2.
      - pose proof (strided_length_le (length x) i slots x). lia. }
    eapply Forall_forall in Hsmall; [|exact Hin]. split; [apply Qabs_nonneg | done].
Qed.

(** X15. A solution with [m * L] entries is read as a table of [m] rows,
    one per candidate, and [L] columns, one per slot: the reading yields
    [L] vectors of [m] weights each, and the weight of candidate [k] for
    slot [i] is the absolute value of entry [k * L + i]. Entries of
    absolute value at most one give weights in [[0,1]], as the
    de-randomization expects them. *)
Theorem solution_is_read_by_slot (slots m : nat) (x : list Q) :
  length x = (m * slots)%nat ->
  length (slots_assegnation_probabilities slots x) = slots
  /\ Forall (fun v => length v = m) (slots_assegnation_probabilities slots x)
  /\ (forall i k v,
        slots_assegnation_probabilities slots x !! i = Some v -> (k < m)%nat ->
        v !! k = Qabs <$> x !! (k * slots + i)%nat)
  /\ (Forall (fun q => Qabs q <= 1) x ->
      Forall (Forall weight_ok) (slots_assegnation_probabilities slots x)).
Proof.
  intros Hlen.
  destruct (solution_columns slots m x Hlen) as (Hcount & Hrows & Hentry & Hweights).
  split; [exact Hcount|]. split; [exact Hrows|]. split; [exact Hentry | exact Hweights].
Qed.

Lemma solution_is_read_by_slot_witness :
  length (slots_assegnation_probabilities 2 [1 # 2; - (1 # 2); 1 # 4; 3 # 4]) = 2%nat
  /\ Forall (fun v => length v = 2%nat)
       (slots_assegnation_probabilities 2 [1 # 2; - (1 # 2); 1 # 4; 3 # 4])
  /\ (forall i k v,
        slots_assegnation_probabilities 2 [1 # 2; - (1 # 2); 1 # 4; 3 # 4] !! i = Some v ->
        (k < 2)%nat ->
        v !! k = Qabs <$> [1 # 2; - (1 # 2); 1 # 4; 3 # 4] !! (k * 2 + i)%nat)
  /\ (Forall (fun q => Qabs q <= 1) [1 # 2; - (1 # 2); 1 # 4; 3 # 4] ->
      Forall (Forall weight_ok)
        (slots_assegnation_probabilities 2 [1 # 2; - (1 # 2); 1 # 4; 3 # 4])).
Proof.
  apply (solution_is_read_by_slot 2 2 [1 # 2; - (1 # 2); 1 # 4; 3 # 4]).
  reflexivity.
Defined.

(** ** The rows of the news program *)

Lemma Qdot_app (a b x : list Q) :
  Qdot (a ++ b) x == Qdot a (take (length a) x) + Qdot b (drop (length a) x).
Proof. unfold Qdot. by rewrite zip_with_app_l, Qsum_app. Qed.

Lemma Qdot_zeros (k : nat) (y : list Q) : Qdot (replicate k 0) y == 0.
Proof.
  unfold Qdot. revert y. induction k as [|k IH]; intros y; [done|].
  destruct y as [|v y]; simpl; [done|]. rewrite IH. ring.
Qed.

Lemma Qdot_negated (p : list Q) (k : nat) (y : list Q) :
  (length p <= k)%nat ->
  Qdot (zip_with Qmult p (replicate k (-1))) y == - Qdot p y.
Proof.
  unfold Qdot. revert k y. induction p as [|a p IH]; intros k y Hk; [done|].
  destruct k as [|k]; [simpl in Hk; lia|].
  destruct y as [|v y]; simpl; [done|].
  rewrite IH by (simpl in Hk; lia). ring.
Qed.

Lemma length_concat_replicate {A} (k : nat) (l : list A) :
  length (concat (replicate k l)) = (k * length l)%nat.
Proof. induction k as [|k IH]; simpl; [done|]. rewrite length_app, IH. lia. Qed.

Lemma stride_fill_length {A} (fuel t stride : nat) (x : A) (row : list A) :
  length (stride_fill fuel t stride x row) = length row.
Proof.
  revert t row. induction fuel as [|fuel IH]; intros t row; simpl; [done|].
  destruct (decide (t < length row)%nat); [|done].
  by rewrite IH, length_insert.
Qed.

Lemma news_category_row_shape (n_cat : nat) (proms : list Q) (c : nat) :
  (c < n_cat)%nat ->
  news_category_rows n_cat proms !! c
    = Some (replicate (c * (length proms * length proms)) 0
              ++ zip_with Qmult (concat (replicate (length proms) proms))
                   (replicate (length proms * length proms) (-1))
              ++ replicate ((n_cat - S c) * (length proms * length proms)) 0).
Proof.
  intros Hc. unfold news_category_rows.
  change (map ?f ?l) with (f <$> l).
  rewrite list_lookup_fmap, lookup_seq_lt by done. cbn [fmap option_fmap option_map].
  f_equal. change (0 + c)%nat with c. unfold slice_assign.
  set (sq := (length proms * length proms)%nat).
  rewrite take_replicate, drop_replicate.
  f_equal; [f_equal; nia|]. f_equal. f_equal. nia.
Qed.

Lemma init_news_program (args : init_args) (self : NewsLearner) (w : list warning) :
  init args = Ok (self, w) ->
  layout_slots self = length (real_slot_promenances self)
  /\ length (diversity_bounds self) = length (categories self)
  /\ B self = map Qopp (diversity_bounds self)
                ++ replicate (layout_slots self
                              + length (categories self) * layout_slots self) 1.
Proof.
  intros Hinit. pose proof (init_diversity_bounds args self w Hinit) as Hfit.
  apply fit_bounds_length in Hfit as Hlen.
  revert Hinit Hfit Hlen. unfold init.
  destruct (sum_of_bounds 0 _) as [t|]; simpl; [|done].
  destruct (Qltb _ t); [done|].
  destruct (fit_bounds _ _) as [[fitted w']|]; simpl; [|done].
  destruct (check_prominences _) as [[]|]; simpl; [|done].
  intros [= <- <-] Hfit Hlen. injection Hfit as Hfit. cbn [categories] in Hlen.
  split; [done|]. split; [done|].
  cbn [B layout_slots categories]. by rewrite <- Hfit.
Qed.

(** X16. The news program of the "LP" approach is well formed and its
    category rows say what the diversity bounds ask. The matrix [A] has
    one row per category, per slot and per candidate, n + L + n*L in all,
    each with one coefficient for each of the n*L*L variables, as many as
    [lambdas] has entries; after construction [B] has one right-hand side
    per row. The product of the row of a category with a point is minus
    the prominence that the point gives to the candidates of the
    category, so the row holds exactly when that prominence reaches the
    diversity bound of the category. *)
Theorem news_program_rows :
  (forall n_cat proms,
      length (news_A n_cat proms)
        = (n_cat + length proms + n_cat * length proms)%nat
      /\ Forall (fun row => length row = (n_cat * length proms * length proms)%nat)
           (news_A n_cat proms)
      /\ length (news_lambdas n_cat proms) = (n_cat * length proms * length proms)%nat
      /\ forall c row x,
           (c < n_cat)%nat -> news_A n_cat proms !! c = Some row ->
           Qdot row x == - category_promenance proms c x)
  /\ (forall args self w,
        init args = Ok (self, w) ->
        length (B self)
          = length (news_A (length (categories self)) (real_slot_promenances self))
        /\ forall c row b bound x,
             (c < length (categories self))%nat ->
             news_A (length (categories self)) (real_slot_promenances self) !! c
               = Some row ->
             B self !! c = Some b ->
             diversity_bounds self !! c = Some bound ->
             (Qdot row x <= b
              <-> bound <= category_promenance (real_slot_promenances self) c x)).
Proof.
  assert (forall n_cat proms c row x,
            (c < n_cat)%nat -> news_A n_cat proms !! c = Some row ->
            Qdot row x == - category_promenance proms c x) as Hmeaning.
  { intros n_cat proms c row x Hc Hrow. unfold news_A in Hrow.
    rewrite lookup_app_l in Hrow
      by (unfold news_category_rows; rewrite length_map, length_seq; lia).
    rewrite news_category_row_shape in Hrow by done. injection Hrow as <-.
    rewrite !Qdot_app, !Qdot_zeros, length_replicate.
    rewrite Qdot_negated by (rewrite length_concat_replicate; lia).
    unfold category_promenance.
    rewrite length_zip_with, length_concat_replicate, length_replicate, Nat.min_id.
    ring. }
  assert (forall n_cat proms,
            length (news_A n_cat proms)
              = (n_cat + length proms + n_cat * length proms)%nat) as Hrows.
  { intros n_cat proms.
    unfold news_A, news_category_rows, news_slot_rows, news_variable_rows.
    rewrite !length_app, !length_map, !length_seq. lia. }
  split.
  - intros n_cat proms. split; [apply Hrows|]. split; [|split; [|by apply Hmeaning]].
    + unfold news_A. rewrite !Forall_app. split; [|split].
      * apply Forall_lookup_2. intros c row Hrow.
        assert (c < n_cat)%nat as Hc.
        { apply lookup_lt_Some in Hrow. unfold news_category_rows in Hrow.
          by rewrite length_map, length_seq in Hrow. }
        rewrite news_category_row_shape in Hrow by done. injection Hrow as <-.
        rewrite !length_app, length_zip_with, length_concat_replicate, !length_replicate.
        nia.
      * unfold news_slot_rows. apply Forall_forall. intros row Hrow.
        apply list_elem_of_fmap in Hrow as (i & -> & _).
        by rewrite stride_fill_length, length_replicate.
      * unfold news_variable_rows. apply Forall_forall. intros row Hrow.
        apply list_elem_of_fmap in Hrow as (k & -> & Hk). apply elem_of_seq in Hk.
        unfold slice_assign.
        rewrite !length_app, length_take, length_drop, !length_replicate. nia.
    + unfold news_lambdas. rewrite length_concat_replicate, length_map. lia.
  - intros args self w Hinit.
    destruct (init_news_program args self w Hinit) as (Hslots & Hbounds & HB).
    split.
    + rewrite Hrows, HB, length_app, length_map, length_replicate, Hbounds, Hslots. lia.
    + intros c row b bound x Hc Hrow Hb Hbound.
      rewrite (Hmeaning _ _ c row x Hc Hrow).
      rewrite HB in Hb. rewrite lookup_app_l in Hb by (rewrite length_map; lia).
      change (map Qopp ?l) with (Qopp <$> l) in Hb.
      rewrite list_lookup_fmap, Hbound in Hb. injection Hb as <-.
      split; intros Hle; lra.
Qed.

Lemma news_program_rows_witness :
  length (B (learner_of (args_two_slots "LP")))
    = length (news_A (length (categories (learner_of (args_two_slots "LP"))))
                (real_slot_promenances (learner_of (args_two_slots "LP"))))
  /\ forall c row b bound x,
       (c < length (categories (learner_of (args_two_slots "LP"))))%nat ->
       news_A (length (categories (learner_of (args_two_slots "LP"))))
         (real_slot_promenances (learner_of (args_two_slots "LP"))) !! c = Some row ->
       B (learner_of (args_two_slots "LP")) !! c = Some b ->
       diversity_bounds (learner_of (args_two_slots "LP")) !! c = Some bound ->
       (Qdot row x <= b
        <-> bound <= category_promenance
                       (real_slot_promenances (learner_of (args_two_slots "LP"))) c x).
Proof.
  apply (proj2 news_program_rows (args_two_slots "LP")
           (learner_of (args_two_slots "LP")) []).
  reflexivity.
Defined.

(** ** The counts of the "full" approach *)

Lemma sum_insert_succ (l : list nat) (i k : nat) :
  l !! i = Some k ->
  fold_right Nat.add 0%nat (<[i := S k]> l) = S (fold_right Nat.add 0%nat l).
Proof.
  revert i. induction l as [|x l IH]; intros i Hi; [done|].
  destruct i as [|i]; simpl in *.
  - by injection Hi as ->.
  - rewrite (IH i Hi). lia.
Qed.

Lemma count_per_category_spec (h : Store) (cats : list string) (pool : list ref)
    (counts : list nat) :
  Forall (known_category h cats) pool ->
  (length cats <= length counts)%nat ->
  exists counts',
    count_per_category h cats pool counts = (Ok tt, counts')
    /\ length counts' = length counts
    /\ (forall c k, counts !! c = Some k ->
                    counts' !! c = Some (k + census h cats c pool)%nat)
    /\ fold_right Nat.add 0%nat counts'
       = (fold_right Nat.add 0%nat counts + length pool)%nat.
Proof.
  intros Hall. revert counts.
  induction Hall as [|r pool Hr _ IH]; intros counts Hlen.
  - exists counts. split; [done|]. split; [done|]. split.
    + intros c k Hc. unfold census. rewrite filter_nil. simpl. by rewrite Nat.add_0_r.
    + simpl. lia.
  - destruct (index_of_known _ _ Hr) as [i Hi].
    pose proof (index_of_lt _ _ _ _ Hi) as Hlt.
    destruct (lookup_lt_is_Some_2 counts i) as [k0 Hk0]; [lia|].
    cbn [count_per_category]. rewrite Hi, Hk0.
    destruct (IH (<[i := S k0]> counts)) as (final & -> & Hflen & Hfinal & Hsum).
    { by rewrite length_insert. }
    exists final. split; [done|]. rewrite Hflen, length_insert. split; [done|]. split.
    + intros c k Hc. unfold census.
      destruct (decide (c = i)) as [->|Hne].
      * rewrite Hk0 in Hc. injection Hc as <-.
        rewrite filter_cons_True by done. cbn [length].
        rewrite (Hfinal i (S k0)) by (apply list_lookup_insert_eq; lia).
        f_equal. unfold census. lia.
      * rewrite filter_cons_False by congruence.
        rewrite (Hfinal c k) by (by rewrite list_lookup_insert_ne). done.
    + rewrite Hsum, (sum_insert_succ counts i k0 Hk0). cbn [length]. lia.
Qed.

Lemma fill_news_pool_full_spec
    (fuel : nat) (h : Store) (self : NewsLearner) (news_list : list content)
    (append : bool) :
  let grown := if append then news_pool self ++ references news_list
               else references news_list in
  allocation_approach self = "full" ->
  (length (categories self) <= length (news_per_category self))%nat ->
  Forall (acceptable_news h (categories self)) news_list ->
  Forall (known_category h (categories self)) grown ->
  exists self',
    fill_news_pool fuel h self (a_list news_list) append = Some (Ok tt, self')
    /\ news_pool self' ≡ₚ grown
    /\ (forall c k, news_per_category self !! c = Some k ->
          news_per_category self' !! c
            = Some (k + census h (categories self) c grown)%nat)
    /\ fold_right Nat.add 0%nat (news_per_category self')
       = (fold_right Nat.add 0%nat (news_per_category self) + length grown)%nat
    /\ length (full_lambdas self')
       = (length (full_lambdas self)
          + (fold_right Nat.add 0%nat (news_per_category self) + length grown)
            * length (real_slot_promenances self))%nat.
Proof.
  intros grown Hfull Hlen Hok Hknown. rewrite fill_news_pool_a_list.
  unfold recount_and_grow.
  rewrite (validate_news_list_accepts _ _ _ Hok).
  apply String.eqb_eq in Hfull.
  change (allocation_approach (with_news_pool _ self)) with (allocation_approach self).
  rewrite Hfull.
  destruct (count_per_category_spec h (categories self) grown (news_per_category self)
              Hknown Hlen) as (counts & Hcount & _ & Hcounts & Hsum).
  change (categories (with_news_pool _ self)) with (categories self).
  change (news_pool (with_news_pool ?p self)) with p.
  change (news_per_category (with_news_pool _ self)) with (news_per_category self).
  fold grown. rewrite Hcount.
  eexists. split; [reflexivity|]. split; [|split; [|split]].
  - cbn [grow_full_problem news_pool with_full_problem with_news_pool
         with_news_per_category]. apply py_sort_perm.
  - exact Hcounts.
  - exact Hsum.
  - unfold grow_full_problem.
    cbn [full_lambdas with_full_problem with_news_pool with_news_per_category
         news_per_category real_slot_promenances layout_slots].
    rewrite length_app, length_concat_replicate, length_map, Hsum. done.
Qed.

(** X17. Under the "full" approach every accepted call of
    [fill_news_pool] counts the whole pool again: the count of each
    category grows by the number of items of that category in the pool as
    it is after the call, whatever the counts were before, so that their
    sum grows by the size of that pool, and [full_lambdas] grows by one
    entry per slot and counted item. The counts are the census of the
    pool after the first call on a new learner only. *)
Theorem full_counts_accumulate
    (fuel : nat) (h : Store) (self : NewsLearner) (news_list : list content)
    (append : bool) :
  let grown := if append then news_pool self ++ references news_list
               else references news_list in
  allocation_approach self = "full" ->
  (length (categories self) <= length (news_per_category self))%nat ->
  Forall (acceptable_news h (categories self)) news_list ->
  Forall (known_category h (categories self)) grown ->
  exists self',
    fill_news_pool fuel h self (a_list news_list) append = Some (Ok tt, self')
    /\ news_pool self' ≡ₚ grown
    /\ (forall c k, news_per_category self !! c = Some k ->
          news_per_category self' !! c
            = Some (k + census h (categories self) c grown)%nat)
    /\ fold_right Nat.add 0%nat (news_per_category self')
       = (fold_right Nat.add 0%nat (news_per_category self) + length grown)%nat
    /\ length (full_lambdas self')
       = (length (full_lambdas self)
          + (fold_right Nat.add 0%nat (news_per_category self) + length grown)
            * length (real_slot_promenances self))%nat.
Proof.
  intros grown Hfull Hlen Hok Hknown.
  destruct (fill_news_pool_full_spec fuel h self news_list append Hfull Hlen Hok Hknown)
    as (self' & Hrun & Hpool & Hcounts & Hsum & Hlambdas).
  exists self'. split; [exact Hrun|]. split; [exact Hpool|]. split; [exact Hcounts|].
  split; [exact Hsum | exact Hlambdas].
Qed.

Lemma full_counts_accumulate_witness :
  let once := learner_after
                (fill_news_pool 0 example_store (learner_of (args_two_slots "full"))
                   (a_list [ANews 2%nat; ANews 0%nat]) true) in
  news_pool once = [0; 2]%nat
  /\ exists twice,
       fill_news_pool 0 example_store once (a_list [ANews 1%nat]) true
         = Some (Ok tt, twice)
       /\ news_pool twice ≡ₚ [0; 2; 1]%nat
       /\ news_per_category twice !! 0%nat = Some 3%nat.
Proof.
  intros once. split; [vm_compute; reflexivity|].
  destruct (full_counts_accumulate 0 example_store once [ANews 1%nat] true)
    as (twice & Hrun & Hpool & Hcounts & _).
  - vm_compute. reflexivity.
  - vm_compute. lia.
  - apply (bool_decide_unpack _). vm_compute. exact I.
  - apply (bool_decide_unpack _). vm_compute. exact I.
  - exists twice. split; [exact Hrun|]. split; [exact Hpool|].
    apply (Hcounts 0%nat 1%nat). vm_compute. reflexivity.
Defined.

(** ** The page of the "full" approach *)

Lemma de_randomize_LP_pages (rng : oracle) (n : nat) (self : NewsLearner) (pool : list ref)
    (probs : list (list Q)) (tech : string) :
  oracle_ok rng ->
  layout_slots self = length (real_slot_promenances self) ->
  Forall (fun p => 0 < p) (real_slot_promenances self) ->
  (layout_slots self <= length pool)%nat ->
  length probs = layout_slots self ->
  Forall (fun v => length v = length pool /\ Forall weight_ok v) probs ->
  de_randomize_LP rng n self pool probs tech = Raise ValueError
  \/ exists positions n',
       de_randomize_LP rng n self pool probs tech
         = Ok ((fun i => pool !! i) <$> positions, n')
       /\ length positions = layout_slots self
       /\ NoDup positions
       /\ Forall (fun i => i < length pool)%nat positions.
Proof.
  intros Hrng Hslots Hproms Hpool Hprobs Hweights.
  pose proof (dr_invariant_initial n self pool probs Hslots Hproms Hpool Hprobs Hweights)
    as Hinv.
  unfold de_randomize_LP.
  destruct (de_randomize_loop_spec rng pool tech _ _ _ Hrng Hinv)
    as [-> | (st' & placed' & -> & Hinv' & Hlen')]; [by left|].
  cbn [mbind res_bind]. right.
  destruct Hinv' as [Hres _ Hfree _ _ _ _ _ Hnd Hplaced].
  apply free_slots_none in Hfree.
  exists (omap id placed'), (dr_draws st'). split; [|split; [|split]].
  - rewrite Hres. rewrite Hfree at 1. by rewrite <- list_fmap_compose.
  - rewrite length_replicate in Hlen'. rewrite <- Hlen'. rewrite Hfree at 2.
    by rewrite length_fmap.
  - done.
  - eapply Forall_impl; [exact Hplaced|]. by intros i [Hi _].
Qed.

(** X18. The "full" approach, end to end. Let [full_lambdas] have one
    entry per pooled item and slot, as after one call of [fill_news_pool]
    on a new learner, let the slot prominences be strictly positive and
    the pool hold at least L items, and let the solver return a point with
    one coordinate per coefficient, each of absolute value at most one.
    Then [__solve_full_linear_problem] either raises ValueError, when the
    weights left for a slot sum to zero, or returns a page of L items of
    the pool taken at L different positions. *)
Theorem full_approach_page
    (linprog : list (list Q) -> list Q -> list Q -> list Q)
    (rng : oracle) (st : Sys) :
  let self := learner st in
  oracle_ok rng ->
  layout_slots self = length (real_slot_promenances self) ->
  Forall (fun p => 0 < p) (real_slot_promenances self) ->
  (layout_slots self <= length (news_pool self))%nat ->
  length (full_lambdas self) = (length (news_pool self) * layout_slots self)%nat ->
  (forall A_ub b_ub c,
      length (linprog A_ub b_ub c) = length c
      /\ Forall (fun q => Qabs q <= 1) (linprog A_ub b_ub c)) ->
  (solve_full_linear_problem linprog rng st).1 = Raise ValueError
  \/ exists positions,
       (solve_full_linear_problem linprog rng st).1
         = Ok ((fun i => news_pool self !! i) <$> positions)
       /\ length positions = layout_slots self
       /\ NoDup positions
       /\ Forall (fun i => i < length (news_pool self))%nat positions.
Proof.
  intros self Hrng Hslots Hproms Hpool Hlambdas Hsolver.
  unfold solve_full_linear_problem. fold self.
  set (samples := concat (map _ (news_pool self))).
  assert (length samples = (length (news_pool self) * layout_slots self)%nat) as Hsamples.
  { unfold samples. clear. induction (news_pool self) as [|r pool IH]; [done|].
    cbn [map concat length]. rewrite length_app, length_replicate, IH. lia. }
  unfold np_mul. rewrite Hsamples, Hlambdas, Nat.eqb_refl.
  set (full_C := zip_with Qmult samples (full_lambdas self)).
  assert (length full_C = (length (news_pool self) * layout_slots self)%nat) as HC.
  { unfold full_C. rewrite length_zip_with. lia. }
  destruct (Hsolver (full_A self) (full_B self) full_C) as [Hx Hsmall].
  rewrite HC in Hx.
  destruct (solution_columns (layout_slots self) (length (news_pool self)) _ Hx)
    as (Hcols & Hrows & _ & Hweights).
  destruct (de_randomize_LP_pages rng (draws st) self (news_pool self)
              (slots_assegnation_probabilities (layout_slots self)
                 (linprog (full_A self) (full_B self) full_C))
              (lp_rand_tech self) Hrng Hslots Hproms Hpool Hcols)
    as [-> | (positions & n' & -> & Hlen & Hnd & Hrange)].
  - apply Forall_lookup_2. intros i v Hv. split.
    + by eapply Forall_lookup_1 in Hrows.
    + specialize (Hweights Hsmall). by eapply Forall_lookup_1 in Hweights.
  - by left.
  - right. by exists positions.
Qed.

Lemma full_approach_page_witness :
  (solve_full_linear_problem half_solver fair_oracle full_visit).1 = Raise ValueError
  \/ exists positions,
       (solve_full_linear_problem half_solver fair_oracle full_visit).1
         = Ok ((fun i => news_pool (learner full_visit) !! i) <$> positions)
       /\ length positions = layout_slots (learner full_visit)
       /\ NoDup positions
       /\ Forall (fun i => i < length (news_pool (learner full_visit)))%nat positions.
Proof.
  apply (full_approach_page half_solver fair_oracle full_visit).
  - intros k. unfold fair_oracle. split; [discriminate | reflexivity].
  - reflexivity.
  - vm_compute; repeat constructor.
  - vm_compute. lia.
  - reflexivity.
  - intros A_ub b_ub c. unfold half_solver. split; [apply length_map|].
    apply Forall_forall. intros q Hq. apply list_elem_of_fmap in Hq as (y & -> & _).
    discriminate.
Defined.

Lemma init_full_program (args : init_args) (self : NewsLearner) (w : list warning) :
  init args = Ok (self, w) ->
  news_pool self = []
  /\ full_lambdas self = []
  /\ news_per_category self = replicate (length (categories self)) 0%nat
  /\ layout_slots self = length (real_slot_promenances self)
  /\ allocation_approach self = arg_allocation_approach args.
Proof.
  unfold init.
  destruct (sum_of_bounds 0 _) as [t|]; simpl; [|done].
  destruct (Qltb _ t); [done|].
  destruct (fit_bounds _ _) as [[fitted w']|]; simpl; [|done].
  destruct (check_prominences _) as [[]|]; simpl; [|done].
  by intros [= <- <-].
Qed.

Lemma sum_replicate_zero (n : nat) : fold_right Nat.add 0%nat (replicate n 0%nat) = 0%nat.
Proof. induction n as [|n IH]; [done|]. simpl. exact IH. Qed.

Lemma np_mul_mismatch (a b : list Q) :
  length a <> length b -> length a <> 1%nat -> length b <> 1%nat ->
  np_mul a b = Raise ValueError.
Proof.
  intros Hne Ha Hb. unfold np_mul.
  apply Nat.eqb_neq in Hne. rewrite Hne.
  destruct a as [|x [|x' a]]; [| done |].
  - by destruct b as [|y [|y' b]].
  - by destruct b as [|y [|y' b]].
Qed.

Lemma count_per_category_length (h : Store) (cats : list string) (pool : list ref)
    (counts : list nat) :
  length (count_per_category h cats pool counts).2 = length counts.
Proof.
  revert counts. induction pool as [|r pool IH]; intros counts; simpl; [done|].
  destruct (index_of _ _ _) as [i|]; [|done].
  destruct (counts !! i); rewrite IH; [by rewrite length_insert | done].
Qed.

Lemma fill_news_pool_keeps (fuel : nat) (h : Store) (self self' : NewsLearner)
    (news_list : list content) (append : bool) (r : res unit) :
  fill_news_pool fuel h self (a_list news_list) append = Some (r, self') ->
  categories self' = categories self
  /\ allocation_approach self' = allocation_approach self
  /\ real_slot_promenances self' = real_slot_promenances self
  /\ layout_slots self' = layout_slots self
  /\ length (news_per_category self') = length (news_per_category self).
Proof.
  rewrite fill_news_pool_a_list. unfold recount_and_grow.
  destruct (validate_news_list _ _ _) as [refs|e]; [|by intros [= _ <-]].
  destruct (String.eqb _ "full"); [|by intros [= _ <-]].
  match goal with
  | |- context [count_per_category ?a ?b ?c ?d] =>
      pose proof (count_per_category_length a b c d) as Hlen;
      destruct (count_per_category a b c d) as [[[]|e] counts]
  end; intros [= _ <-]; simpl in *; by rewrite Hlen.
Qed.

(** X19. The "full" approach survives one filling of the pool only. On a
    learner just built for it, with at least one slot, a first accepted
    call of [fill_news_pool] with a non-empty list followed by a second
    accepted call, each with a list of the caller's own, leaves
    [full_lambdas] with three entries per slot for every item of the
    first list and one for every item of the second, which the qualities
    of the pool, one per slot and item, do not match. Unless the pool has
    then one item and the page one slot, so that the one quality is
    broadcast, [__solve_full_linear_problem] raises ValueError before the
    solver is called, whatever the solver and the draws. *)
Theorem full_approach_fails_after_a_second_fill
    (linprog : list (list Q) -> list Q -> list Q -> list Q) (rng : oracle)
    (fuel : nat) (h : Store) (args : init_args) (self : NewsLearner) (w : list warning)
    (first second : list content) (user : SyntheticUser) (n : nat) :
  init args = Ok (self, w) ->
  arg_allocation_approach args = "full" ->
  (0 < layout_slots self)%nat ->
  Forall (acceptable_news h (categories self)) first ->
  first <> [] ->
  Forall (acceptable_news h (categories self)) second ->
  exists once twice,
    fill_news_pool fuel h self (a_list first) true = Some (Ok tt, once)
    /\ fill_news_pool fuel h once (a_list second) true = Some (Ok tt, twice)
    /\ length (news_pool twice) = (length first + length second)%nat
    /\ length (full_lambdas twice)
       = ((3 * length first + length second) * layout_slots self)%nat
    /\ ((length first + length second) * layout_slots self <> 1 ->
        (solve_full_linear_problem linprog rng (mkSys twice h user n)).1
        = Raise ValueError)%nat.
Proof.
  intros Hinit Happroach Hslots Hfirst Hne Hsecond.
  destruct (init_full_program args self w Hinit) as (Hpool & Hlam & Hcounts & HL & Hfull).
  rewrite Happroach in Hfull.
  assert (length (references first) = length first) as Hk1
    by (unfold references; apply length_map).
  assert (length (references second) = length second) as Hk2
    by (unfold references; apply length_map).
  destruct (fill_news_pool_full_spec fuel h self first true)
    as (once & Hrun1 & Hperm1 & _ & Hsum1 & Hlam1); try done.
  { rewrite Hcounts, length_replicate. lia. }
  { rewrite Hpool. by apply references_known. }
  rewrite Hpool, Hcounts, sum_replicate_zero, app_nil_l in *.
  rewrite Hlam in Hlam1. cbn [length] in Hlam1. rewrite Hk1 in Hsum1, Hlam1.
  destruct (fill_news_pool_keeps fuel h self once first true _ Hrun1)
    as (Hcats1 & Happ1 & Hproms1 & HL1 & Hlen1).
  destruct (fill_news_pool_full_spec fuel h once second true)
    as (twice & Hrun2 & Hperm2 & _ & _ & Hlam2).
  { congruence. }
  { rewrite Hcats1, Hlen1, Hcounts, length_replicate. lia. }
  { by rewrite Hcats1. }
  { rewrite Hcats1. apply Forall_app. split; [|by apply references_known].
    rewrite Hperm1. by apply references_known. }
  destruct (fill_news_pool_keeps fuel h once twice second true _ Hrun2)
    as (_ & _ & _ & HL2 & _).
  assert (length (news_pool once) = length first) as Hp1
    by (by rewrite Hperm1, Hk1).
  assert (length (news_pool twice) = (length first + length second)%nat) as Hp2
    by (by rewrite Hperm2, length_app, Hp1, Hk2).
  assert (length (full_lambdas twice)
          = ((3 * length first + length second) * layout_slots self)%nat) as Hlam3.
  { rewrite Hlam2, Hlam1, Hsum1, length_app, Hp1, Hk2, Hproms1, <- HL. lia. }
  exists once, twice. split; [done|]. split; [done|]. split; [done|]. split; [done|].
  intros Hone.
  unfold solve_full_linear_problem. cbn [learner store].
  set (samples := concat (map _ (news_pool twice))).
  assert (length samples = ((length first + length second) * layout_slots self)%nat)
    as Hsamples.
  { unfold samples. rewrite <- Hp2, HL2, HL1. clear.
    induction (news_pool twice) as [|r pool IH]; [done|].
    cbn [map concat length]. rewrite length_app, length_replicate, IH. lia. }
  rewrite np_mul_mismatch; [done | | |].
  - rewrite Hsamples, Hlam3. destruct first; [done|]. simpl. nia.
  - by rewrite Hsamples.
  - rewrite Hlam3. destruct first; [done|]. simpl. nia.
Qed.

Lemma full_approach_fails_after_a_second_fill_witness :
  exists once twice,
    fill_news_pool 0 example_store (learner_of (args_two_slots "full"))
      (a_list [ANews 2%nat; ANews 0%nat]) true = Some (Ok tt, once)
    /\ fill_news_pool 0 example_store once (a_list [ANews 1%nat]) true
       = Some (Ok tt, twice)
    /\ length (news_pool twice) = 3%nat
    /\ length (full_lambdas twice) = 14%nat
    /\ (solve_full_linear_problem half_solver fair_oracle
          (mkSys twice example_store (mkUser [] []) 0)).1 = Raise ValueError.
Proof.
  destruct (full_approach_fails_after_a_second_fill half_solver fair_oracle 0
              example_store (args_two_slots "full") (learner_of (args_two_slots "full")) []
              [ANews 2%nat; ANews 0%nat] [ANews 1%nat] (mkUser [] []) 0)
    as (once & twice & Hrun1 & Hrun2 & Hpool & Hlam & Hfails).
  - vm_compute. reflexivity.
  - reflexivity.
  - vm_compute. lia.
  - apply (bool_decide_unpack _). vm_compute. exact I.
  - discriminate.
  - apply (bool_decide_unpack _). vm_compute. exact I.
  - exists once, twice. split; [exact Hrun1|]. split; [exact Hrun2|].
    split; [exact Hpool|]. split; [rewrite Hlam; vm_compute; reflexivity|].
    apply Hfails. vm_compute. lia.
Defined.

(** ** The slot rows of the restricted program *)

Lemma stride_fill_lookup {A} (fuel t stride : nat) (x : A) (row : list A) (j : nat) :
  (0 < stride)%nat -> (length row <= fuel + t)%nat ->
  stride_fill fuel t stride x row !! j
    = if decide (t <= j /\ (j - t) mod stride = 0 /\ j < length row)%nat
      then Some x else row !! j.
Proof.
  intros Hstride. revert t row.
  induction fuel as [|fuel IH]; intros t row Hfuel; simpl.
  - rewrite decide_False by lia. done.
  - destruct (decide (t < length row)%nat) as [Ht|Ht].
    + rewrite IH by (rewrite length_insert; lia). rewrite length_insert.
      destruct (decide (j = t)) as [->|Hne].
      * rewrite decide_False by lia.
        rewrite decide_True by (rewrite Nat.sub_diag, Nat.Div0.mod_0_l; lia).
        by apply list_lookup_insert_eq.
      * rewrite list_lookup_insert_ne by done.
        destruct (decide (t + stride <= j /\ (j - (t + stride)) mod stride = 0
                          /\ j < length row)%nat) as [(H1 & H2 & H3)|Hno].
        { rewrite decide_True; [done|]. split; [lia|]. split; [|done].
          replace (j - t)%nat with ((j - (t + stride)) + 1 * stride)%nat by lia.
          by rewrite Nat.Div0.mod_add. }
        rewrite decide_False; [done|]. intros (H1 & H2 & H3). apply Hno.
        assert (stride <= j - t)%nat as Hge.
        { destruct (decide (j - t < stride)%nat) as [Hsmall|]; [|lia].
          rewrite Nat.mod_small in H2 by done. lia. }
        split; [lia|]. split; [|done].
        replace (j - t)%nat with ((j - (t + stride)) + 1 * stride)%nat in H2 by lia.
        by rewrite Nat.Div0.mod_add in H2.
    + rewrite decide_False by lia. done.
Qed.

Lemma lookup_concat_replicate {A} (m : nat) (e : list A) (j : nat) :
  (0 < length e)%nat -> (j < m * length e)%nat ->
  concat (replicate m e) !! j = e !! (j mod length e).
Proof.
  intros He. revert j. induction m as [|m IH]; intros j Hj; [lia|].
  cbn [replicate concat]. destruct (decide (j < length e)%nat) as [Hlt|Hge].
  - rewrite lookup_app_l by done. by rewrite Nat.mod_small.
  - rewrite lookup_app_r by lia. rewrite IH by lia. f_equal.
    replace j with ((j - length e) + 1 * length e)%nat at 2 by lia.
    by rewrite Nat.Div0.mod_add.
Qed.

(** A slot row repeats, once per bin, the unit vector of its slot. *)
Lemma res_slot_row_shape (n_cat slots i : nat) :
  (i < slots)%nat ->
  res_slot_rows n_cat slots !! i
    = Some (concat (replicate (2 * n_cat) (<[i := 1]> (replicate slots 0)))).
Proof.
  intros Hi. unfold res_slot_rows.
  rewrite list_lookup_fmap, lookup_seq_lt by done. cbn [fmap option_fmap option_map].
  f_equal. change (0 + i)%nat with i. rewrite length_replicate.
  set (e := <[i := 1]> (replicate slots (0 : Q))).
  assert (length e = slots) as He by (unfold e; by rewrite length_insert, length_replicate).
  apply list_eq. intros j.
  rewrite stride_fill_lookup by (rewrite ?length_replicate; lia).
  rewrite length_replicate.
  destruct (decide (j < 2 * (n_cat * slots))%nat) as [Hj|Hj].
  - rewrite lookup_concat_replicate by (rewrite He; nia). rewrite He.
    assert (j mod slots < slots)%nat as Hmod by (apply Nat.mod_upper_bound; lia).
    destruct (decide (j mod slots = i)) as [Heq|Hne].
    + rewrite decide_True.
      * unfold e. rewrite Heq. symmetry. apply list_lookup_insert_eq.
        by rewrite length_replicate.
      * pose proof (Nat.div_mod_eq j slots) as Hdiv. rewrite Heq in Hdiv.
        split; [lia|]. split; [|done].
        replace (j - i)%nat with (0 + (j / slots) * slots)%nat by lia.
        rewrite Nat.Div0.mod_add. by apply Nat.mod_small; lia.
    + rewrite decide_False.
      * unfold e. rewrite list_lookup_insert_ne by done.
        rewrite !lookup_replicate_2 by lia. done.
      * intros (H1 & H2 & _). apply Hne.
        pose proof (Nat.div_mod_eq (j - i) slots) as Hdiv. rewrite H2 in Hdiv.
        replace j with (i + ((j - i) / slots) * slots)%nat by lia.
        rewrite Nat.Div0.mod_add. by apply Nat.mod_small.
  - rewrite decide_False by lia.
    rewrite (proj1 (lookup_replicate_None _ _ _)) by lia. symmetry.
    apply lookup_ge_None. rewrite length_concat_replicate, He. nia.
Qed.

Lemma dot_unit (slots i : nat) (y : list Z) :
  (i < slots)%nat ->
  dot (<[i := 1]> (replicate slots 0)) y == inject_Z (default 0%Z (y !! i)).
Proof.
  revert i y. induction slots as [|slots IH]; intros i y Hi; [lia|].
  destruct y as [|v y].
  { unfold dot. by destruct i. }
  destruct i as [|i].
  - cbn [replicate]. change (<[0%nat := 1]> (0 :: replicate slots 0))
      with ((1 : Q) :: replicate slots 0).
    change (dot (1 :: replicate slots 0) (v :: y))
      with (1 * inject_Z v + dot (replicate slots 0) y).
    rewrite dot_replicate. simpl. ring.
  - change (dot (<[S i := 1]> (replicate (S slots) 0)) (v :: y))
      with (0 * inject_Z v + dot (<[i := 1]> (replicate slots 0)) y).
    rewrite IH by lia. simpl. ring.
Qed.

Lemma slot_total_S (x : list Z) (slots bins i : nat) :
  slot_total x slots (S bins) i
    = (default 0 (x !! i) + slot_total (drop slots x) slots bins i)%Z.
Proof.
  unfold slot_total. rewrite <- cons_seq. cbn [map fold_right]. f_equal.
  rewrite <- fmap_S_seq. change (map ?f ?l) with (f <$> l).
  rewrite <- list_fmap_compose. f_equal. apply list_fmap_ext.
  intros _ b _. simpl. rewrite lookup_drop. do 2 f_equal. lia.
Qed.

Lemma dot_slot_row (slots bins i : nat) (x : list Z) :
  (i < slots)%nat ->
  dot (concat (replicate bins (<[i := 1]> (replicate slots 0)))) x
    == inject_Z (slot_total x slots bins i).
Proof.
  intros Hi. revert x. induction bins as [|bins IH]; intros x; [done|].
  cbn [replicate concat]. rewrite dot_app, length_insert, length_replicate.
  rewrite dot_unit, IH by done. rewrite slot_total_S, inject_Z_plus.
  by rewrite lookup_take_lt by done.
Qed.

(** X20. For a learner with the rows of the constructor, a feasible
    point of the restricted program puts at most one ad in each ad slot:
    the variables of a slot, one per bin, add up to at most one. *)
Theorem restricted_program_fills_a_slot_once
    (self : NewsLearner) (res_C : list Q) (problem : ilp) (x : list Z) (i : nat) :
  restricted_rows_built self ->
  length res_C = (2 * length (categories self) * ads_slots self)%nat ->
  restricted_problem self res_C = Ok problem ->
  feasible problem x ->
  (i < ads_slots self)%nat ->
  (slot_total x (ads_slots self) (2 * length (categories self)) i <= 1)%Z.
Proof.
  intros [HA HB] Hwidth Hrun (_ & _ & Hrows) Hi.
  set (n := length (categories self)) in *. set (s := ads_slots self) in *.
  unfold restricted_problem in Hrun. fold n s in Hrun.
  destruct (res_mapM _ (seq 0 s)) as [slot_rows|e] eqn:Hslot; [|done].
  cbn [mbind res_bind] in Hrun.
  destruct (res_mapM _ (seq s (2 * n))) as [bin_rows|e]; [|done].
  cbn [mbind res_bind] in Hrun.
  destruct (res_mapM _ (seq (s + 2 * n) n)) as [exclusion_rows|e]; [|done].
  cbn [mbind res_bind] in Hrun. injection Hrun as <-.
  cbn [constraints] in Hrows. apply Forall_app in Hrows as [Hrows _].
  destruct (res_mapM_lookup _ _ _ i i Hslot) as (rb & Hrb & Hplain).
  { by apply lookup_seq_lt. }
  eapply Forall_lookup_1 in Hrows; [|exact Hrb].
  pose proof (res_slot_row_shape n s i Hi) as Hrow.
  set (row := concat (replicate (2 * n) (<[i := 1]> (replicate s 0)))) in *.
  assert (length row = (2 * n * s)%nat) as Hlen.
  { unfold row. rewrite length_concat_replicate, length_insert, length_replicate. lia. }
  assert (res_A self !! i = Some row) as HrowA.
  { rewrite HA. rewrite lookup_app_l; [done|].
    unfold res_slot_rows. by rewrite length_map, length_seq. }
  assert (res_B self !! i = Some 1) as HrowB.
  { rewrite HB. rewrite lookup_app_l by (by rewrite length_replicate).
    by apply lookup_replicate. }
  unfold getitem, cut_row in Hplain. rewrite HrowA, HrowB in Hplain.
  cbn [from_option mbind res_bind] in Hplain.
  assert ((length res_C <=? length row)%nat = true) as Hfits
    by (apply Nat.leb_le; lia).
  rewrite Hfits in Hplain. cbn [mbind res_bind] in Hplain.
  rewrite take_ge in Hplain by lia. injection Hplain as <-.
  cbn [fst snd] in Hrows. unfold row in Hrows. rewrite dot_slot_row in Hrows by done.
  rewrite Zle_Qle. exact Hrows.
Qed.

Lemma restricted_program_fills_a_slot_once_witness :
  (slot_total [0; 0; 1; 0]%Z (ads_slots (learner ads_visit))
     (2 * length (categories (learner ads_visit))) 0 <= 1)%Z.
Proof.
  apply (restricted_program_fills_a_slot_once (learner ads_visit)
           (objective exclusion_problem) exclusion_problem [0; 0; 1; 0]%Z 0%nat).
  - split; reflexivity.
  - reflexivity.
  - vm_compute. reflexivity.
  - apply feasible_feasibleb. vm_compute. reflexivity.
  - vm_compute. lia.
Defined.

(** ** The refresh of the buffers *)

Lemma index_of_unknown (cats : list string) (c : string) :
  c ∉ cats -> index_of String.eqb c cats = None.
Proof.
  induction cats as [|d cats IH]; intros Hout; simpl; [done|].
  apply not_elem_of_cons in Hout as [Hne Hout].
  assert (String.eqb d c = false) as -> by (apply String.eqb_neq; congruence).
  by rewrite IH.
Qed.

Lemma buffer_ads_app (h : Store) (cats : list string) (ads more : list ref)
    (buffers : list (list ref * list ref)) :
  buffer_ads h cats (ads ++ more) buffers
    = match buffer_ads h cats ads buffers with
      | (Ok _, filed) => buffer_ads h cats more filed
      | (Raise e, filed) => (Raise e, filed)
      end.
Proof.
  revert buffers. induction ads as [|ad ads IH]; intros buffers; simpl; [done|].
  destruct (index_of _ _ _) as [i|]; [|done].
  destruct (buffers !! i) as [[o e]|]; [|done]. apply IH.
Qed.

(** X21. [refresh_ads_buffer] files ads like [fill_ads_pool] but does not
    check the list first and does not touch the ads pool. When every ad
    has a category of the learner it returns with every ad filed at the
    end of its bin. At the first ad of another category it raises
    ValueError and stops half way: the ads before it are filed, the
    others are not. *)
Theorem refresh_ads_buffer_stops_half_way
    (h : Store) (self : NewsLearner) (filed : list ref) :
  (length (categories self) <= length (ads_per_category self))%nat ->
  Forall (fun ad => ad_category (ad_at h ad) ∈ categories self) filed ->
  let refreshed self' :=
    ads_pool self' = ads_pool self
    /\ forall c open exclusive,
         ads_per_category self !! c = Some (open, exclusive) ->
         ads_per_category self' !! c
           = Some (open ++ filed_under h (categories self) c false filed,
                   exclusive ++ filed_under h (categories self) c true filed) in
  (exists self', refresh_ads_buffer h self filed = (Ok tt, self') /\ refreshed self')
  /\ (forall ad rest,
        ad_category (ad_at h ad) ∉ categories self ->
        exists self',
          refresh_ads_buffer h self (filed ++ ad :: rest) = (Raise ValueError, self')
          /\ refreshed self').
Proof.
  intros Hlen Hfiled refreshed.
  destruct (buffer_ads_spec h (categories self) filed (ads_per_category self) Hfiled Hlen)
    as (buffers & Hrun & _ & Hbins).
  split.
  - exists (with_ads_per_category buffers self). unfold refresh_ads_buffer.
    rewrite Hrun. by split.
  - intros ad rest Hbad. exists (with_ads_per_category buffers self).
    unfold refresh_ads_buffer. rewrite buffer_ads_app, Hrun. cbn [buffer_ads].
    rewrite index_of_unknown by done. by split.
Qed.

Lemma refresh_ads_buffer_stops_half_way_witness :
  exists self',
    refresh_ads_buffer store_with_a_stray_ad (learner_of args_ads)
      ([0%nat] ++ 1%nat :: [2%nat]) = (Raise ValueError, self')
    /\ ads_pool self' = []
    /\ ads_per_category self' !! 0%nat = Some ([], [0%nat]).
Proof.
  destruct (refresh_ads_buffer_stops_half_way store_with_a_stray_ad
              (learner_of args_ads) [0%nat]) as [_ Hstops].
  - vm_compute. lia.
  - apply (bool_decide_unpack _). vm_compute. exact I.
  - destruct (Hstops 1%nat [2%nat]) as (self' & Hrun & Hpool & Hbins).
    + apply (bool_decide_unpack _). vm_compute. exact I.
    + exists self'. split; [exact Hrun|]. split; [exact Hpool|].
      etrans; [exact (Hbins 0%nat [] [] eq_refl)|]. vm_compute. reflexivity.
Defined.

(** ** What a visit teaches the learner *)

Lemma put_grid_cell_elsewhere (self : NewsLearner) (w : WeightedBetaDistribution)
    (x y : nat) :
  x <> 0%nat \/ y <> 0%nat ->
  grid_cell (put_grid_cell self 0 0 w) x y = grid_cell self x y.
Proof.
  intros Hxy. unfold grid_cell, put_grid_cell, getitem.
  cbn [weighted_betas_matrix with_weighted_betas_matrix].
  destruct (weighted_betas_matrix self !! 0%nat) as [row|] eqn:Hrow; [|done].
  destruct (decide (x = 0%nat)) as [->|Hx].
  - rewrite list_lookup_insert_eq by (by eapply lookup_lt_Some).
    rewrite Hrow. cbn [from_option mbind res_bind].
    rewrite list_lookup_insert_ne by (destruct Hxy; congruence). done.
  - by rewrite list_lookup_insert_ne by done.
Qed.

Lemma update_slots_without_decay (st st' : Sys) (result : list (option ref))
    (slots : list nat) (r : res unit) :
  update_slots st result slots false = (r, st') ->
  visitor st' = visitor st
  /\ forall x y, x <> 0%nat \/ y <> 0%nat ->
       grid_cell (learner st') x y = grid_cell (learner st) x y.
Proof.
  revert st. induction slots as [|i slots IH]; intros st; simpl.
  - by intros [= _ <-].
  - assert (exists r1 st1,
              update_slot st result i false = (r1, st1)
              /\ visitor st1 = visitor st
              /\ forall x y, x <> 0%nat \/ y <> 0%nat ->
                   grid_cell (learner st1) x y = grid_cell (learner st) x y)
      as (r1 & st1 & -> & Hv1 & Hg1).
    { unfold update_slot. destruct (result !! i) as [[item|]|]; [|by eauto..].
      destruct (grid_cell (learner st) 0 0) as [w|e]; [|by eauto].
      eexists _, _. split; [reflexivity|]. split; [done|].
      intros x y Hxy. by apply put_grid_cell_elsewhere. }
    destruct r1 as [[]|e].
    + intros Hrun. apply IH in Hrun as [Hv Hg]. split; [congruence|].
      intros x y Hxy. by rewrite Hg, Hg1.
    + by intros [= _ <-].
Qed.

(** X22. What the standard approach learns from a visit. On a valid
    configuration with at least L pooled items the page is returned in
    every case; with [update_assignment_matrices=False] the grid of reward
    models and the user are left as they were; with the update and without
    interest decay the user is still left as it was and every reward model
    but the first one, at row 0 and column 0, is unchanged. *)
Theorem standard_learning_is_confined
    (solver : string -> Sys -> res (list (option ref)) * Sys)
    (rng : oracle) (st : Sys) :
  valid_configuration (learner st) ->
  allocation_approach (learner st) = "standard" ->
  (layout_slots (learner st) <= length (news_pool (learner st)))%nat ->
  (forall interest_decay, exists page st',
      find_best_allocation solver rng st interest_decay false = (Ok page, st')
      /\ weighted_betas_matrix (learner st') = weighted_betas_matrix (learner st)
      /\ visitor st' = visitor st)
  /\ (exists page st',
        find_best_allocation solver rng st false true = (Ok page, st')
        /\ visitor st' = visitor st
        /\ forall x y, x <> 0%nat \/ y <> 0%nat ->
             grid_cell (learner st') x y = grid_cell (learner st) x y).
Proof.
  intros Hvalid Happroach Hlong.
  assert (forall interest_decay update, exists st1 layout,
            sample_pool rng st (news_pool (learner st)) interest_decay = (Ok tt, st1)
            /\ learner st1 = learner st /\ visitor st1 = visitor st
            /\ length layout = length (real_slot_promenances (learner st))
            /\ find_best_allocation solver rng st interest_decay update
               = (let st2 := mkSys (with_news_pool
                                      (py_sort (by_quality_desc (store st1))
                                         (news_pool (learner st))) (learner st))
                                   (store st1) (visitor st1) (draws st1) in
                  if update then
                    match update_slots st2 (Some <$> layout)
                            (seq 0 (length (Some <$> layout))) interest_decay with
                    | (Raise e, st3) => (Raise e, st3)
                    | (Ok _, st3) => (Ok (Some <$> layout), st3)
                    end
                  else (Ok (Some <$> layout), st2))) as Hrun.
  { intros interest_decay update. unfold find_best_allocation.
    apply Nat.ltb_ge in Hlong as Hlong'. rewrite Hlong'. rewrite Happroach. simpl.
    destruct (sample_pool_total rng st (news_pool (learner st)) interest_decay Hvalid)
      as (st1 & -> & Hl1 & Hv1).
    rewrite Hl1, Happroach. simpl.
    pose proof Hvalid as (Hslots & Hproms & _).
    destruct (greedy_layout_spec (quality_in (store st1))
                (news_pool (learner st)) (real_slot_promenances (learner st)) Hproms)
      as (layout & Hgreedy & Hlen & _); [lia|].
    unfold greedy_layout in Hgreedy. rewrite <- Hslots in Hgreedy at 2.
    change (by_quality_desc (store st1)) with (better (quality_in (store st1))).
    rewrite Hgreedy. exists st1, layout. by destruct update. }
  split.
  - intros interest_decay.
    destruct (Hrun interest_decay false) as (st1 & layout & _ & Hl1 & Hv1 & _ & ->).
    eexists _, _. split; [reflexivity|]. by split.
  - destruct (Hrun false true) as (st1 & layout & _ & Hl1 & Hv1 & Hlen & ->).
    cbn zeta.
    match goal with
    | |- context [update_slots ?a ?b ?c ?d] =>
        destruct (update_slots_total a b c d) as [st3 Hupd]
    end.
    + simpl. by apply with_news_pool_valid.
    + apply Forall_forall. intros i Hi. apply elem_of_seq in Hi.
      rewrite length_fmap in Hi. simpl. split; [|lia].
      destruct (lookup_lt_is_Some_2 layout i) as [r Hr]; [lia|].
      exists r. by rewrite list_lookup_fmap, Hr.
    + rewrite Hupd. apply update_slots_without_decay in Hupd as [Hv Hg].
      exists (Some <$> layout), st3. split; [done|]. split; [by rewrite Hv|].
      intros x y Hxy. by rewrite Hg.
Qed.

Lemma standard_learning_is_confined_witness :
  (forall interest_decay, exists page st',
      find_best_allocation no_solver fair_oracle (scenario [3; 1; 0; 2]%nat)
        interest_decay false = (Ok page, st')
      /\ weighted_betas_matrix (learner st')
         = weighted_betas_matrix (learner (scenario [3; 1; 0; 2]%nat))
      /\ visitor st' = visitor (scenario [3; 1; 0; 2]%nat))
  /\ (exists page st',
        find_best_allocation no_solver fair_oracle (scenario [3; 1; 0; 2]%nat) false true
          = (Ok page, st')
        /\ visitor st' = visitor (scenario [3; 1; 0; 2]%nat)
        /\ forall x y, x <> 0%nat \/ y <> 0%nat ->
             grid_cell (learner st') x y
             = grid_cell (learner (scenario [3; 1; 0; 2]%nat)) x y).
Proof.
  apply (standard_learning_is_confined no_solver fair_oracle (scenario [3; 1; 0; 2]%nat)).
  - apply with_news_pool_valid.
    apply (init_valid (args_two_slots "standard") _ []);
      [reflexivity | simpl; discriminate | simpl; discriminate].
  - reflexivity.
  - vm_compute. lia.
Defined.

(** ** The construction of the site *)

Lemma res_mapM_const {A B} (r : res B) (l : list A) :
  res_mapM (fun _ => r) l
    = match l, r with
      | [], _ => Ok []
      | _ :: _, Raise e => Raise e
      | _ :: _, Ok y => Ok (replicate (length l) y)
      end.
Proof.
  induction l as [|x l IH]; [done|].
  cbn [res_mapM]. rewrite IH. destruct r as [y|e]; [|done].
  cbn [mbind res_bind]. by destruct l.
Qed.

Lemma init_needs_the_prominence_of_the_bounds (args : init_args) (t : Q) :
  sum_of_bounds 0 (arg_allocation_diversity_bounds args) = Ok t ->
  float_sum (arg_real_slot_promenances args) < t ->
  init args = Raise RuntimeError.
Proof.
  intros Hsum Hshort. unfold init. rewrite Hsum. cbn [mbind res_bind].
  apply Qltb_lt in Hshort. by rewrite Hshort.
Qed.

(** X23. A site needs a feature of each kind and slot prominences whose
    float sum is the double 2.4 at least, whatever its categories.
    Without a feature of one kind no learner is built and the constructor
    raises IndexError. Otherwise it builds one learner per pair of
    features, all alike, and fails exactly as the constructor of the
    learner fails for six bounds of 0.4: in particular with RuntimeError
    when the prominences of the news slots, added up from the left in
    double precision, give less than the double 2.4, however many
    categories there are. *)
Theorem page_creator_needs_features_and_prominence
    (attributes_1 attributes_2 : list string) (real_slot_promenances : list Q)
    (allocation_approach : string) (categories : list string) :
  let args := page_creator_args real_slot_promenances allocation_approach categories in
  let site :=
    init_page_creator attributes_1 attributes_2 real_slot_promenances
      allocation_approach categories in
  (attributes_1 = [] \/ attributes_2 = [] -> site = Raise IndexError)
  /\ (attributes_1 <> [] -> attributes_2 <> [] ->
      site = match init args with
             | Raise e => Raise e
             | Ok (self, _) =>
                 Ok (mkSite attributes_1 attributes_2
                       (replicate (length attributes_1)
                          (replicate (length attributes_2) self)))
             end)
  /\ (float_sum real_slot_promenances < round64 (24 # 10) ->
      init args = Raise RuntimeError).
Proof.
  intros args site. unfold site, init_page_creator. fold args.
  split; [|split].
  - intros [-> | ->].
    + reflexivity.
    + rewrite res_mapM_const. destruct attributes_1 as [|a rest]; [done|].
      cbn [res_mapM mbind res_bind].
      assert (concat (replicate (length (a :: rest)) (@nil NewsLearner)) = []) as ->;
        [|done].
      clear. induction (length (a :: rest)) as [|k IH]; [done|]. exact IH.
  - intros H1 H2. rewrite !res_mapM_const.
    destruct attributes_2 as [|b rest2]; [done|].
    destruct attributes_1 as [|a rest1]; [done|].
    destruct (init args) as [[self w]|e]; [|done].
    cbn [fmap res_fmap fst mbind res_bind].
    set (matrix := replicate (length (a :: rest1))
                     (replicate (length (b :: rest2)) self)).
    assert (exists y, last_item (concat matrix) = Ok y) as [y ->]; [|done].
    unfold last_item. destruct (last (concat matrix)) as [y|] eqn:Hlast; [by eauto|].
    apply last_None in Hlast. discriminate.
  - intros Hshort.
    apply (init_needs_the_prominence_of_the_bounds args
             (fold_left float_add (replicate 6 (4 # 10)) 0));
      [vm_compute; reflexivity|].
    cbn [args page_creator_args arg_real_slot_promenances].
    eapply Qlt_le_trans; [exact Hshort|]. vm_compute. discriminate.
Qed.

Lemma page_creator_needs_features_and_prominence_witness :
  init_page_creator [] ["LOW"] [9 # 10; 8 # 10; 7 # 10] "standard" ["cibo"]
    = Raise IndexError
  /\ init_page_creator ["M"; "F"] ["LOW"] [7 # 10; 7 # 10; 7 # 10; 3 # 10] "standard"
       ["cibo"]
     = Raise RuntimeError.
Proof.
  split.
  - apply (proj1 (page_creator_needs_features_and_prominence [] ["LOW"]
                    [9 # 10; 8 # 10; 7 # 10] "standard" ["cibo"])).
    left. reflexivity.
  - destruct (page_creator_needs_features_and_prominence ["M"; "F"] ["LOW"]
                [7 # 10; 7 # 10; 7 # 10; 3 # 10] "standard" ["cibo"])
      as (_ & Hsite & Hinit).
    rewrite Hsite by discriminate. rewrite Hinit; [reflexivity|].
    vm_compute. reflexivity.
Defined.

(** ** The book of displayed ads *)

Lemma remove_ad_from_pool_totals (h : Store) (self : NewsLearner) (ads_list : list ref) :
  total_ads_clicks_and_displays (remove_ad_from_pool h self ads_list).2
    = total_ads_clicks_and_displays self.
Proof.
  unfold remove_ad_from_pool.
  destruct (remove_loop _ _ _) as [[[]|e] pool]; [|done].
  destruct (String.eqb _ "resLP"); [|done].
  by destruct (purge_buffers _ _ _ _).
Qed.

Lemma display_filter_totals (rng : oracle) (weighted : bool) (st : Sys)
    (ads_allocation final_ads_allocation : list ref) :
  total_ads_clicks_and_displays
    (learner (display_filter rng weighted st ads_allocation final_ads_allocation).2)
    = total_ads_clicks_and_displays (learner st).
Proof.
  revert st final_ads_allocation.
  induction ads_allocation as [|ad rest IH]; intros st acc; [done|].
  cbn [display_filter].
  assert (forall st1 : Sys,
            total_ads_clicks_and_displays (learner st1)
              = total_ads_clicks_and_displays (learner st) ->
            total_ads_clicks_and_displays
              (learner
                 (match remove_ad_from_pool (store st1) (learner st1) [ad] with
                  | (Raise e, self) =>
                      (Raise e, mkSys self (store st1) (visitor st1) (draws st1))
                  | (Ok _, self) =>
                      display_filter rng weighted
                        (mkSys self (store st1) (visitor st1) (draws st1))
                        rest (acc ++ [ad])
                  end).2)
              = total_ads_clicks_and_displays (learner st)) as Hshow.
  { intros st1 Hst1.
    pose proof (remove_ad_from_pool_totals (store st1) (learner st1) [ad]) as Hkeep.
    destruct (remove_ad_from_pool (store st1) (learner st1) [ad]) as [[[]|e] self].
    - rewrite IH. simpl in *. congruence.
    - simpl in *. congruence. }
  destruct (buyer (ad_at (store st) ad)); [by apply Hshow|].
  destruct (Qltb _ _); [by apply Hshow|]. by rewrite IH.
Qed.

Lemma solve_ads_restricted_learner (lp_solve : ilp -> list (option Z)) (rng : oracle)
    (st : Sys) :
  learner (solve_ads_restricted_linear_problem lp_solve rng st).2 = learner st.
Proof.
  unfold solve_ads_restricted_linear_problem.
  destruct (restricted_program rng st) as [[problem|e] n]; [|done].
  unfold place_solution.
  destruct (place_ads _ _ _ _ _ _) as [[result n1]|e]; [|done].
  by destruct (resample_ads _ _ _ _).
Qed.

(** X24. The book of displayed ads under the technique "res_LP". A call
    of [find_ads_best_allocation] that returns adds exactly one entry to
    [total_ads_clicks_and_displays], no click and the number of ads it
    returns, and removes from the ads pool the ads it returns and no
    other; this holds for "pdda", "greedy" and "wpdda" alike. A call that
    fails adds no entry. *)
Theorem find_ads_best_allocation_keeps_the_book
    (lp_solve : ilp -> list (option Z)) (integer_solver : Sys -> res (list ref) * Sys)
    (rng : oracle) (st : Sys) :
  ads_allocation_technique (learner st) = "res_LP" ->
  match find_ads_best_allocation lp_solve integer_solver rng st with
  | (Ok final_ads_allocation, st') =>
      total_ads_clicks_and_displays (learner st')
        = total_ads_clicks_and_displays (learner st)
            ++ [(0%nat, length final_ads_allocation)]
      /\ ads_pool (learner st')
         = filter (fun ad => ad ∉ final_ads_allocation) (ads_pool (learner st))
  | (Raise _, st') =>
      total_ads_clicks_and_displays (learner st')
        = total_ads_clicks_and_displays (learner st)
  end.
Proof.
  intros Htech. unfold find_ads_best_allocation.
  destruct (length (ads_pool (learner st)) <? ads_slots (learner st))%nat; [done|].
  rewrite Htech. cbn [String.eqb Ascii.eqb Bool.eqb andb].
  pose proof (solve_ads_restricted_learner lp_solve rng st) as Hl.
  destruct (solve_ads_restricted_linear_problem lp_solve rng st) as [[ads|e] st1];
    cbn [snd] in Hl; [|by rewrite Hl].
  assert (ads_allocation_technique (learner st1) = "LP"
          \/ ads_allocation_technique (learner st1) = "res_LP") as Htech1
    by (right; by rewrite Hl).
  assert (forall weighted,
            match
              (match display_filter rng weighted st1 ads [] with
               | (Raise e, st2) => (Raise e, st2)
               | (Ok final, st2) => (Ok final, record_ads st2 final)
               end) with
            | (Ok final, st') =>
                total_ads_clicks_and_displays (learner st')
                  = total_ads_clicks_and_displays (learner st) ++ [(0%nat, length final)]
                /\ ads_pool (learner st')
                   = filter (fun ad => ad ∉ final) (ads_pool (learner st))
            | (Raise _, st') =>
                total_ads_clicks_and_displays (learner st')
                  = total_ads_clicks_and_displays (learner st)
            end) as Hfilter.
  { intros weighted.
    pose proof (display_filter_totals rng weighted st1 ads []) as Htot.
    destruct (display_filter_spec rng weighted st1 ads [] Htech1)
      as (shown & st2 & Hrun & _ & Hpool & _).
    rewrite Hrun in Htot |- *. cbn [app snd] in *.
    split; [by rewrite <- Hl, <- Htot | by rewrite <- Hl, <- Hpool]. }
  destruct (String.eqb (ads_allocation_approach (learner st1)) "pdda");
    [exact (Hfilter false)|].
  destruct (String.eqb (ads_allocation_approach (learner st1)) "greedy").
  - rewrite (remove_ad_from_pool_run _ _ _ Htech1). cbn [record_ads learner].
    split; [by rewrite Hl | by rewrite Hl].
  - destruct (String.eqb (ads_allocation_approach (learner st1)) "wpdda");
      [exact (Hfilter true) | by rewrite Hl].
Qed.

Lemma find_ads_best_allocation_keeps_the_book_witness :
  match find_ads_best_allocation one_exclusive_in_first_slot no_integer_solver
          split_oracle ads_visit with
  | (Ok final_ads_allocation, st') =>
      total_ads_clicks_and_displays (learner st')
        = total_ads_clicks_and_displays (learner ads_visit)
            ++ [(0%nat, length final_ads_allocation)]
      /\ ads_pool (learner st')
         = filter (fun ad => ad ∉ final_ads_allocation) (ads_pool (learner ads_visit))
  | (Raise _, st') =>
      total_ads_clicks_and_displays (learner st')
        = total_ads_clicks_and_displays (learner ads_visit)
  end.
Proof.
  apply (find_ads_best_allocation_keeps_the_book one_exclusive_in_first_slot
           no_integer_solver split_oracle ads_visit).
  reflexivity.
Defined.

(** ** The table of the items shown to a user *)












(** ** The de-randomization of an integral solution *)

Lemma Qsum_pointwise (v w : list Q) : Forall2 Qeq v w -> Qsum v == Qsum w.
Proof. induction 1 as [|x y v w Hxy _ IH]; simpl; [done|]. by rewrite Hxy, IH. Qed.

Lemma Qsum_indicator_out (a : nat) (candidates : list nat) :
  a ∉ candidates -> Qsum (indicator a candidates) == 0.
Proof.
  induction candidates as [|i candidates IH]; intros Hout; simpl; [done|].
  apply not_elem_of_cons in Hout as [Hne Hout].
  rewrite decide_False by congruence. rewrite IH by done. ring.
Qed.

Lemma Qsum_indicator (a : nat) (candidates : list nat) :
  NoDup candidates -> a ∈ candidates -> Qsum (indicator a candidates) == 1.
Proof.
  induction 1 as [|i candidates Hi Hnd IH]; intros Hin; [by apply elem_of_nil in Hin|].
  simpl. destruct (decide (i = a)) as [->|Hne].
  - change (Qsum (map _ candidates)) with (Qsum (indicator a candidates)).
    rewrite Qsum_indicator_out by done. ring.
  - apply elem_of_cons in Hin as [->|Hin]; [done|].
    change (Qsum (map _ candidates)) with (Qsum (indicator a candidates)).
    rewrite IH by done. ring.
Qed.

Lemma indicator_delete (a d : nat) (candidates : list nat) :
  delete d (indicator a candidates) = indicator a (delete d candidates).
Proof.
  unfold indicator. revert d. induction candidates as [|i candidates IH]; intros d.
  - by destruct d.
  - destruct d as [|d]; simpl; [done|]. by rewrite IH.
Qed.

Lemma elem_of_delete_other {A} (l : list A) (d : nat) (x y : A) :
  x ∈ l -> l !! d = Some y -> x <> y -> x ∈ delete d l.
Proof.
  revert d. induction l as [|z l IH]; intros d Hx Hd Hne; [by apply elem_of_nil in Hx|].
  destruct d as [|d]; simpl in *.
  - injection Hd as ->. apply elem_of_cons in Hx as [->|Hx]; done.
  - apply elem_of_cons in Hx as [->|Hx]; [by left|]. right. by eapply IH.
Qed.

(** The damping of "rand_3" changes nothing for an integral solution:
    the products of zeros and ones are exact. *)
Lemma dampen_other_slot (a_t a_p : nat) (candidates : list nat) (weights : list Q) :
  a_p <> a_t ->
  Forall2 Qeq weights (indicator a_t candidates) ->
  Forall2 Qeq (zip_with float_mul weights (map (float_sub 1) (indicator a_p candidates)))
    (indicator a_t candidates).
Proof.
  intros Hne. revert weights.
  induction candidates as [|i candidates IH]; intros weights Hw.
  - apply Forall2_nil_inv_r in Hw as ->. constructor.
  - apply Forall2_cons_inv_r in Hw as (w & rest & Hwi & Hrest & ->).
    cbn [indicator map zip_with]. constructor; [|by apply IH].
    change (w == (if decide (i = a_t) then 1 else 0)) in Hwi. rewrite Hwi.
    destruct (decide (i = a_t)) as [->|Hit].
    + rewrite decide_False by congruence. vm_compute. reflexivity.
    + destruct (decide (i = a_p)); vm_compute; reflexivity.
Qed.

Lemma dampen_indicator (pool : list ref) (assignment : list nat) (free : nat)
    (placed : list (option nat)) (st : dr_state) (ps : list nat) (target a_t : nat)
    (weights : list Q) :
  integral_invariant pool assignment free placed st ->
  NoDup assignment ->
  assignment !! target = Some a_t ->
  Forall (fun p => p < length assignment)%nat ps ->
  Forall2 Qeq weights (indicator a_t (feasible_news st)) ->
  exists damped,
    dampen ps (slot_probabilities st) (allocated_slots st) target weights = Ok damped
    /\ Forall2 Qeq damped (indicator a_t (feasible_news st)).
Proof.
  intros Hinv Hnd Ht Hps. revert weights.
  induction Hps as [|p ps Hp _ IH]; intros weights Hw; simpl; [by eauto|].
  destruct (negb (contains p (allocated_slots st)) && negb (p =? target)%nat) eqn:Hcond;
    [|by apply IH].
  apply andb_true_iff in Hcond as [_ Hpt]. apply negb_true_iff, Nat.eqb_neq in Hpt.
  destruct (lookup_lt_is_Some_2 assignment p Hp) as [a_p Hap].
  unfold getitem. rewrite (j_rows _ _ _ _ _ Hinv p a_p Hap).
  cbn [from_option mbind res_bind]. unfold np_mul_rounded.
  pose proof (Forall2_length _ _ _ Hw) as Hlen.
  unfold indicator in Hlen |- *. rewrite !length_map. rewrite length_map in Hlen.
  rewrite Hlen, Nat.eqb_refl. cbn [mbind res_bind].
  apply IH. apply dampen_other_slot; [|done].
  intros ->. apply Hpt. by eapply NoDup_lookup.
Qed.

Lemma pointwise_refl (v : list Q) : Forall2 Qeq v v.
Proof. induction v; by constructor. Qed.

Lemma normalized_indicator (a : nat) (candidates : list nat) (weights : list Q) (s : Q) :
  s == 1 ->
  Forall2 Qeq weights (indicator a candidates) ->
  Forall2 Qeq (map Qabs (map (fun x => x / s) weights)) (indicator a candidates).
Proof.
  intros Hs. revert weights.
  induction candidates as [|i candidates IH]; intros weights Hw.
  - apply Forall2_nil_inv_r in Hw as ->. constructor.
  - apply Forall2_cons_inv_r in Hw as (w & rest & Hwi & Hrest & ->).
    cbn [map]. constructor; [|by apply IH].
    change (w == (if decide (i = a) then 1 else 0)) in Hwi.
    destruct (decide (i = a)); rewrite Hwi, Hs; reflexivity.
Qed.

Lemma slot_weights_integral (pool : list ref) (assignment : list nat) (free : nat)
    (placed : list (option nat)) (st : dr_state) (tech : string) (target a_t : nat) :
  integral_invariant pool assignment free placed st ->
  NoDup assignment ->
  assignment !! target = Some a_t ->
  exists weights allocated,
    slot_weights tech st target = Ok (weights, allocated)
    /\ Forall2 Qeq weights (indicator a_t (feasible_news st)).
Proof.
  intros Hinv Hnd Ht. unfold slot_weights, getitem.
  rewrite (j_rows _ _ _ _ _ Hinv target a_t Ht). cbn [from_option mbind res_bind].
  destruct (String.eqb tech "rand_3").
  - destruct (dampen_indicator pool assignment free placed st
                (seq 0 (length (slot_probabilities st))) target a_t
                (indicator a_t (feasible_news st)) Hinv Hnd Ht)
      as (damped & -> & Hd).
    + apply Forall_forall. intros p Hp. apply elem_of_seq in Hp.
      rewrite <- (j_rows_length _ _ _ _ _ Hinv). lia.
    + apply pointwise_refl.
    + cbn [mbind res_bind]. eauto.
  - eexists _, _. split; [done|]. apply pointwise_refl.
Qed.

(** One turn of the loop on an integral solution serves a free slot with
    the candidate the solution gives it. *)
Lemma de_randomize_step_integral (rng : oracle) (pool : list ref) (tech : string)
    (assignment : list nat) (st : dr_state) (placed : list (option nat)) (free : nat) :
  oracle_ok rng ->
  NoDup assignment ->
  Forall (fun a => a < length pool)%nat assignment ->
  integral_invariant pool assignment (S free) placed st ->
  exists st' placed',
    de_randomize_step rng pool tech st = Ok st'
    /\ integral_invariant pool assignment free placed' st'.
Proof.
  intros Hrng Hnd Hrange Hinv.
  pose proof Hinv as [Hres Hagree Hfree Hpl Hrl Hrows Hfnd Hserved Hwaiting].
  unfold de_randomize_step.
  destruct (pick_slot_spec rng tech st placed free Hrng Hagree Hfree)
    as (target & n & -> & Htfree & Htp & Htr).
  cbn [mbind res_bind].
  destruct (lookup_lt_is_Some_2 assignment target) as [a_t Hat]; [lia|].
  pose proof (Hwaiting target a_t Htfree Hat) as Hin.
  destruct (slot_weights_integral pool assignment (S free) placed st tech target a_t
              Hinv Hnd Hat) as (weights & allocated & -> & Hw).
  cbn [mbind res_bind].
  assert (Qsum weights == 1) as Hsum.
  { rewrite (Qsum_pointwise _ _ Hw). by apply Qsum_indicator. }
  unfold normalize.
  assert (Qeqb (Qsum weights) 0 = false) as -> by (apply Qeqb_neq; lra).
  cbn [from_option mbind res_bind].
  pose proof (normalized_indicator a_t (feasible_news st) weights (Qsum weights) Hsum Hw)
    as Hnorm.
  set (p := map Qabs (map (fun x => x / Qsum weights) weights)) in *.
  destruct (choice_p_spec (rng n) (feasible_news st) p)
    as (i & selected & w & -> & Hsel & Hpi & Hwpos).
  { apply Hrng. }
  { intros Hnil. rewrite Hnil in Hin. by apply elem_of_nil in Hin. }
  { rewrite (Forall2_length _ _ _ Hnorm). unfold indicator. by rewrite length_map. }
  { subst p. apply Forall_fmap, Forall_forall. intros x _. apply Qabs_nonneg. }
  { rewrite (Qsum_pointwise _ _ Hnorm). by apply Qsum_indicator. }
  assert (selected = a_t) as ->.
  { destruct (Forall2_lookup_l _ _ _ _ _ Hnorm Hpi) as (y & Hy & Hwy).
    unfold indicator in Hy.
    change (map ?f ?l) with (f <$> l) in Hy.
    rewrite list_lookup_fmap, Hsel in Hy. simpl in Hy. injection Hy as <-.
    destruct (decide (selected = a_t)); [done|]. lra. }
  cbn [mbind res_bind].
  pose proof (Forall_lookup_1 _ _ _ _ Hrange Hat) as Hat_lt. simpl in Hat_lt.
  destruct (lookup_lt_is_Some_2 pool a_t Hat_lt) as [item Hitem].
  unfold getitem. rewrite Hitem. cbn [from_option mbind res_bind].
  assert (target < length (dr_result st))%nat as Htres
    by (rewrite Hres, length_fmap; lia).
  rewrite (setitem_ok target (Some item) (dr_result st)) by done.
  cbn [mbind res_bind].
  destruct (index_of_nat a_t _ i Hsel) as (d & -> & Hd).
  cbn [from_option mbind res_bind].
  assert (d < length (feasible_news st))%nat as Hdlt by (by eapply lookup_lt_Some).
  rewrite (delitem_ok d (feasible_news st)) by done.
  cbn [mbind res_bind].
  rewrite (res_mapM_delitem d (length (feasible_news st))); [| |done].
  2:{ apply Forall_lookup. intros s v Hv.
      destruct (lookup_lt_is_Some_2 assignment s) as [a Ha].
      { rewrite <- Hrl. by eapply lookup_lt_Some. }
      rewrite (Hrows s a Ha) in Hv. injection Hv as <-.
      unfold indicator. by rewrite length_map. }
  cbn [mbind res_bind].
  rewrite (setitem_ok target 0 (tmp_slot_promenances st)) by done.
  cbn [mbind res_bind].
  destruct (free_slots_insert placed target a_t Htfree) as [Hfree' _].
  eexists _, (<[target := Some a_t]> placed). split; [done|].
  constructor; cbn [dr_result tmp_slot_promenances feasible_news slot_probabilities].
  - rewrite Hres, list_fmap_insert. simpl. by rewrite Hitem.
  - by apply slots_agree_insert.
  - apply Nat.succ_inj. etrans; [exact Hfree' | exact Hfree].
  - by rewrite length_insert.
  - by rewrite length_fmap.
  - intros s a Ha. rewrite list_lookup_fmap, (Hrows s a Ha). simpl.
    by rewrite indicator_delete.
  - eapply sublist_NoDup; [exact Hfnd | apply sublist_delete].
  - intros s q Hs. destruct (decide (s = target)) as [->|Hne].
    + rewrite list_lookup_insert_eq in Hs by done. congruence.
    + rewrite list_lookup_insert_ne in Hs by done. by apply Hserved.
  - intros s a Hs Ha. destruct (decide (s = target)) as [->|Hne].
    + rewrite list_lookup_insert_eq in Hs by done. done.
    + rewrite list_lookup_insert_ne in Hs by done.
      eapply elem_of_delete_other; [exact (Hwaiting s a Hs Ha) | exact Hd |].
      intros Heq. apply Hne. rewrite Heq in Ha.
      exact (NoDup_lookup assignment s target a_t Hnd Ha Hat).
Qed.

Lemma de_randomize_loop_integral (rng : oracle) (pool : list ref) (tech : string)
    (assignment : list nat) (free : nat) (st : dr_state) (placed : list (option nat)) :
  oracle_ok rng ->
  NoDup assignment ->
  Forall (fun a => a < length pool)%nat assignment ->
  integral_invariant pool assignment free placed st ->
  exists st' placed',
    de_randomize_loop free rng pool tech st = Ok st'
    /\ integral_invariant pool assignment 0 placed' st'.
Proof.
  intros Hrng Hnd Hrange. revert st placed.
  induction free as [|free IH]; intros st placed Hinv; [by exists st, placed|].
  cbn [de_randomize_loop].
  destruct (de_randomize_step_integral rng pool tech assignment st placed free
              Hrng Hnd Hrange Hinv) as (st1 & placed1 & -> & Hinv1).
  cbn [mbind res_bind]. by apply (IH st1 placed1).
Qed.

Lemma integral_invariant_initial (n : nat) (self : NewsLearner) (pool : list ref)
    (assignment : list nat) :
  layout_slots self = length (real_slot_promenances self) ->
  Forall (fun p => 0 < p) (real_slot_promenances self) ->
  length assignment = layout_slots self ->
  Forall (fun a => a < length pool)%nat assignment ->
  integral_invariant pool assignment (layout_slots self)
    (replicate (layout_slots self) None)
    (mkDr (replicate (layout_slots self) None) (real_slot_promenances self)
          (seq 0 (length pool)) (integral_solution (length pool) assignment) [] n).
Proof.
  intros Hslots Hproms Hlen Hrange.
  constructor; cbn [dr_result tmp_slot_promenances feasible_news slot_probabilities].
  - by rewrite fmap_replicate.
  - apply Forall2_same_length_lookup_2.
    + by rewrite length_replicate.
    + intros i r p Hr Hp. apply lookup_replicate in Hr as [-> _].
      pose proof (Forall_lookup_1 _ _ _ _ Hproms Hp) as Hpos. simpl in Hpos.
      split; [lra|]. intros Heq. rewrite Heq in Hpos. lra.
  - apply free_slots_replicate.
  - by rewrite length_replicate.
  - unfold integral_solution. by rewrite length_map.
  - intros s a Ha. unfold integral_solution.
    change (map ?f assignment) with (f <$> assignment).
    by rewrite list_lookup_fmap, Ha.
  - apply NoDup_seq.
  - intros s p Hs. by apply lookup_replicate in Hs as [? _].
  - intros s a _ Ha. apply elem_of_seq.
    pose proof (Forall_lookup_1 _ _ _ _ Hrange Ha). simpl in *. lia.
Qed.

Lemma served_page (pool : list ref) (assignment : list nat)
    (placed : list (option nat)) (st : dr_state) :
  integral_invariant pool assignment 0 placed st ->
  dr_result st = (fun a => pool !! a) <$> assignment.
Proof.
  intros [Hres _ Hfree Hlen _ _ _ Hserved _]. rewrite Hres.
  apply free_slots_none in Hfree.
  assert (placed = Some <$> assignment) as ->.
  { apply list_eq. intros s. rewrite list_lookup_fmap.
    destruct (placed !! s) as [[q|]|] eqn:Hs.
    - by rewrite (Hserved s q Hs).
    - rewrite Hfree, list_lookup_fmap in Hs.
      match type of Hs with context [fmap _ ?x] => destruct x end; discriminate.
    - apply lookup_ge_None in Hs. rewrite Hlen in Hs.
      apply lookup_ge_None in Hs. by rewrite Hs. }
  by rewrite <- list_fmap_compose.
Qed.

(** X26. An integral solution is never changed by the de-randomization:
    when each slot puts weight one on a candidate of its own and weight
    zero on all others, [__de_randomize_LP] returns, under each technique
    and whatever the draws, the page that gives every slot its candidate. *)
Theorem de_randomize_LP_keeps_an_integral_solution
    (rng : oracle) (n : nat) (self : NewsLearner) (pool : list ref)
    (assignment : list nat) (tech : string) :
  oracle_ok rng ->
  layout_slots self = length (real_slot_promenances self) ->
  Forall (fun p => 0 < p) (real_slot_promenances self) ->
  length assignment = layout_slots self ->
  NoDup assignment ->
  Forall (fun a => a < length pool)%nat assignment ->
  exists n',
    de_randomize_LP rng n self pool (integral_solution (length pool) assignment) tech
    = Ok ((fun a => pool !! a) <$> assignment, n').
Proof.
  intros Hrng Hslots Hproms Hlen Hnd Hrange.
  pose proof (integral_invariant_initial n self pool assignment Hslots Hproms Hlen Hrange)
    as Hinv.
  unfold de_randomize_LP.
  destruct (de_randomize_loop_integral rng pool tech assignment _ _ _ Hrng Hnd Hrange Hinv)
    as (st' & placed' & -> & Hinv').
  cbn [mbind res_bind]. exists (dr_draws st').
  by rewrite (served_page pool assignment placed' st' Hinv').
Qed.

Lemma de_randomize_LP_keeps_an_integral_solution_witness :
  exists n',
    de_randomize_LP fair_oracle 0 (learner_of (args_two_slots "LP")) [0; 1; 2]%nat
      (integral_solution 3 [2; 0]%nat) "rand_3"
    = Ok ((fun a => [0; 1; 2]%nat !! a) <$> [2; 0]%nat, n').
Proof.
  apply (de_randomize_LP_keeps_an_integral_solution fair_oracle 0
           (learner_of (args_two_slots "LP")) [0; 1; 2]%nat [2; 0]%nat "rand_3").
  - intros k. unfold fair_oracle. split; reflexivity || discriminate.
  - reflexivity.
  - vm_compute. repeat constructor.
  - reflexivity.
  - apply (bool_decide_unpack _). vm_compute. exact I.
  - apply (bool_decide_unpack _). vm_compute. exact I.
Defined.

(** ** A pool handed to its own filling *)

Lemma validate_news_list_of_pool (h : Store) (cats : list string) (pool : list ref) :
  Forall (known_category h cats) pool ->
  validate_news_list h cats (ANews <$> pool) = Ok pool.
Proof.
  induction 1 as [|r pool Hr _ IH]; [done|].
  cbn [fmap list_fmap validate_news_list]. unfold contains.
  rewrite bool_decide_eq_true_2 by done. cbn [negb].
  change (list_fmap ref content ANews pool) with (ANews <$> pool). by rewrite IH.
Qed.

Lemma validate_ads_list_of_pool (h : Store) (cats : list string) (pool : list ref) :
  Forall (fun ad => ad_category (ad_at h ad) ∈ cats) pool ->
  validate_ads_list h cats (AnAd <$> pool) = Ok pool.
Proof.
  induction 1 as [|r pool Hr _ IH]; [done|].
  cbn [fmap list_fmap validate_ads_list]. unfold contains.
  rewrite bool_decide_eq_true_2 by done. cbn [negb].
  change (list_fmap ref content AnAd pool) with (AnAd <$> pool). by rewrite IH.
Qed.

(** X28. The list passed to [fill_news_pool] or [fill_ads_pool] may be
    the pool's own list object, as the list of an earlier call with
    [append=False] is, which was stored and not copied. For a pool of
    acceptable items that is not empty, the call with [append=True] then
    never returns: the loop appends to the list it iterates over. With
    [append=False] the pool stays as it is, and [fill_ads_pool] files
    every pooled ad in its bin once more. *)
Theorem filling_a_pool_with_itself (fuel : nat) (h : Store) (self : NewsLearner) :
  Forall (known_category h (categories self)) (news_pool self) ->
  Forall (fun ad => ad_category (ad_at h ad) ∈ categories self) (ads_pool self) ->
  (length (categories self) <= length (ads_per_category self))%nat ->
  (news_pool self <> [] -> fill_news_pool fuel h self the_pool true = None)
  /\ (ads_pool self <> [] -> fill_ads_pool fuel h self the_pool true = None)
  /\ (allocation_approach self <> "full" ->
      exists self',
        fill_news_pool fuel h self the_pool false = Some (Ok tt, self')
        /\ news_pool self' = news_pool self)
  /\ exists self',
       fill_ads_pool fuel h self the_pool false = Some (Ok tt, self')
       /\ ads_pool self' = ads_pool self
       /\ forall c open exclusive,
            ads_per_category self !! c = Some (open, exclusive) ->
            ads_per_category self' !! c
              = Some (open ++ filed_under h (categories self) c false (ads_pool self),
                      exclusive
                        ++ filed_under h (categories self) c true (ads_pool self)).
Proof.
  intros Hnews Hads Hbins. split; [|split; [|split]].
  - intros Hne. unfold fill_news_pool. cbn [contents].
    rewrite (validate_news_list_of_pool _ _ _ Hnews). cbn [extend_pool].
    rewrite append_to_itself_never_ends; [done|].
    destruct (news_pool self); [done | simpl; lia].
  - intros Hne. unfold fill_ads_pool. cbn [contents].
    rewrite (validate_ads_list_of_pool _ _ _ Hads). cbn [extend_pool].
    rewrite append_to_itself_never_ends; [done|].
    destruct (ads_pool self); [done | simpl; lia].
  - intros Happroach. unfold fill_news_pool. cbn [contents].
    rewrite (validate_news_list_of_pool _ _ _ Hnews).
    cbn [mbind option_bind]. unfold recount_and_grow.
    apply String.eqb_neq in Happroach.
    change (allocation_approach (with_news_pool _ self)) with (allocation_approach self).
    rewrite Happroach. eexists. split; reflexivity.
  - unfold fill_ads_pool. cbn [contents].
    rewrite (validate_ads_list_of_pool _ _ _ Hads).
    cbn [mbind option_bind].
    destruct (buffer_ads_spec h (categories self) (ads_pool self) (ads_per_category self)
                Hads Hbins) as (buffers & Hrun & _ & Hfiled).
    change (categories (with_ads_pool _ self)) with (categories self).
    change (ads_per_category (with_ads_pool _ self)) with (ads_per_category self).
    rewrite Hrun. eexists. split; [reflexivity|]. split; [reflexivity|]. exact Hfiled.
Qed.

Lemma filling_a_pool_with_itself_witness :
  fill_news_pool 1000 example_store learner_with_shared_pools the_pool true = None
  /\ fill_ads_pool 1000 example_store learner_with_shared_pools the_pool true = None
  /\ (exists self',
        fill_news_pool 1000 example_store learner_with_shared_pools the_pool false
          = Some (Ok tt, self')
        /\ news_pool self' = [0%nat])
  /\ exists self',
       fill_ads_pool 1000 example_store learner_with_shared_pools the_pool false
         = Some (Ok tt, self')
       /\ ads_pool self' = [0%nat]
       /\ ads_per_category self' !! 0%nat = Some ([], [0%nat]).
Proof.
  destruct (filling_a_pool_with_itself 1000 example_store learner_with_shared_pools)
    as (Hnews & Hads & Hkeep & self' & Hrun & Hpool & Hfiled).
  - apply (bool_decide_unpack _). vm_compute. exact I.
  - apply (bool_decide_unpack _). vm_compute. exact I.
  - vm_compute. lia.
  - split; [apply Hnews; vm_compute; discriminate|].
    split; [apply Hads; vm_compute; discriminate|].
    split; [apply Hkeep; vm_compute; discriminate|].
    exists self'. split; [exact Hrun|]. split; [exact Hpool|].
    etrans; [apply (Hfiled 0%nat [] []); vm_compute; reflexivity|].
    vm_compute. reflexivity.
Defined.

